(** * AI-Doc-Viewer, py-processor: ingestion and question answering

    A shallow embedding of [py-processor/app/main.py]:
    - [Py]        the Python [str] primitives the service relies on;
    - [Eff]       a small monad for exceptions and calls to collaborators;
    - [Chunker]   [chunk_text];
    - [Extractor] [extract_text_from_pdf];
    - [Fetcher]   [download_from_minio];
    - [Store]     the relational store and the LIKE/ILIKE operator;
    - [Ingest]    [embed_document] (chunk-and-store);
    - [Answer]    [generate_ai_response] and the [/qa] endpoint.

    Properties of these definitions are stated and proved in the second
    half of the file. *)

From Stdlib Require Import Ascii String DecimalString Floats.
From Stdlib Require Import ZArith NArith Bool Lia List.
Import ListNotations.

Set Implicit Arguments.

(* ===================================================================== *)
(** ** Python strings *)
(* ===================================================================== *)

Module Py.

Local Open Scope N_scope.

(** A Python [str] is a sequence of Unicode code points. *)
Definition char := N.
Definition str := list char.

(** ASCII literals. *)
Definition py (s : string) : str :=
  map N_of_ascii (list_ascii_of_string s).
Arguments py s%_string.

(** [len(s)] *)
Definition len (s : str) : Z := Z.of_nat (length s).

(** Truth value of a string: non-empty. *)
Definition truthy (s : str) : bool :=
  match s with
  | [] => false
  | _ :: _ => true
  end.

Definition char_in (lo hi c : char) : bool :=
  (N.leb lo c && N.leb c hi)%bool.

(** [c.isspace()]: the code points CPython treats as whitespace in
    [str.strip()], [str.split()] and [str.isspace()]. *)
Definition isspace (c : char) : bool :=
  (char_in 9 13 c || char_in 28 32 c || N.eqb c 133 || N.eqb c 160
   || N.eqb c 5760 || char_in 8192 8202 c || N.eqb c 8232 || N.eqb c 8233
   || N.eqb c 8239 || N.eqb c 8287 || N.eqb c 12288)%bool.

Fixpoint lstrip (s : str) : str :=
  match s with
  | [] => []
  | c :: s' => if isspace c then lstrip s' else s
  end.

Definition rstrip (s : str) : str := rev (lstrip (rev s)).

(** [s.strip()] *)
Definition strip (s : str) : str := rstrip (lstrip s).

(** [s.startswith(p)] *)
Fixpoint startswith (p s : str) : bool :=
  match p, s with
  | [], _ => true
  | _ :: _, [] => false
  | a :: p', b :: s' => (N.eqb a b && startswith p' s')%bool
  end.

(** [s.find(sub)], with [None] for Python's [-1]. *)
Fixpoint find (sub s : str) : option nat :=
  if startswith sub s then Some O
  else match s with
       | [] => None
       | _ :: s' => option_map S (find sub s')
       end.

(** [sub in s] *)
Definition contains (sub s : str) : bool :=
  match find sub s with
  | Some _ => true
  | None => false
  end.

(** Left-to-right scan of [s.split(sep)] for a non-empty [sep]; [skip]
    counts the characters of a separator that are still to be consumed.
    The result always has at least one piece. *)
Fixpoint split_scan (sep : str) (skip : nat) (s : str) : list str :=
  match s with
  | [] => [[]]
  | c :: s' =>
      match skip with
      | S k => split_scan sep k s'
      | O =>
          if startswith sep s
          then [] :: split_scan sep (length sep - 1)%nat s'
          else match split_scan sep O s' with
               | piece :: rest => (c :: piece) :: rest
               | [] => [[c]]
               end
      end
  end.

(** [s.split(sep)] (Python raises [ValueError] on an empty separator;
    every call site passes a literal, non-empty one). *)
Definition split (sep s : str) : list str := split_scan sep O s.

(** [s.split(sep, 1)] *)
Definition split_max1 (sep s : str) : list str :=
  match find sep s with
  | Some i => [firstn i s; skipn (i + length sep)%nat s]
  | None => [s]
  end.

(** [s.partition(sep)] *)
Definition partition (sep s : str) : str * str * str :=
  match find sep s with
  | Some i => (firstn i s, sep, skipn (i + length sep)%nat s)
  | None => (s, [], [])
  end.

(** [s.split()]: maximal runs of non-whitespace characters. *)
Fixpoint split_ws (s : str) : list str :=
  match s with
  | [] => []
  | c :: s' =>
      if isspace c then split_ws s'
      else match s' with
           | [] => [[c]]
           | d :: _ =>
               if isspace d then [c] :: split_ws s'
               else match split_ws s' with
                    | w :: ws => (c :: w) :: ws
                    | [] => [[c]]
                    end
           end
  end.

(** [s[i:]] with Python's treatment of negative and out-of-range
    indices. *)
Definition slice_from (i : Z) (s : str) : str :=
  let n := len s in
  let start := if (i <? 0)%Z then Z.max (n + i) 0 else Z.min i n in
  skipn (Z.to_nat start) s.

(** [c.lower()] on Basic Latin and Latin-1; the case mapping of code
    points from 256 on is not modelled and leaves them unchanged. *)
Definition lower_char (c : char) : char :=
  if (char_in 65 90 c || char_in 192 214 c || char_in 216 222 c)%bool
  then c + 32 else c.

(** [s.lower()] *)
Definition lower (s : str) : str := map lower_char s.

(** [sep.join(pieces)] *)
Fixpoint join (sep : str) (pieces : list str) : str :=
  match pieces with
  | [] => []
  | [p] => p
  | p :: rest => p ++ sep ++ join sep rest
  end.

(** [str(n)] for an [int]. *)
Definition str_of_int (n : Z) : str :=
  py (NilZero.string_of_int (Z.to_int n)).

End Py.

Import Py.
Arguments py s%_string.

(* ===================================================================== *)
(** ** Chunker *)
(* ===================================================================== *)

Module Chunker.

Definition delimiter : str := py ". ".

(** The loop state: the chunks emitted so far and the running chunk. *)
Definition state : Type := (list str * str)%type.

(** [current_chunk[-overlap:] if len(current_chunk) > overlap
     else current_chunk] *)
Definition overlap_text (overlap : Z) (current_chunk : str) : str :=
  if (len current_chunk >? overlap)%Z
  then slice_from (- overlap) current_chunk
  else current_chunk.

(** The test that closes out the running chunk. *)
Definition closes (chunk_size : Z) (current_chunk sentence : str) : bool :=
  ((len current_chunk + len sentence >? chunk_size)%Z
   && truthy current_chunk)%bool.

(** One iteration of [for sentence in sentences]. *)
Definition step (chunk_size overlap : Z) (st : state) (sentence : str)
  : state :=
  let '(chunks, current_chunk) := st in
  if closes chunk_size current_chunk sentence then
    (chunks ++ [strip current_chunk],
     overlap_text overlap current_chunk ++ delimiter ++ sentence)
  else
    (chunks,
     if truthy current_chunk
     then current_chunk ++ delimiter ++ sentence
     else sentence).

Definition run_loop (chunk_size overlap : Z) (sentences : list str)
  : state :=
  fold_left (step chunk_size overlap) sentences ([], []).

(** [chunk_text(text, chunk_size=500, overlap=50)] *)
Definition chunk_text (text : str) (chunk_size overlap : Z) : list str :=
  if (negb (truthy text) || (len (strip text) =? 0)%Z)%bool then []
  else
    let sentences := split delimiter text in
    let '(chunks, current_chunk) :=
      run_loop chunk_size overlap sentences in
    if truthy (strip current_chunk)
    then chunks ++ [strip current_chunk]
    else chunks.

Definition default_chunk_size : Z := 500.
Definition default_overlap : Z := 50.

End Chunker.

(* ===================================================================== *)
(** ** Exceptions and calls to collaborators *)
(* ===================================================================== *)

Module Eff.

(** The exceptions the service distinguishes.  [Error] stands for any
    other [Exception]; it carries [str(e)]. *)
Inductive exn : Type :=
| HTTPException (status_code : Z) (detail : str)
| ValueError (msg : str)
| Error (msg : str).

Inductive outcome (A : Type) : Type :=
| Ok (a : A)
| Raise (e : exn).
Arguments Ok {A} a.
Arguments Raise {A} e.

(** What a collaborator (a library, the file system, the database, the
    language model) answers: a value, or the message of the exception
    it raises. *)
Inductive reply (A : Type) : Type :=
| Returns (a : A)
| Fails (msg : str).
Arguments Returns {A} a.
Arguments Fails {A} msg.

(** [str(e)] *)
Definition str_of_exn (e : exn) : str :=
  match e with
  | HTTPException status_code detail =>
      str_of_int status_code ++ py ": " ++ detail
  | ValueError msg => msg
  | Error msg => msg
  end.

(** A computation over a world [W]: the world is threaded through, and
    is kept when an exception is raised. *)
Definition M (W A : Type) : Type := W -> outcome A * W.

Definition ret {W A} (a : A) : M W A := fun w => (Ok a, w).

Definition bind {W A B} (m : M W A) (k : A -> M W B) : M W B :=
  fun w =>
    match m w with
    | (Ok a, w') => k a w'
    | (Raise e, w') => (Raise e, w')
    end.

Definition raise {W A} (e : exn) : M W A := fun w => (Raise e, w).

(** [try: m  except Exception as e: handler(e)] *)
Definition try_except {W A} (m : M W A) (handler : exn -> M W A) : M W A :=
  fun w =>
    match m w with
    | (Ok a, w') => (Ok a, w')
    | (Raise e, w') => handler e w'
    end.

Definition get {W} : M W W := fun w => (Ok w, w).
Definition modify {W} (f : W -> W) : M W unit := fun w => (Ok tt, f w).

(** The answer of a collaborator enters the computation. *)
Definition of_reply {W A} (r : reply A) : M W A :=
  match r with
  | Returns a => ret a
  | Fails msg => raise (Error msg)
  end.

Module Notations.
Declare Scope eff_scope.
Delimit Scope eff_scope with eff.
Notation "x <- c1 ;; c2" := (bind c1 (fun x => c2))
  (at level 61, c1 at next level, right associativity) : eff_scope.
Notation "c1 ;; c2" := (bind c1 (fun _ => c2))
  (at level 61, right associativity) : eff_scope.
End Notations.

End Eff.

Import Eff Eff.Notations.

(* ===================================================================== *)
(** ** Text extractor *)
(* ===================================================================== *)

Module Extractor.

Local Open Scope eff_scope.

(** A rendered page image, as [pytesseract] receives it. *)
Definition pixmap : Type := list N.

(** A page of an opened PyMuPDF document.  The calls the extractor
    guards with [try] may fail; the text layer is read outside of it and
    is taken as delivered. *)
Record page : Type := {
  get_text : str;                        (* page.get_text("text") or "" *)
  get_images : reply (list N);           (* page.get_images() *)
  get_drawings : reply (list N);         (* page.get_drawings() *)
  get_pixmap : Z -> reply pixmap         (* page.get_pixmap(dpi=...), Image.frombytes *)
}.

(** The optional imports and collaborators of the extractor. *)
Record libs : Type := {
  fitz_open : option (str -> reply (list page));   (* None: fitz is None *)
  ocr_imported : bool;        (* Image is not None and pytesseract is not None *)
  image_to_string : pixmap -> str -> reply str     (* pytesseract.image_to_string(img, config=...) *)
}.

Inductive call : Type :=
| GetImages (page_no : Z)
| GetDrawings (page_no : Z)
| GetPixmap (page_no : Z) (dpi : Z)
| ImageToString (page_no : Z) (config : str)
| Print (line : str).

Definition log (c : call) : M (list call) unit :=
  modify (fun calls => calls ++ [c]).

(** An entry of the result: [{"page_no": ..., "text": ...}]. *)
Record page_out : Type := { page_no : Z; text : str }.

Definition min_text_len : Z := 20.
Definition ocr_dpi : Z := 150.
Definition ocr_config : str := py "--psm 6".
Definition newline : str := [10%N].

(** [x or y] on lists, with [y] evaluated only when [x] is empty. *)
Definition nonempty {A} (l : list A) : bool :=
  match l with
  | [] => false
  | _ :: _ => true
  end.

(** The body of the [try] block of page [i] (0-based). *)
Definition ocr_fallback (L : libs) (i : Z) (pg : page) (text : str)
  : M (list call) str :=
  log (GetImages (i + 1)) ;;
  images <- of_reply (get_images pg) ;;
  has_content <-
    (if nonempty images then ret true
     else (log (GetDrawings (i + 1)) ;;
           drawings <- of_reply (get_drawings pg) ;;
           ret (nonempty drawings))) ;;
  if has_content : bool then
    log (GetPixmap (i + 1) ocr_dpi) ;;
    pix <- of_reply (get_pixmap pg ocr_dpi) ;;
    log (ImageToString (i + 1) ocr_config) ;;
    ocr <- of_reply (image_to_string L pix ocr_config) ;;
    ret (strip (text ++ newline ++ ocr))
  else ret text.

(** The body of [for i, page in enumerate(doc)]. *)
Definition process_page (L : libs) (i : Z) (pg : page)
  : M (list call) page_out :=
  let text := get_text pg in
  text' <-
    (if ((len (strip text) <? min_text_len)%Z && ocr_imported L)%bool then
       try_except (ocr_fallback L i pg text)
         (fun e =>
            log (Print (py "OCR failed for page " ++ str_of_int (i + 1)
                        ++ py ": " ++ str_of_exn e)) ;;
            ret text)
     else ret text) ;;
  ret {| page_no := i + 1; text := text' |}.

Fixpoint for_pages (L : libs) (i : Z) (doc : list page)
         (pages : list page_out) : M (list call) (list page_out) :=
  match doc with
  | [] => ret pages
  | pg :: rest =>
      p <- process_page L i pg ;;
      for_pages L (i + 1) rest (pages ++ [p])
  end.

(** [extract_text_from_pdf(path)] *)
Definition extract_text_from_pdf (L : libs) (path : str)
  : M (list call) (list page_out) :=
  match fitz_open L with
  | None => raise (HTTPException 500 (py "PDF processing not available"))
  | Some open =>
      doc <- of_reply (open path) ;;
      for_pages L 0 doc []
  end.

End Extractor.

(* ===================================================================== *)
(** ** Source fetcher *)
(* ===================================================================== *)

Module Fetcher.

Local Open Scope eff_scope.

Definition slash : char := 47%N.
Definition dot : char := 46%N.

Definition str_eqb (a b : str) : bool :=
  if list_eq_dec N.eq_dec a b then true else false.

(** [s.endswith(suffix)] *)
Definition endswith (suffix s : str) : bool :=
  startswith (rev suffix) (rev s).

(** [s.rfind(c)] for a single character, with [None] for [-1]. *)
Fixpoint rfind_char (c : char) (s : str) : option nat :=
  match s with
  | [] => None
  | x :: s' =>
      match rfind_char c s' with
      | Some i => Some (S i)
      | None => if N.eqb x c then Some O else None
      end
  end.

(** [pathlib.PurePosixPath(p).name]: the last component, empty and
    ["."] components being dropped when the path is parsed. *)
Definition path_name (p : str) : str :=
  last (filter (fun part => (truthy part && negb (str_eqb part [dot]))%bool)
               (split [slash] p))
       [].

(** [pathlib.PurePosixPath(p).suffix]:
    [i = name.rfind('.')], then [name[i:]] if [0 < i < len(name) - 1],
    else the empty string. *)
Definition path_suffix (p : str) : str :=
  let name := path_name p in
  match rfind_char dot name with
  | Some i =>
      if ((0 <? i) && (i <? length name - 1))%nat%bool
      then skipn i name else []
  | None => []
  end.

(** [os.path.join(dir, file)] for a relative [file]. *)
Definition path_join (dir file : str) : str :=
  if (negb (truthy dir) || endswith [slash] dir)%bool
  then dir ++ file
  else dir ++ [slash] ++ file.

(** [os.path.dirname(p)] *)
Definition dirname (p : str) : str :=
  let head :=
    match rfind_char slash p with
    | Some i => firstn (S i) p
    | None => []
    end in
  if (truthy head && negb (forallb (N.eqb slash) head))%bool
  then rev (let fix drop (s : str) : str :=
              match s with
              | [] => []
              | c :: s' => if N.eqb c slash then drop s' else s
              end in drop (rev head))
  else head.

(** The collaborators: object storage, HTTP, the operating system, and
    the names [tempfile] draws. *)
Record env : Type := {
  s3_download_file : str -> str -> str -> reply unit;   (* bucket, key, local *)
  requests_get : str -> reply (Z * list N);             (* status code, content *)
  os_makedirs : str -> reply unit;                      (* os.makedirs(dir, exist_ok=True) *)
  gettempdir : str;
  candidate_names : list str     (* the names [tempfile] tries, in order *)
}.

Inductive call : Type :=
| Makedirs (dir : str)
| S3Download (bucket key local : str)
| HttpGet (url : str)
| WriteFile (path : str).

(** The local file system, as far as the fetcher sees it: the paths
    that exist. *)
Record world : Type := {
  files : list str;
  calls : list call
}.

Definition log (c : call) : M world unit :=
  modify (fun w => {| files := files w; calls := calls w ++ [c] |}).

Definition create (path : str) : M world unit :=
  modify (fun w => {| files := path :: files w; calls := calls w |}).

(** [os.path.exists(path)] *)
Definition exists_ (path : str) : M world bool :=
  w <- get ;; ret (existsb (str_eqb path) (files w)).

(** [os.path.join(dir, prefix + name + suffix)] with the default
    prefix. *)
Definition temp_path (E : env) (suffix name : str) : str :=
  path_join (gettempdir E) (py "tmp" ++ name ++ suffix).

(** [str(FileExistsError(errno.EEXIST, "No usable temporary filename
    found"))] *)
Definition no_usable_name : str :=
  py "[Errno 17] No usable temporary filename found".

(** [tempfile.mktemp(suffix=suffix)]: the first candidate path that
    does not exist; the file is not created.  Each candidate is probed
    with [os.lstat], which raises [ValueError] on a path with a NUL
    character; the directory and the names are [tempfile]'s own and
    have none, so this happens exactly when the suffix has one. *)
Definition mktemp (E : env) (suffix : str) : M world str :=
  w <- get ;;
  match candidate_names E with
  | [] => raise (Error no_usable_name)
  | _ :: _ =>
      if existsb (N.eqb 0) suffix
      then raise (ValueError (py "embedded null byte"))
      else
        match
          List.find (fun file => negb (existsb (str_eqb file) (files w)))
            (map (temp_path E suffix) (candidate_names E))
        with
        | Some file => ret file
        | None => raise (Error no_usable_name)
        end
  end.

Definition file_scheme : str := py "file://".
Definition minio_scheme : str := py "minio://".
Definition invalid_locator : exn :=
  ValueError (py "minio url must be minio://bucket/key").

(** [download_from_minio(url)] *)
Definition download_from_minio (E : env) (url : str) : M world str :=
  if startswith file_scheme url then
    let file_path := slice_from 7 url in
    present <- exists_ file_path ;;
    if present : bool then ret file_path
    else raise (ValueError (py "File not found: " ++ file_path))
  else if startswith minio_scheme url then
    let '(_, _, path) := partition minio_scheme url in
    match split_max1 [slash] path with
    | [bucket; key] =>
        local <- mktemp E (path_suffix key) ;;
        log (Makedirs (dirname local)) ;;
        of_reply (os_makedirs E (dirname local)) ;;
        log (S3Download bucket key local) ;;
        of_reply (s3_download_file E bucket key local) ;;
        create local ;;
        ret local
    | _ => raise invalid_locator
    end
  else
    log (HttpGet url) ;;
    resp <- of_reply (requests_get E url) ;;
    if negb (fst resp =? 200)%Z then raise (ValueError (py "failed to download"))
    else
      local <- mktemp E (py ".bin") ;;
      log (WriteFile local) ;;
      create local ;;
      ret local.

End Fetcher.

(* ===================================================================== *)
(** ** The relational store *)
(* ===================================================================== *)

Module Store.

Record document_row : Type := {
  doc_id : Z;
  doc_title : str;
  doc_file_url : str;
  doc_status : str
}.

Record page_row : Type := {
  pg_id : Z;
  pg_document_id : Z;
  pg_page_no : Z;
  pg_text : str
}.

(** A row of [chunks(id, document_id, page_no, text, created_at)];
    [created_at] is filled by the database and never read. *)
Record chunk_row : Type := {
  ch_id : Z;
  ch_document_id : Z;
  ch_page_no : Z;
  ch_text : str
}.

(** The tables, each in the order a sequential scan returns its rows. *)
Record db : Type := {
  documents : list document_row;
  document_pages : list page_row;
  chunks : list chunk_row
}.

(** *** LIKE and ILIKE *)

Definition percent : char := 37%N.
Definition underscore : char := 95%N.
Definition backslash : char := 92%N.

Inductive like_token : Type :=
| AnyString                 (* % *)
| AnyChar                   (* _ *)
| Literal (c : char).       (* an ordinary or an escaped character *)

(** A pattern is read left to right; a backslash makes the next
    character literal, and a pattern that ends in a lone backslash is
    rejected. *)
Fixpoint parse_like (p : str) : option (list like_token) :=
  match p with
  | [] => Some []
  | c :: p' =>
      if N.eqb c percent then option_map (cons AnyString) (parse_like p')
      else if N.eqb c underscore then option_map (cons AnyChar) (parse_like p')
      else if N.eqb c backslash then
        match p' with
        | [] => None
        | d :: p'' => option_map (cons (Literal d)) (parse_like p'')
        end
      else option_map (cons (Literal c)) (parse_like p')
  end.

(** The whole of [t] matches the pattern. *)
Fixpoint like_match (toks : list like_token) (t : str) : bool :=
  match toks with
  | [] => negb (truthy t)
  | AnyString :: toks' =>
      (fix scan (t : str) : bool :=
         (like_match toks' t
          || match t with
             | [] => false
             | _ :: t' => scan t'
             end)%bool) t
  | AnyChar :: toks' =>
      match t with
      | [] => false
      | _ :: t' => like_match toks' t'
      end
  | Literal c :: toks' =>
      match t with
      | [] => false
      | x :: t' => (N.eqb x c && like_match toks' t')%bool
      end
  end.

(** [text ILIKE pattern]: LIKE on the lower-cased pattern and text;
    [None] when the pattern is rejected. *)
Definition ilike (text pattern : str) : option bool :=
  match parse_like (lower pattern) with
  | Some toks => Some (like_match toks (lower text))
  | None => None
  end.

(** *** The statements the service executes *)

Inductive statement : Type :=
| CountChunks
    (* SELECT COUNT( * ) FROM chunks *)
| SelectDocument (id : Z)
    (* SELECT id FROM documents WHERE id = %s *)
| SelectChunks (scope : option Z) (patterns : list str) (limit : Z)
    (* SELECT id, document_id, page_no, text FROM chunks
       WHERE [document_id=%s AND] (text ILIKE %s OR ...) LIMIT %s *)
| SelectPages (document_id : Z)
    (* SELECT id, page_no, text FROM document_pages WHERE document_id=%s *)
| InsertChunks (records : list (Z * Z * str)).
    (* INSERT INTO chunks(document_id, page_no, text) VALUES %s *)

Definition count_chunks (d : db) : Z := Z.of_nat (length (chunks d)).

(** [cur.fetchone()] after [SelectDocument]. *)
Definition select_document (d : db) (id : Z) : option Z :=
  option_map doc_id (List.find (fun r => (doc_id r =? id)%Z) (documents d)).

Definition select_pages (d : db) (document_id : Z) : list page_row :=
  filter (fun r => (pg_document_id r =? document_id)%Z) (document_pages d).

Definition in_scope (scope : option Z) (r : chunk_row) : bool :=
  match scope with
  | Some id => (ch_document_id r =? id)%Z
  | None => true
  end.

(** [text ILIKE p1 OR text ILIKE p2 OR ...] for parsed patterns. *)
Definition any_like (pats : list (list like_token)) (text : str) : bool :=
  existsb (fun toks => like_match toks (lower text)) pats.

Fixpoint parse_all (patterns : list str) : option (list (list like_token)) :=
  match patterns with
  | [] => Some []
  | p :: rest =>
      match parse_like (lower p), parse_all rest with
      | Some toks, Some more => Some (toks :: more)
      | _, _ => None
      end
  end.

Definition max_bigint : Z := 9223372036854775807.

(** [cur.execute(sql, params); cur.fetchall()] for [SelectChunks].
    A parameter with a NUL character is refused by the driver; a
    negative or oversized LIMIT and a rejected pattern are refused by
    the server.  The rows come back in scan order. *)
Definition select_chunks (d : db) (scope : option Z) (patterns : list str)
           (limit : Z) : reply (list chunk_row) :=
  if existsb (existsb (N.eqb 0)) patterns then
    Fails (py "A string literal cannot contain NUL (0x00) characters.")
  else if (limit <? 0)%Z then
    Fails (py "LIMIT must not be negative")
  else if (limit >? max_bigint)%Z then
    Fails (py "bigint out of range")
  else
    match parse_all patterns with
    | None => Fails (py "LIKE pattern must not end with escape character")
    | Some pats =>
        Returns
          (firstn (Z.to_nat limit)
             (filter (fun r => (in_scope scope r && any_like pats (ch_text r))%bool)
                (chunks d)))
    end.

Definition next_id (rows : list chunk_row) : Z :=
  fold_right (fun r m => Z.max (ch_id r + 1) m) 1%Z rows.

(** Committed inserts: the rows are appended, with fresh identifiers. *)
Fixpoint insert_chunks (rows : list chunk_row) (records : list (Z * Z * str))
  : list chunk_row :=
  match records with
  | [] => rows
  | (document_id, page_no, text) :: rest =>
      insert_chunks
        (rows ++ [{| ch_id := next_id rows; ch_document_id := document_id;
                     ch_page_no := page_no; ch_text := text |}])
        rest
  end.

End Store.

(* ===================================================================== *)
(** ** The service: its environment and its calls *)
(* ===================================================================== *)

Module Service.

Local Open Scope eff_scope.
Import Store.

Record env : Type := {
  (* [None]: psycopg2 (and with it execute_values) is None; otherwise
     what psycopg2.connect(DATABASE_URL) answers *)
  psycopg2 : option (reply unit);
  (* [None]: genai is None or gemini_model is None; otherwise
     gemini_model.generate_content(prompt).text *)
  gemini_model : option (str -> reply str)
}.

Inductive call : Type :=
| Connect
| Execute (s : statement)
| Commit
| GenerateAnswer (query context : str)
| GenerateContent (prompt : str).

(** The database, the inserts of the open transaction, and the calls
    made so far. *)
Record world : Type := {
  database : db;
  pending : list (Z * Z * str);
  calls : list call
}.

Definition log (c : call) : M world unit :=
  modify (fun w => {| database := database w; pending := pending w;
                      calls := calls w ++ [c] |}).

(** [pg_connect()] *)
Definition pg_connect (E : env) : M world unit :=
  match psycopg2 E with
  | None =>
      raise (HTTPException 500 (py "Database connection not available"))
  | Some answer => log Connect ;; of_reply answer
  end.

Definition sql_count_chunks : M world Z :=
  log (Execute CountChunks) ;;
  w <- get ;; ret (count_chunks (database w)).

Definition sql_select_document (id : Z) : M world (option Z) :=
  log (Execute (SelectDocument id)) ;;
  w <- get ;; ret (select_document (database w) id).

Definition sql_select_chunks (scope : option Z) (patterns : list str)
           (limit : Z) : M world (list chunk_row) :=
  log (Execute (SelectChunks scope patterns limit)) ;;
  w <- get ;; of_reply (select_chunks (database w) scope patterns limit).

Definition sql_select_pages (document_id : Z) : M world (list page_row) :=
  log (Execute (SelectPages document_id)) ;;
  w <- get ;; ret (select_pages (database w) document_id).

(** [execute_values(cur, "INSERT INTO chunks(...) VALUES %s", records)] *)
Definition sql_insert_chunks (records : list (Z * Z * str)) : M world unit :=
  log (Execute (InsertChunks records)) ;;
  modify (fun w => {| database := database w;
                      pending := pending w ++ records;
                      calls := calls w |}).

(** [conn.commit()] *)
Definition commit : M world unit :=
  log Commit ;;
  modify (fun w =>
            {| database :=
                 {| documents := documents (database w);
                    document_pages := document_pages (database w);
                    chunks := insert_chunks (chunks (database w)) (pending w) |};
               pending := [];
               calls := calls w |}).

End Service.

(* ===================================================================== *)
(** ** Chunk-and-store *)
(* ===================================================================== *)

Module Ingest.

Local Open Scope eff_scope.
Import Store Service Chunker.

(** An element of [all_chunks]: [(document_id, page_no, idx, c)]. *)
Definition staged : Type := (Z * Z * Z * str)%type.

Definition staged_idx (r : staged) : Z := let '(_, _, idx, _) := r in idx.

(** [(r[0], r[1], r[3])] *)
Definition record_of (r : staged) : Z * Z * str :=
  let '(document_id, page_no, _, c) := r in (document_id, page_no, c).

(** [enumerate(l)] *)
Fixpoint enumerate_from {A} (i : Z) (l : list A) : list (Z * A) :=
  match l with
  | [] => []
  | x :: rest => (i, x) :: enumerate_from (i + 1) rest
  end.

Definition enumerate {A} (l : list A) : list (Z * A) := enumerate_from 0 l.

Definition embed_chunk_size : Z := 300.
Definition embed_overlap : Z := 30.
Definition batch_size : nat := 100.

(** The body of [for rid, page_no, text in rows]. *)
Definition stage_page (document_id : Z) (row : page_row) : list staged :=
  let text := pg_text row in
  if (negb (truthy text) || (len (strip text) =? 0)%Z)%bool then []
  else
    map (fun ic => (document_id, pg_page_no row, fst ic, snd ic))
        (enumerate (chunk_text text embed_chunk_size embed_overlap)).

Definition stage (document_id : Z) (rows : list page_row) : list staged :=
  flat_map (stage_page document_id) rows.

(** [[l[i:i + size] for i in range(0, len(l), size)]]; [fuel] bounds
    the number of slices. *)
Fixpoint batches_fuel {A} (fuel size : nat) (l : list A) : list (list A) :=
  match fuel with
  | O => []
  | S fuel' =>
      match l with
      | [] => []
      | _ :: _ => firstn size l :: batches_fuel fuel' size (skipn size l)
      end
  end.

Definition batches {A} (size : nat) (l : list A) : list (list A) :=
  batches_fuel (length l) size l.

Definition execute_values_imported (E : env) : bool :=
  match psycopg2 E with
  | Some _ => true
  | None => false
  end.

(** [for i in range(0, len(all_chunks), batch_size)] *)
Fixpoint store_batches (E : env) (bs : list (list staged)) : M world unit :=
  match bs with
  | [] => ret tt
  | batch :: rest =>
      let records := map record_of batch in
      (if execute_values_imported E then sql_insert_chunks records
       else raise (HTTPException 500 (py "Database utilities not available"))) ;;
      store_batches E rest
  end.

(** [embed_document(document_id)] *)
Definition embed_document (E : env) (document_id : Z) : M world bool :=
  pg_connect E ;;
  rows <- sql_select_pages document_id ;;
  let all_chunks := stage document_id rows in
  match all_chunks with
  | [] => ret true
  | _ :: _ =>
      pg_connect E ;;
      store_batches E (batches batch_size all_chunks) ;;
      commit ;;
      ret true
  end.

End Ingest.

(* ===================================================================== *)
(** ** Retrieval and answer *)
(* ===================================================================== *)

Module Answer.

Local Open Scope eff_scope.
Import Store Service.

Record QaIn : Type := {
  query : str;
  documentId : option Z;
  top_k : Z
}.

Definition default_top_k : Z := 6.

Record citation : Type := {
  cit_documentId : Z;
  cit_page : Z;
  cit_score : float
}.

Record response : Type := {
  answer : str;
  citations : list citation
}.

Definition prompt_head : str := py "
You are an AI assistant that helps users find information from documents. 
Based on the following context from uploaded documents, please answer the user's question.

User Question: ".

Definition prompt_middle : str := py "

Context from documents:
".

Definition prompt_tail : str := py "

Instructions:
1. Provide a clear, helpful answer based on the context provided
2. If the context doesn't contain enough information to answer the question, say so
3. Be concise but informative
4. If you reference specific information, mention that it came from the uploaded documents
5. If the question is not related to the document content, politely redirect to ask about the document content

Answer:
".

(** [generate_ai_response(query, context)] *)
Definition generate_ai_response (E : env) (query context : str)
  : M world str :=
  log (GenerateAnswer query context) ;;
  match gemini_model E with
  | None => ret (py "AI service not available. Please check configuration.")
  | Some generate_content =>
      try_except
        (let prompt :=
           prompt_head ++ query ++ prompt_middle ++ context ++ prompt_tail in
         log (GenerateContent prompt) ;;
         of_reply (generate_content prompt))
        (fun e =>
           ret (py "I apologize, but I encountered an error while processing your question: "
                ++ str_of_exn e ++ py ". Please try again."))
  end.

Definition msg_empty_query : str := py "Query cannot be empty".
Definition msg_more_specific : str :=
  py "Please provide a more specific question with meaningful keywords.".
Definition msg_no_documents : str :=
  py "No documents have been processed yet. Please upload and process a document first.".
Definition msg_not_found (id : Z) : str :=
  py "Document with ID " ++ str_of_int id
  ++ py " not found. Please check the document ID or leave it empty to search all documents.".
Definition msg_no_match : str :=
  py "I couldn't find any relevant information in the uploaded documents to answer your question. Please try rephrasing your question or make sure you have uploaded relevant documents.".

(** [[word.lower().strip() for word in query.split()
      if len(word.strip()) > 1]] *)
Definition query_words (query : str) : list str :=
  map (fun word => strip (lower word))
      (filter (fun word => (len (strip word) >? 1)%Z) (split_ws query)).

(** [f"%{word}%"] *)
Definition pattern_of (word : str) : str := [percent] ++ word ++ [percent].

(** [f"[Document {r[1]}, Page {r[2]}]: {r[3]}"] *)
Definition context_part (r : chunk_row) : str :=
  py "[Document " ++ str_of_int (ch_document_id r) ++ py ", Page "
  ++ str_of_int (ch_page_no r) ++ py "]: " ++ ch_text r.

(** [{"documentId": r[1], "page": r[2], "score": 1.0}] *)
Definition cite (r : chunk_row) : citation :=
  {| cit_documentId := ch_document_id r;
     cit_page := ch_page_no r;
     cit_score := 1%float |}.

(** From [if rows:] to the final [return]. *)
Definition respond (E : env) (query : str) (rows : list chunk_row)
  : M world response :=
  match rows with
  | _ :: _ =>
      let context := join [10%N; 10%N] (map context_part rows) in
      answer <- generate_ai_response E query context ;;
      ret {| answer := answer; citations := map cite rows |}
  | [] => ret {| answer := msg_no_match; citations := [] |}
  end.

(** [if inp.documentId:] holds for an identifier other than [None]
    and [0]. *)
Definition scope_of (documentId : option Z) : option Z :=
  match documentId with
  | Some id => if (id =? 0)%Z then None else Some id
  | None => None
  end.

(** The [try] block of [qa]. *)
Definition qa_try (E : env) (inp : QaIn) : M world response :=
  if (negb (truthy (query inp)) || negb (truthy (strip (query inp))))%bool
  then raise (HTTPException 422 msg_empty_query)
  else
    pg_connect E ;;
    let words := query_words (query inp) in
    match words with
    | [] => ret {| answer := msg_more_specific; citations := [] |}
    | _ :: _ =>
        let params := map pattern_of words in
        chunk_count <- sql_count_chunks ;;
        if (chunk_count =? 0)%Z
        then ret {| answer := msg_no_documents; citations := [] |}
        else
          match scope_of (documentId inp) with
          | Some id =>
              found <- sql_select_document id ;;
              match found with
              | None => ret {| answer := msg_not_found id; citations := [] |}
              | Some _ =>
                  rows <- sql_select_chunks (Some id) params (top_k inp) ;;
                  respond E (query inp) rows
              end
          | None =>
              rows <- sql_select_chunks None params (top_k inp) ;;
              respond E (query inp) rows
          end
    end.

(** [qa(inp)]: an [HTTPException] passes through, any other exception
    becomes a 500. *)
Definition qa (E : env) (inp : QaIn) : M world response :=
  try_except (qa_try E inp)
    (fun e =>
       match e with
       | HTTPException _ _ => raise e
       | _ => raise (HTTPException 500
                       (py "Q&A processing failed: " ++ str_of_exn e))
       end).

End Answer.

(* ===================================================================== *)
(** ** The extract endpoint *)
(* ===================================================================== *)

Module Pipeline.

Local Open Scope eff_scope.
Import Store.

(** [ExtractIn] *)
Record ExtractIn : Type := {
  documentId : Z;
  fileUrl : str
}.

(** [{"ok": True, "pages": len(pages), "documentId": inp.documentId}] *)
Record extracted : Type := {
  ok : bool;
  pages : Z;
  out_documentId : Z
}.

(** The environments of the components the endpoint calls, and
    [Image.open]. *)
Record env : Type := {
  fetcher : Fetcher.env;
  libs : Extractor.libs;
  service : Service.env;
  image_open : str -> reply Extractor.pixmap          (* Image.open(local) *)
}.

(** The calls the endpoint makes itself. *)
Inductive call : Type :=
| ImageOpen (path : str)
| ImageToString
| UpsertDocument (row : document_row)
    (* INSERT INTO documents (id, title, file_url, status, created_at)
       VALUES (...) ON CONFLICT (id) DO UPDATE SET ... *)
| InsertPages (records : list (Z * Z * str))
    (* INSERT INTO document_pages(document_id, page_no, text) VALUES %s *)
| CommitPages
| Rollback.

(** The worlds of the components, and the calls of the endpoint. *)
Record world : Type := {
  disk : Fetcher.world;
  pdf_calls : list Extractor.call;
  store : Service.world;
  calls : list call
}.

Definition on_disk {A} (m : M Fetcher.world A) : M world A :=
  fun w =>
    let (r, d) := m (disk w) in
    (r, {| disk := d; pdf_calls := pdf_calls w; store := store w;
           calls := calls w |}).

Definition on_pdf {A} (m : M (list Extractor.call) A) : M world A :=
  fun w =>
    let (r, l) := m (pdf_calls w) in
    (r, {| disk := disk w; pdf_calls := l; store := store w;
           calls := calls w |}).

Definition on_store {A} (m : M Service.world A) : M world A :=
  fun w =>
    let (r, s) := m (store w) in
    (r, {| disk := disk w; pdf_calls := pdf_calls w; store := s;
           calls := calls w |}).

Definition log (c : call) : M world unit :=
  modify (fun w => {| disk := disk w; pdf_calls := pdf_calls w;
                      store := store w; calls := calls w ++ [c] |}).

(** *** The statements of the endpoint *)

(** The range of the column type [INTEGER]. *)
Definition integer (z : Z) : bool :=
  ((-2147483648 <=? z) && (z <=? 2147483647))%Z%bool.

Definition has_nul (s : str) : bool := existsb (N.eqb 0) s.

Definition nul_refused : str :=
  py "A string literal cannot contain NUL (0x00) characters.".

Definition has_id (id : Z) (r : document_row) : bool := (doc_id r =? id)%Z.

(** [ON CONFLICT (id) DO UPDATE]: the row with this identifier is
    replaced, or the row is added. *)
Definition upsert (row : document_row) (rows : list document_row)
  : list document_row :=
  if existsb (has_id (doc_id row)) rows
  then map (fun r => if has_id (doc_id row) r then row else r) rows
  else rows ++ [row].

(** The upsert of the document row.  The driver refuses a NUL
    character, the server an identifier outside of [INTEGER]. *)
Definition upsert_document (d : db) (row : document_row) : reply db :=
  if (has_nul (doc_title row) || has_nul (doc_file_url row)
      || has_nul (doc_status row))%bool then Fails nul_refused
  else if negb (integer (doc_id row)) then Fails (py "integer out of range")
  else
    Returns {| documents := upsert row (documents d);
               document_pages := document_pages d;
               chunks := chunks d |}.

Definition next_page_id (rows : list page_row) : Z :=
  fold_right (fun r m => Z.max (pg_id r + 1) m) 1%Z rows.

(** The rows are appended, with fresh identifiers. *)
Fixpoint append_pages (rows : list page_row) (records : list (Z * Z * str))
  : list page_row :=
  match records with
  | [] => rows
  | (document_id, page_no, text) :: rest =>
      append_pages
        (rows ++ [{| pg_id := next_page_id rows; pg_document_id := document_id;
                     pg_page_no := page_no; pg_text := text |}])
        rest
  end.

(** The insert of the page rows.  The driver refuses a NUL character;
    the server refuses a number outside of [INTEGER] and a document
    identifier without document row. *)
Definition insert_pages (d : db) (records : list (Z * Z * str)) : reply db :=
  if existsb (fun r => has_nul (snd r)) records then Fails nul_refused
  else if negb (forallb (fun r => (integer (fst (fst r))
                                   && integer (snd (fst r)))%bool) records)
  then Fails (py "integer out of range")
  else if negb (forallb (fun r => existsb (has_id (fst (fst r))) (documents d))
                        records)
  then Fails (py "insert or update on table document_pages violates foreign key constraint")
  else
    Returns {| documents := documents d;
               document_pages := append_pages (document_pages d) records;
               chunks := chunks d |}.

(** [conn.commit()]: the tables of the transaction become the stored
    ones. *)
Definition commit (d : db) : M world unit :=
  log CommitPages ;;
  modify (fun w =>
            {| disk := disk w; pdf_calls := pdf_calls w;
               store := {| Service.database := d;
                           Service.pending := Service.pending (store w);
                           Service.calls := Service.calls (store w) |};
               calls := calls w |}).

(** *** The endpoint *)

(** The handler of a failed PDF extraction: OCR of the file as one
    image. *)
Definition image_fallback (E : env) (local : str) (e : exn)
  : M world (list Extractor.page_out) :=
  try_except
    (if Extractor.ocr_imported (libs E) then
       log (ImageOpen local) ;;
       img <- of_reply (image_open E local) ;;
       log ImageToString ;;
       text <- of_reply (Extractor.image_to_string (libs E) img []) ;;
       ret [{| Extractor.page_no := 1; Extractor.text := text |}]
     else raise (HTTPException 500 (py "OCR not available")))
    (fun e2 =>
       raise (HTTPException 500
                (py "extraction failed: " ++ str_of_exn e ++ py "; "
                 ++ str_of_exn e2))).

(** [[(inp.documentId, p["page_no"], p["text"]) for p in pages]] *)
Definition page_records (document_id : Z) (ps : list Extractor.page_out)
  : list (Z * Z * str) :=
  map (fun p => (document_id, Extractor.page_no p, Extractor.text p)) ps.

Definition document_row_of (inp : ExtractIn) : document_row :=
  {| doc_id := documentId inp;
     doc_title := py "Document " ++ str_of_int (documentId inp);
     doc_file_url := fileUrl inp;
     doc_status := py "processed" |}.

(** The [try] block of the database part. *)
Definition extract_try (E : env) (inp : ExtractIn)
           (ps : list Extractor.page_out) : M world extracted :=
  w <- get ;;
  log (UpsertDocument (document_row_of inp)) ;;
  d1 <- of_reply (upsert_document (Service.database (store w))
                    (document_row_of inp)) ;;
  (if Ingest.execute_values_imported (service E) then ret tt
   else raise (HTTPException 500 (py "Database utilities not available"))) ;;
  d2 <- match ps with
        | [] => ret d1
        | _ :: _ =>
            log (InsertPages (page_records (documentId inp) ps)) ;;
            of_reply (insert_pages d1 (page_records (documentId inp) ps))
        end ;;
  commit d2 ;;
  on_store (Ingest.embed_document (service E) (documentId inp)) ;;
  ret {| ok := true; pages := Z.of_nat (length ps);
         out_documentId := documentId inp |}.

(** [extract(inp)] *)
Definition extract (E : env) (inp : ExtractIn) : M world extracted :=
  local <- try_except
             (on_disk (Fetcher.download_from_minio (fetcher E) (fileUrl inp)))
             (fun e => raise (HTTPException 400
                                (py "download failed: " ++ str_of_exn e))) ;;
  ps <- try_except
          (on_pdf (Extractor.extract_text_from_pdf (libs E) local))
          (image_fallback E local) ;;
  on_store (Service.pg_connect (service E)) ;;
  try_except (extract_try E inp ps)
    (fun e =>
       log Rollback ;;
       raise (HTTPException 500
                (py "Database operation failed: " ++ str_of_exn e))).

(** [extract_form(documentId, fileUrl)] *)
Definition extract_form (E : env) (documentId : Z) (fileUrl : str)
  : M world extracted :=
  extract E {| documentId := documentId; fileUrl := fileUrl |}.

End Pipeline.

(* ===================================================================== *)
(** ** The simplified service *)
(* ===================================================================== *)

(** [main-simple.py].  The module loads only when [genai] was imported
    and the model was created, so a missing model is the [genai is None]
    branch of [generate_ai_response]. *)
Module Simple.

Local Open Scope eff_scope.
Import Store Service.

Definition prompt_tail : str := py "

Please provide a helpful and accurate answer based on the context provided. If the context doesn't contain enough information to answer the question, please say so.
".

(** [generate_ai_response(query, context)] *)
Definition generate_ai_response (E : env) (query context : str)
  : M world str :=
  log (GenerateAnswer query context) ;;
  match gemini_model E with
  | None => ret (py "AI service not available. Please check configuration.")
  | Some generate_content =>
      try_except
        (let prompt :=
           Answer.prompt_head ++ query ++ Answer.prompt_middle ++ context
           ++ prompt_tail in
         log (GenerateContent prompt) ;;
         of_reply (generate_content prompt))
        (fun e =>
           ret (py "I apologize, but I encountered an error while processing your question: "
                ++ str_of_exn e ++ py ". Please try again."))
  end.

(** [qa(inp)]: no validation, no count of the chunks, no check of the
    scope, and no handler. *)
Definition qa (E : env) (inp : Answer.QaIn) : M world Answer.response :=
  pg_connect E ;;
  let words := Answer.query_words (Answer.query inp) in
  match words with
  | [] =>
      ret {| Answer.answer := Answer.msg_more_specific;
             Answer.citations := [] |}
  | _ :: _ =>
      let params := map Answer.pattern_of words in
      rows <- sql_select_chunks (Answer.scope_of (Answer.documentId inp))
                params (Answer.top_k inp) ;;
      match rows with
      | _ :: _ =>
          let context := join [10%N; 10%N] (map Answer.context_part rows) in
          answer <- generate_ai_response E (Answer.query inp) context ;;
          ret {| Answer.answer := answer;
                 Answer.citations := map Answer.cite rows |}
      | [] =>
          ret {| Answer.answer := Answer.msg_no_match;
                 Answer.citations := [] |}
      end
  end.

End Simple.

(* ===================================================================== *)
(** ** Vocabulary of the properties *)
(* ===================================================================== *)

Import Chunker.

(** Empty or whitespace-only. *)
Definition blank (s : str) : bool := forallb isspace s.

(** The last [n] characters of [s] (all of [s] when it is shorter). *)
Definition trailing (n : nat) (s : str) : str := skipn (length s - n) s.

(** [a] occurs in [s]: [s = before ++ a ++ after]. *)
Definition occurs (a s : str) : Prop :=
  exists before after, s = before ++ a ++ after.

(** The sentence-like units of a text. *)
Definition sentences (text : str) : list str := split delimiter text.

(** *** Chunker *)

(** At least one chunk for a text that is non-empty after stripping, no
    chunk for an empty or whitespace-only text. *)
Definition at_least_one_chunk (text : str) (chunk_size overlap : Z) : Prop :=
  (strip text <> [] -> chunk_text text chunk_size overlap <> [])
  /\ (strip text = [] -> chunk_text text chunk_size overlap = []).

(** No emitted chunk is the empty string. *)
Definition no_empty_chunk (text : str) (chunk_size overlap : Z) : Prop :=
  ~ In [] (chunk_text text chunk_size overlap).

(** The overlap policy at a split: the new running chunk is the trailing
    [overlap] characters of the closed one, the delimiter, and the
    sentence that triggered the split. *)
Definition seeded_with_overlap (chunk_size overlap : Z)
           (chunks : list str) (current_chunk sentence : str) : Prop :=
  closes chunk_size current_chunk sentence = true ->
  snd (step chunk_size overlap (chunks, current_chunk) sentence)
  = trailing (Z.to_nat overlap) current_chunk ++ delimiter ++ sentence.

(** The loop has produced something: a chunk has been emitted, or the
    running chunk has content. *)
Definition productive (st : state) : Prop :=
  fst st <> [] \/ blank (snd st) = false.

(** What the loop has seen is not lost: a unit with content occurs,
    stripped, in an emitted chunk, or as it is in the running chunk. *)
Definition kept (st : state) (s : str) : Prop :=
  (exists c, In c (fst st) /\ occurs (strip s) c) \/ occurs s (snd st).

(** *** Text extractor *)

(** The directly extracted text is shorter than the threshold. *)
Definition sparse (pg : Extractor.page) : bool :=
  (len (strip (Extractor.get_text pg)) <? 20)%Z.

Definition listed {A} (r : reply (list A)) : bool :=
  match r with
  | Returns (_ :: _) => true
  | _ => false
  end.

(** The page has embedded images or vector drawings. *)
Definition has_content (pg : Extractor.page) : bool :=
  (listed (Extractor.get_images pg) || listed (Extractor.get_drawings pg))%bool.

(** OCR was attempted on page [no]: the page was rendered for it. *)
Definition ocr_attempted (no : Z) (calls : list Extractor.call) : Prop :=
  In (Extractor.GetPixmap no Extractor.ocr_dpi) calls.

(** Rendering or recognition fails on the page. *)
Definition ocr_fails (L : Extractor.libs) (pg : Extractor.page) : Prop :=
  (exists msg, Extractor.get_pixmap pg Extractor.ocr_dpi = Fails msg)
  \/ (exists pix msg,
         Extractor.get_pixmap pg Extractor.ocr_dpi = Returns pix
         /\ Extractor.image_to_string L pix Extractor.ocr_config = Fails msg).

(** What the extractor owes a page [pg] with result entry [p]. *)
Definition ocr_policy (L : Extractor.libs) (pg : Extractor.page)
           (p : Extractor.page_out) (attempted : Prop) : Prop :=
  (attempted -> sparse pg = true /\ has_content pg = true)
  /\ (forall pix ocr,
         attempted ->
         Extractor.get_pixmap pg Extractor.ocr_dpi = Returns pix ->
         Extractor.image_to_string L pix Extractor.ocr_config = Returns ocr ->
         Extractor.text p
         = strip (Extractor.get_text pg ++ Extractor.newline ++ ocr))
  /\ (ocr_fails L pg -> Extractor.text p = Extractor.get_text pg)
  /\ (~ attempted -> Extractor.text p = Extractor.get_text pg).

(** The page a call is about. *)
Definition page_of (c : Extractor.call) : option Z :=
  match c with
  | Extractor.GetImages n | Extractor.GetDrawings n
  | Extractor.GetPixmap n _ | Extractor.ImageToString n _ => Some n
  | Extractor.Print _ => None
  end.

(** *** Source fetcher *)

(** The object-storage branch of the fetch, once the locator has its two
    parts. *)
Definition fetch_object (E : Fetcher.env) (bucket key : str)
  : M Fetcher.world str :=
  (local <- Fetcher.mktemp E (Fetcher.path_suffix key) ;;
   Fetcher.log (Fetcher.Makedirs (Fetcher.dirname local)) ;;
   of_reply (Fetcher.os_makedirs E (Fetcher.dirname local)) ;;
   Fetcher.log (Fetcher.S3Download bucket key local) ;;
   of_reply (Fetcher.s3_download_file E bucket key local) ;;
   Fetcher.create local ;;
   ret local)%eff.




(** *** Chunk-and-store *)

(** The ordinal index of a staged chunk can be read off the record that
    is inserted for it. *)
Definition ordinal_in_record (document_id : Z) (rows : list Store.page_row)
  : Prop :=
  exists ordinal : Z * Z * str -> Z,
    forall r, In r (Ingest.stage document_id rows) ->
              ordinal (Ingest.record_of r) = Ingest.staged_idx r.

(** The columns of a stored chunk that the service wrote. *)
Definition written_columns (r : Store.chunk_row) : Z * Z * str :=
  (Store.ch_document_id r, Store.ch_page_no r, Store.ch_text r).

(** The record the service inserts for chunk [c] of a page. *)
Definition record_for (document_id : Z) (row : Store.page_row) (c : str)
  : Z * Z * str :=
  (document_id, Store.pg_page_no row, c).

(** A page whose text is the same long sentence three times. *)
Definition long_sentence : str := repeat 97%N 400.

Definition repetitive_page : Store.page_row :=
  {| Store.pg_id := 1; Store.pg_document_id := 1; Store.pg_page_no := 1;
     Store.pg_text :=
       long_sentence ++ delimiter ++ long_sentence ++ delimiter
       ++ long_sentence |}.

Definition repeated_chunk : str := repeat 97%N 30 ++ delimiter ++ long_sentence.

(** *** Retrieval *)

(** [term] occurs in [text], case-insensitively. *)
Definition ci_contains (term text : str) : bool :=
  contains (lower term) (lower text).

(** The LIKE metacharacters. *)
Definition meta (c : char) : bool :=
  (N.eqb c Store.percent || N.eqb c Store.underscore
   || N.eqb c Store.backslash)%bool.

(** No LIKE metacharacter. *)
Definition plain (term : str) : bool := forallb (fun c => negb (meta c)) term.

(** The successful "document not found" response. *)
Definition not_found_response (id : Z) : Answer.response :=
  {| Answer.answer := Answer.msg_not_found id; Answer.citations := [] |}.

(** The successful "nothing relevant found" response. *)
Definition no_match_response : Answer.response :=
  {| Answer.answer := Answer.msg_no_match; Answer.citations := [] |}.

(** The successful "no documents have been processed yet" response. *)
Definition no_documents_response : Answer.response :=
  {| Answer.answer := Answer.msg_no_documents; Answer.citations := [] |}.

(** A citation of a chunk: its document identifier, its page number and
    the constant score. *)
Definition cites (c : Answer.citation) (r : Store.chunk_row) : Prop :=
  Answer.cit_documentId c = Store.ch_document_id r
  /\ Answer.cit_page c = Store.ch_page_no r
  /\ Answer.cit_score c = 1%float.

(** The chunks behind the citations of a response: stored chunks, at
    most [top_k] of them, each with a search term in its text. *)
Definition cites_matching_chunks (w : Service.world) (inp : Answer.QaIn)
           (out : Answer.response) : Prop :=
  exists rows,
    Forall2 cites (Answer.citations out) rows
    /\ (Z.of_nat (length rows) <= Answer.top_k inp)%Z
    /\ Forall (fun r =>
                 In r (Store.chunks (Service.database w))
                 /\ exists term,
                      In term (Answer.query_words (Answer.query inp))
                      /\ ci_contains term (Store.ch_text r) = true)
              rows.

Definition returns_matching_chunks (E : Service.env) (w : Service.world)
           (inp : Answer.QaIn) : Prop :=
  Answer.query_words (Answer.query inp) <> [] ->
  forall out w', Answer.qa E inp w = (Ok out, w') ->
                 cites_matching_chunks w inp out.

(** An unknown document scope is answered by "document not found". *)
Definition unknown_scope_not_found (E : Service.env) (w : Service.world)
           (inp : Answer.QaIn) : Prop :=
  forall id,
    Answer.documentId inp = Some id ->
    (forall d, In d (Store.documents (Service.database w)) -> Store.doc_id d <> id) ->
    exists w', Answer.qa E inp w = (Ok (not_found_response id), w').

(** An empty chunk store is answered by "no documents". *)
Definition empty_store_no_documents (E : Service.env) (w : Service.world)
           (inp : Answer.QaIn) : Prop :=
  Store.chunks (Service.database w) = [] ->
  exists w', Answer.qa E inp w = (Ok no_documents_response, w').

(** The world after one more call. *)
Definition logged (w : Service.world) (c : Service.call) : Service.world :=
  {| Service.database := Service.database w;
     Service.pending := Service.pending w;
     Service.calls := Service.calls w ++ [c] |}.

(** *** Examples *)

(** The database answers and no language model is configured. *)
Definition plain_env : Service.env :=
  {| Service.psycopg2 := Some (Returns tt); Service.gemini_model := None |}.

Definition world_of (d : Store.db) : Service.world :=
  {| Service.database := d; Service.pending := []; Service.calls := [] |}.

Definition document_1 : Store.document_row :=
  {| Store.doc_id := 1; Store.doc_title := py "Document 1";
     Store.doc_file_url := py "minio://docs/handbook.pdf";
     Store.doc_status := py "processed" |}.

Definition abc_chunk : Store.chunk_row :=
  {| Store.ch_id := 1; Store.ch_document_id := 1; Store.ch_page_no := 1;
     Store.ch_text := py "abc" |}.

Definition refund_chunk : Store.chunk_row :=
  {| Store.ch_id := 2; Store.ch_document_id := 1; Store.ch_page_no := 4;
     Store.ch_text := py "Refund requests are handled within 5 days." |}.

Definition empty_db : Store.db :=
  {| Store.documents := []; Store.document_pages := []; Store.chunks := [] |}.

(** A document is registered, but none of its pages yielded a chunk. *)
Definition unchunked_db : Store.db :=
  {| Store.documents := [document_1]; Store.document_pages := [];
     Store.chunks := [] |}.

Definition abc_db : Store.db :=
  {| Store.documents := [document_1]; Store.document_pages := [];
     Store.chunks := [abc_chunk] |}.

Definition handbook_db : Store.db :=
  {| Store.documents := [document_1]; Store.document_pages := [];
     Store.chunks := [abc_chunk; refund_chunk] |}.

(** Document 1 with two extracted pages, not chunked yet. *)
Definition short_page : Store.page_row :=
  {| Store.pg_id := 2; Store.pg_document_id := 1; Store.pg_page_no := 2;
     Store.pg_text := py "Refund requests are handled within 5 days. " |}.

Definition pages_db : Store.db :=
  {| Store.documents := [document_1];
     Store.document_pages := [repetitive_page; short_page];
     Store.chunks := [abc_chunk] |}.

Definition ask (query : string) (documentId : option Z) : Answer.QaIn :=
  {| Answer.query := py query; Answer.documentId := documentId;
     Answer.top_k := Answer.default_top_k |}.

(** A scanned page: no text layer, one embedded image. *)
Definition scanned_page : Extractor.page :=
  {| Extractor.get_text := [];
     Extractor.get_images := Returns [7%N];
     Extractor.get_drawings := Returns [];
     Extractor.get_pixmap := fun _ => Returns [1%N; 2%N; 3%N] |}.

(** A page with a text layer. *)
Definition text_page : Extractor.page :=
  {| Extractor.get_text := py "Refund requests are handled within 5 days.";
     Extractor.get_images := Returns [];
     Extractor.get_drawings := Returns [];
     Extractor.get_pixmap := fun _ => Fails (py "not rendered") |}.

Definition two_page_doc : list Extractor.page := [text_page; scanned_page].

Definition ocr_libs : Extractor.libs :=
  {| Extractor.fitz_open := Some (fun _ => Returns two_page_doc);
     Extractor.ocr_imported := true;
     Extractor.image_to_string := fun _ _ => Returns (py "INVOICE 42 ") |}.

(** An object store that delivers, and a temporary directory where the
    first candidate name is taken. *)
Definition fetch_env : Fetcher.env :=
  {| Fetcher.s3_download_file := fun _ _ _ => Returns tt;
     Fetcher.requests_get := fun _ => Fails (py "unreachable");
     Fetcher.os_makedirs := fun _ => Returns tt;
     Fetcher.gettempdir := py "/tmp";
     Fetcher.candidate_names := [py "a1b2c3d4"; py "e5f6g7h8"] |}.

Definition fetch_world : Fetcher.world :=
  {| Fetcher.files := [py "/tmp/tmpa1b2c3d4.pdf"]; Fetcher.calls := [] |}.


(** *** Vocabulary of the further properties *)

(** The entries of pages whose text layer is returned as it is, the
    first page having index [i]. *)
Fixpoint text_entries (i : Z) (doc : list Extractor.page)
  : list Extractor.page_out :=
  match doc with
  | [] => []
  | pg :: rest =>
      {| Extractor.page_no := i + 1; Extractor.text := Extractor.get_text pg |}
      :: text_entries (i + 1) rest
  end.

(** No OCR is due on the page: the libraries are missing, or the text
    layer is long enough. *)
Definition ocr_not_due (L : Extractor.libs) (pg : Extractor.page) : bool :=
  negb (sparse pg && Extractor.ocr_imported L).

(** An HTTP server that answers every request with a page. *)
Definition web_env : Fetcher.env :=
  {| Fetcher.s3_download_file := fun _ _ _ => Fails (py "no object store");
     Fetcher.requests_get := fun _ => Returns (200%Z, [37%N; 80%N; 68%N; 70%N]);
     Fetcher.os_makedirs := fun _ => Returns tt;
     Fetcher.gettempdir := py "/tmp";
     Fetcher.candidate_names := [py "a1b2c3d4"; py "e5f6g7h8"] |}.

(** A computation that does nothing to the world but log calls. *)
Definition only_logs {A} (m : M Service.world A) : Prop :=
  forall w, exists evs,
    snd (m w) = {| Service.database := Service.database w;
                   Service.pending := Service.pending w;
                   Service.calls := Service.calls w ++ evs |}.

(** A computation that raises, if it does, only exceptions in [P]. *)
Definition raises_only {W A} (P : exn -> Prop) (m : M W A) : Prop :=
  forall w e, fst (m w) = Raise e -> P e.

(** The exceptions that leave the [try] block of [qa]. *)
Definition qa_try_exn (e : exn) : Prop :=
  e = HTTPException 422 Answer.msg_empty_query
  \/ e = HTTPException 500 (py "Database connection not available")
  \/ exists msg, e = Error msg.

(** The successful "ask something more specific" response. *)
Definition more_specific_response : Answer.response :=
  {| Answer.answer := Answer.msg_more_specific; Answer.citations := [] |}.

(** Text in Basic Latin and Latin-1: the code points on which [lower]
    is the case mapping of [str.lower()] and of ILIKE. *)
Definition latin1 (s : str) : bool := forallb (fun c => (c <? 256)%N) s.

(** The chunk is within the scope and one of the terms occurs in its
    text, case-insensitively. *)
Definition matching (scope : option Z) (terms : list str)
           (r : Store.chunk_row) : bool :=
  (Store.in_scope scope r
   && existsb (fun term => ci_contains term (Store.ch_text r)) terms)%bool.

(** The scope, if there is one, names a stored document. *)
Definition scope_known (d : Store.db) (scope : option Z) : Prop :=
  match scope with
  | Some id => Store.select_document d id <> None
  | None => True
  end.

(** The world when the search statement is about to be executed. *)
Definition before_search (w : Service.world) (scope : option Z)
  : Service.world :=
  let counted := logged (logged w Service.Connect)
                   (Service.Execute Store.CountChunks) in
  match scope with
  | Some id => logged counted (Service.Execute (Store.SelectDocument id))
  | None => counted
  end.

(** The context handed to the language model: one paragraph per row. *)
Definition context_of (rows : list Store.chunk_row) : str :=
  join [10%N; 10%N] (map Answer.context_part rows).

(** The prompt sent to the language model. *)
Definition prompt_of (query : str) (rows : list Store.chunk_row) : str :=
  Answer.prompt_head ++ query ++ Answer.prompt_middle ++ context_of rows
  ++ Answer.prompt_tail.

(** The answer text and the calls made for it, by what the language
    model does. *)
Definition answer_of (E : Service.env) (query : str)
           (rows : list Store.chunk_row) : str * list Service.call :=
  let asked := Service.GenerateAnswer query (context_of rows) in
  match Service.gemini_model E with
  | None =>
      (py "AI service not available. Please check configuration.", [asked])
  | Some generate_content =>
      (match generate_content (prompt_of query rows) with
       | Returns text => text
       | Fails msg =>
           py "I apologize, but I encountered an error while processing your question: "
           ++ msg ++ py ". Please try again."
       end,
       [asked; Service.GenerateContent (prompt_of query rows)])
  end.

(** The database answers, the language model is configured and fails
    on every prompt. *)
Definition failing_model_env : Service.env :=
  {| Service.psycopg2 := Some (Returns tt);
     Service.gemini_model := Some (fun _ => Fails (py "quota exceeded")) |}.

(** *** The extract endpoint *)

(** The columns the endpoint writes for a page. *)
Definition page_columns (r : Store.page_row) : Z * Z * str :=
  (Store.pg_document_id r, Store.pg_page_no r, Store.pg_text r).

(** What the driver and the server accept of a request and its pages:
    an identifier and page numbers within [INTEGER], and no NUL
    character in the locator and the texts. *)
Definition storable (inp : Pipeline.ExtractIn)
           (ps : list Extractor.page_out) : bool :=
  (Pipeline.integer (Pipeline.documentId inp)
   && negb (Pipeline.has_nul (Pipeline.fileUrl inp))
   && forallb (fun p => (negb (Pipeline.has_nul (Extractor.text p))
                         && Pipeline.integer (Extractor.page_no p))%bool)
              ps)%bool.

(** The records chunk-and-store makes of page rows. *)
Definition chunk_records (document_id : Z) (rows : list Store.page_row)
  : list (Z * Z * str) :=
  map Ingest.record_of (Ingest.stage document_id rows).

(** The result of the extractor does not depend on the calls logged
    before. *)
Definition oblivious {A} (m : M (list Extractor.call) A) : Prop :=
  forall l1 l2, fst (m l1) = fst (m l2).

(** The world with another disk. *)
Definition with_disk (w : Pipeline.world) (d : Fetcher.world)
  : Pipeline.world :=
  {| Pipeline.disk := d; Pipeline.pdf_calls := Pipeline.pdf_calls w;
     Pipeline.store := Pipeline.store w; Pipeline.calls := Pipeline.calls w |}.

(** The world with another extractor log. *)
Definition with_pdf_calls (w : Pipeline.world) (l : list Extractor.call)
  : Pipeline.world :=
  {| Pipeline.disk := Pipeline.disk w; Pipeline.pdf_calls := l;
     Pipeline.store := Pipeline.store w; Pipeline.calls := Pipeline.calls w |}.

(** The world with another store. *)
Definition with_store (w : Pipeline.world) (s : Service.world)
  : Pipeline.world :=
  {| Pipeline.disk := Pipeline.disk w;
     Pipeline.pdf_calls := Pipeline.pdf_calls w;
     Pipeline.store := s; Pipeline.calls := Pipeline.calls w |}.

(** The pages of the fetched file: those of the PDF, or the one of the
    image. *)
Definition read_pages (E : Pipeline.env) (local : str)
  : M Pipeline.world (list Extractor.page_out) :=
  try_except
    (Pipeline.on_pdf (Extractor.extract_text_from_pdf (Pipeline.libs E) local))
    (Pipeline.image_fallback E local).

(** The tables when the document row and the page rows are committed. *)
Definition pages_stored (inp : Pipeline.ExtractIn)
           (ps : list Extractor.page_out) (d : Store.db) : Store.db :=
  {| Store.documents :=
       Pipeline.upsert (Pipeline.document_row_of inp) (Store.documents d);
     Store.document_pages :=
       Pipeline.append_pages (Store.document_pages d)
         (Pipeline.page_records (Pipeline.documentId inp) ps);
     Store.chunks := Store.chunks d |}.

(** The calls of the database part when it succeeds. *)
Definition storing_calls (inp : Pipeline.ExtractIn)
           (ps : list Extractor.page_out) : list Pipeline.call :=
  Pipeline.UpsertDocument (Pipeline.document_row_of inp)
  :: match ps with
     | [] => []
     | _ :: _ =>
         [Pipeline.InsertPages
            (Pipeline.page_records (Pipeline.documentId inp) ps)]
     end
  ++ [Pipeline.CommitPages].

(** The world after the database part succeeded on the pages [ps]. *)
Definition stored (E : Pipeline.env) (inp : Pipeline.ExtractIn)
           (ps : list Extractor.page_out) (w : Pipeline.world)
  : Pipeline.world :=
  {| Pipeline.disk := Pipeline.disk w;
     Pipeline.pdf_calls := Pipeline.pdf_calls w;
     Pipeline.store :=
       snd (Ingest.embed_document (Pipeline.service E)
              (Pipeline.documentId inp)
              {| Service.database :=
                   pages_stored inp ps
                     (Service.database (Pipeline.store w));
                 Service.pending := Service.pending (Pipeline.store w);
                 Service.calls :=
                   Service.calls (Pipeline.store w) ++ [Service.Connect] |});
     Pipeline.calls := Pipeline.calls w ++ storing_calls inp ps |}.

(** The response of a successful extraction of [ps]. *)
Definition extracted_pages (inp : Pipeline.ExtractIn)
           (ps : list Extractor.page_out) : Pipeline.extracted :=
  {| Pipeline.ok := true;
     Pipeline.pages := Z.of_nat (length ps);
     Pipeline.out_documentId := Pipeline.documentId inp |}.

(** The chunk records of the pages of one upload: for every page in
    turn, one record per chunk of its text. *)
Definition upload_records (document_id : Z) (ps : list Extractor.page_out)
  : list (Z * Z * str) :=
  flat_map
    (fun p =>
       map (fun c => (document_id, Extractor.page_no p, c))
           (chunk_text (Extractor.text p)
                       Ingest.embed_chunk_size Ingest.embed_overlap))
    ps.

(** The components answer: the object store delivers, the PDF opens
    with a text page and a scanned page, OCR recognises text, the
    database is reachable; the file is no image. *)
Definition pipeline_env : Pipeline.env :=
  {| Pipeline.fetcher := fetch_env;
     Pipeline.libs := ocr_libs;
     Pipeline.service := plain_env;
     Pipeline.image_open := fun _ => Fails (py "cannot identify image file") |}.

(** No PDF library and no OCR library. *)
Definition bare_libs : Extractor.libs :=
  {| Extractor.fitz_open := None;
     Extractor.ocr_imported := false;
     Extractor.image_to_string := fun _ _ => Fails (py "tesseract is not installed") |}.

(** No PDF library; the file opens as an image and OCR recognises
    text. *)
Definition image_env : Pipeline.env :=
  {| Pipeline.fetcher := fetch_env;
     Pipeline.libs :=
       {| Extractor.fitz_open := None;
          Extractor.ocr_imported := true;
          Extractor.image_to_string := fun _ _ => Returns (py "INVOICE 42 ") |};
     Pipeline.service := plain_env;
     Pipeline.image_open := fun _ => Returns [1%N; 2%N; 3%N] |}.

Definition pipeline_world (d : Store.db) : Pipeline.world :=
  {| Pipeline.disk := {| Fetcher.files := [py "/data/handbook.pdf"];
                         Fetcher.calls := [] |};
     Pipeline.pdf_calls := [];
     Pipeline.store := world_of d;
     Pipeline.calls := [] |}.

Definition upload : Pipeline.ExtractIn :=
  {| Pipeline.documentId := 1;
     Pipeline.fileUrl := py "file:///data/handbook.pdf" |}.

(** An identifier beyond the range of [INTEGER]. *)
Definition oversized_upload : Pipeline.ExtractIn :=
  {| Pipeline.documentId := 2147483648;
     Pipeline.fileUrl := py "file:///data/handbook.pdf" |}.

(** The pages the extractor returns for [two_page_doc] with
    [ocr_libs]. *)
Definition handbook_pages : list Extractor.page_out :=
  [{| Extractor.page_no := 1;
      Extractor.text := py "Refund requests are handled within 5 days." |};
   {| Extractor.page_no := 2; Extractor.text := py "INVOICE 42" |}].

Definition missing_upload : Pipeline.ExtractIn :=
  {| Pipeline.documentId := 1;
     Pipeline.fileUrl := py "file:///data/missing.pdf" |}.

(** *** Proof steps *)

(** Every logged call of a page run is about that page. *)
Ltac own_page :=
  let c := fresh "c" in
  let n := fresh "n" in
  let Hin := fresh "Hin" in
  let Hp := fresh "Hp" in
  intros c n Hin Hp; cbn in Hin;
  repeat (destruct Hin as [<- | Hin]; [now inversion Hp |]);
  destruct Hin.

(** The page was not rendered in the calls at hand. *)
Ltac not_rendered :=
  let H := fresh "H" in
  unfold ocr_attempted; intros H; cbn in H;
  repeat (destruct H as [H | H]; [discriminate H |]);
  destruct H.

Ltac rendered := unfold ocr_attempted; cbn; tauto.

Ltac page_run :=
  eexists _, _; split; [rewrite <- ?app_assoc; reflexivity |];
  split; [own_page |].

(** Run [respond] by the lemma [total] that it always answers. *)
Ltac responded total :=
  match goal with
  | |- context [Answer.respond ?E ?q ?rows ?w0] =>
      let a := fresh "a" in
      let w1 := fresh "w1" in
      let Hr := fresh "Hr" in
      destruct (total E q rows w0) as (a & w1 & Hr); rewrite Hr
  end.

(* ===================================================================== *)
(** * Properties *)
(* ===================================================================== *)

Unset Implicit Arguments.

(** ** Python strings *)

Section PyFacts.

Lemma truthy_true_iff (s : str) : truthy s = true <-> s <> [].
Proof. destruct s; simpl; split; congruence. Qed.

Lemma truthy_false_iff (s : str) : truthy s = false <-> s = [].
Proof. destruct s; simpl; split; congruence. Qed.

Lemma len_zero_iff (s : str) : (len s =? 0)%Z = true <-> s = [].
Proof.
  unfold len. rewrite Z.eqb_eq. destruct s; simpl; split; try congruence; lia.
Qed.

Lemma blank_app (a b : str) : blank (a ++ b) = (blank a && blank b)%bool.
Proof. apply forallb_app. Qed.

Lemma blank_rev (s : str) : blank (rev s) = blank s.
Proof.
  induction s as [|c s IH]; simpl; auto.
  rewrite blank_app, IH. simpl. rewrite andb_true_r. apply andb_comm.
Qed.

Lemma blank_lstrip (s : str) : blank (lstrip s) = blank s.
Proof.
  induction s as [|c s IH]; simpl; auto.
  destruct (isspace c) eqn:Hc; simpl; [exact IH | now rewrite Hc].
Qed.

Lemma lstrip_nil_iff (s : str) : lstrip s = [] <-> blank s = true.
Proof.
  induction s as [|c s IH]; simpl.
  - tauto.
  - destruct (isspace c); simpl; [exact IH | split; discriminate].
Qed.

Lemma rev_nil_iff {A} (l : list A) : rev l = [] <-> l = [].
Proof.
  split; intros H; [| now subst].
  apply (f_equal (@rev A)) in H. now rewrite rev_involutive in H.
Qed.

(** [strip] leaves nothing exactly on blank strings. *)
Lemma strip_nil_iff (s : str) : strip s = [] <-> blank s = true.
Proof.
  unfold strip, rstrip.
  split; intros H.
  - apply rev_nil_iff, lstrip_nil_iff in H.
    now rewrite blank_rev, blank_lstrip in H.
  - apply rev_nil_iff, lstrip_nil_iff.
    now rewrite blank_rev, blank_lstrip.
Qed.

Lemma strip_not_nil_iff (s : str) : strip s <> [] <-> blank s = false.
Proof.
  rewrite strip_nil_iff. destruct (blank s); split; congruence.
Qed.

Lemma blank_false_char (s : str) :
  blank s = false <-> exists c, In c s /\ isspace c = false.
Proof.
  unfold blank. induction s as [|c s IH]; simpl.
  - split; [discriminate | intros (c & [] & _)].
  - destruct (isspace c) eqn:Hc; simpl.
    + rewrite IH. split.
      * intros (d & Hd & Hs). eauto.
      * intros (d & [<- | Hd] & Hs); [congruence | eauto].
    + split; [eauto | reflexivity].
Qed.

(** A string whose first and last characters are not whitespace is
    left alone by [strip]. *)
Lemma lstrip_head (c : char) (s : str) :
  isspace c = false -> lstrip (c :: s) = c :: s.
Proof. intros H. simpl. now rewrite H. Qed.

Lemma startswith_app (p r : str) : startswith p (p ++ r) = true.
Proof.
  induction p as [|a p IH]; simpl; auto.
  now rewrite N.eqb_refl.
Qed.

Lemma startswith_iff (p s : str) :
  startswith p s = true <-> exists r, s = p ++ r.
Proof.
  split.
  - revert s. induction p as [|a p IH]; intros s H; simpl in *.
    + now exists s.
    + destruct s as [|b s]; [discriminate |].
      apply andb_true_iff in H as [Hab Hps].
      apply N.eqb_eq in Hab as ->.
      destruct (IH _ Hps) as (r & ->). now exists r.
  - intros (r & ->). apply startswith_app.
Qed.

Lemma find_unfold (sub s : str) :
  find sub s =
  if startswith sub s then Some O
  else match s with
       | [] => None
       | _ :: s' => option_map S (find sub s')
       end.
Proof. destruct s; reflexivity. Qed.

(** [find] returns the position of an occurrence... *)
Lemma find_position (sub s : str) (i : nat) :
  find sub s = Some i ->
  s = firstn i s ++ sub ++ skipn (i + length sub) s.
Proof.
  revert i. induction s as [|c s IH]; intros i; rewrite find_unfold.
  - destruct (startswith sub []) eqn:Hp; [| discriminate].
    intros [= <-]. apply startswith_iff in Hp as (r & Hr).
    simpl. destruct sub; [reflexivity | discriminate].
  - destruct (startswith sub (c :: s)) eqn:Hp.
    + intros [= <-]. apply startswith_iff in Hp as (r & Hr).
      simpl firstn. simpl "++" at 1. rewrite Hr at 1.
      f_equal. rewrite Hr. simpl Nat.add.
      now rewrite skipn_app, skipn_all, Nat.sub_diag.
    + destruct (find sub s) as [j|] eqn:Hf; simpl; [| discriminate].
      intros [= <-]. simpl. f_equal. now apply IH.
Qed.

(** ... and [None] only when there is none. *)
Lemma find_absent (sub s : str) : find sub s = None -> ~ occurs sub s.
Proof.
  induction s as [|c s IH]; rewrite find_unfold.
  - destruct (startswith sub []) eqn:Hp; [discriminate |].
    intros _ (a & b & H).
    destruct a; [| discriminate]. destruct sub; [discriminate Hp | discriminate H].
  - destruct (startswith sub (c :: s)) eqn:Hp; [discriminate |].
    destruct (find sub s) eqn:Hf; [discriminate |].
    intros _ (a & b & H). destruct a as [|x a].
    + simpl in H. rewrite H, startswith_app in Hp. discriminate.
    + injection H as _ H. apply IH; [reflexivity |]. now exists a, b.
Qed.

Lemma find_occurs (sub s : str) (i : nat) :
  find sub s = Some i -> occurs sub s.
Proof. intros H. apply find_position in H. eexists _, _. exact H. Qed.

(** [contains] decides occurrence. *)
Lemma contains_iff (sub s : str) : contains sub s = true <-> occurs sub s.
Proof.
  unfold contains. destruct (find sub s) eqn:Hf.
  - split; [intros _; eapply find_occurs; eauto | reflexivity].
  - split; [discriminate | intros H; now apply find_absent in Hf].
Qed.

(** Every character of a piece comes from the string that was split. *)
Lemma split_scan_chars (sep : str) (s : str) :
  forall skip piece c,
    In piece (split_scan sep skip s) -> In c piece -> In c s.
Proof.
  induction s as [|x s IH]; intros skip piece c Hp Hc; simpl in Hp.
  - destruct Hp as [<- | []]. destruct Hc.
  - destruct skip as [|k].
    + destruct (startswith sep (x :: s)).
      * destruct Hp as [<- | Hp]; [destruct Hc |]. right. eapply IH; eauto.
      * destruct (split_scan sep 0 s) as [|p rest] eqn:Hs.
        -- destruct Hp as [<- | []]. destruct Hc as [<- | []]. now left.
        -- destruct Hp as [<- | Hp].
           ++ destruct Hc as [<- | Hc]; [now left | right].
              apply (IH O p c); [rewrite Hs; now left | exact Hc].
           ++ right. apply (IH O piece c); [rewrite Hs; now right | exact Hc].
    + right. eapply IH; eauto.
Qed.

(** Without separator there is a single piece, the string itself. *)
Lemma split_without_separator (sep s : str) :
  find sep s = None -> split sep s = [s].
Proof.
  unfold split. induction s as [|c s IH]; rewrite find_unfold.
  - reflexivity.
  - destruct (startswith sep (c :: s)) eqn:Hp; [discriminate |].
    destruct (find sep s) eqn:Hf; [discriminate |]. intros _.
    destruct sep as [|a sep]; [discriminate |].
    simpl. simpl in Hp. rewrite Hp. now rewrite IH.
Qed.

End PyFacts.

(** ** Chunker *)

Section ChunkerFacts.

Variables chunk_size overlap : Z.

Lemma step_keeps_productive (st : state) (sentence : str) :
  productive st -> productive (step chunk_size overlap st sentence).
Proof.
  destruct st as [chunks cur]. unfold productive, step. cbn [fst snd].
  intros H. destruct (closes chunk_size cur sentence); cbn [fst snd].
  - left. now destruct chunks.
  - destruct H as [H | H]; [now left | right].
    destruct cur as [|c cur]; [discriminate H |].
    cbn [truthy]. rewrite blank_app, H. reflexivity.
Qed.

Lemma step_on_content (st : state) (sentence : str) :
  blank sentence = false ->
  productive (step chunk_size overlap st sentence).
Proof.
  destruct st as [chunks cur]. unfold productive, step. intros H.
  destruct (closes chunk_size cur sentence); cbn [fst snd].
  - left. now destruct chunks.
  - right. destruct (truthy cur); [| exact H].
    rewrite !blank_app, H. now rewrite !andb_false_r.
Qed.

Lemma fold_keeps_productive (l : list str) (st : state) :
  productive st -> productive (fold_left (step chunk_size overlap) l st).
Proof.
  revert st. induction l as [|x l IH]; intros st H; simpl; auto.
  apply IH, step_keeps_productive, H.
Qed.

Lemma fold_on_content (l : list str) (st : state) :
  existsb (fun s => negb (blank s)) l = true ->
  productive (fold_left (step chunk_size overlap) l st).
Proof.
  revert st. induction l as [|x l IH]; intros st H; simpl in *.
  - discriminate.
  - destruct (blank x) eqn:Hx; simpl in H.
    + now apply IH.
    + apply fold_keeps_productive, step_on_content, Hx.
Qed.

(** A text with a non-blank unit is not blank itself. *)
Lemma content_unit_content_text (text : str) :
  existsb (fun s => negb (blank s)) (sentences text) = true ->
  blank text = false.
Proof.
  intros H. apply existsb_exists in H as (s & Hs & Hb).
  apply negb_true_iff, blank_false_char in Hb as (c & Hc & Hsp).
  apply blank_false_char. exists c. split; [| exact Hsp].
  eapply split_scan_chars; eauto.
Qed.

Lemma chunk_text_guard (text : str) :
  (negb (truthy text) || (len (strip text) =? 0)%Z)%bool = blank text.
Proof.
  destruct (blank text) eqn:Hb.
  - apply orb_true_iff. right. apply len_zero_iff, strip_nil_iff, Hb.
  - apply orb_false_iff. split.
    + destruct text; [discriminate Hb | reflexivity].
    + apply not_true_is_false. rewrite len_zero_iff, strip_nil_iff. congruence.
Qed.

Lemma chunk_text_blank (text : str) :
  blank text = true -> chunk_text text chunk_size overlap = [].
Proof. intros H. unfold chunk_text. now rewrite chunk_text_guard, H. Qed.

Lemma chunk_text_content (text : str) :
  blank text = false ->
  chunk_text text chunk_size overlap =
  let '(chunks, current_chunk) :=
    run_loop chunk_size overlap (sentences text) in
  if truthy (strip current_chunk)
  then chunks ++ [strip current_chunk] else chunks.
Proof. intros H. unfold chunk_text. now rewrite chunk_text_guard, H. Qed.

End ChunkerFacts.

(** C1, as stated, fails on a text made of a delimiter only: [". "] is
    not blank, yet no chunk comes out. *)
Lemma delimiter_only_text_has_no_chunk :
  ~ at_least_one_chunk (py ". ") default_chunk_size default_overlap.
Proof.
  intros [H _]. apply H; [discriminate | reflexivity].
Qed.

(** C1 (amended).  A text with at least one sentence-like unit that is
    not blank yields at least one chunk, and an empty or whitespace-only
    text yields none, for every chunk size and overlap. *)
Theorem chunk_text_at_least_one (text : str) (chunk_size overlap : Z) :
  (existsb (fun s => negb (blank s)) (sentences text) = true ->
   chunk_text text chunk_size overlap <> [])
  /\ (blank text = true -> chunk_text text chunk_size overlap = []).
Proof.
  split; [| apply chunk_text_blank].
  intros H. rewrite chunk_text_content by now apply content_unit_content_text.
  pose proof (fold_on_content chunk_size overlap (sentences text) ([], []) H) as P.
  unfold run_loop. unfold sentences in *.
  destruct (fold_left _ _ _) as [chunks cur]. unfold productive in P. simpl in P.
  destruct (truthy (strip cur)) eqn:Ht.
  - now destruct chunks.
  - destruct P as [P | P]; [exact P |].
    apply truthy_false_iff, strip_nil_iff in Ht. congruence.
Qed.

Lemma chunk_text_at_least_one_witness :
  chunk_text (py "Refunds take 5 days. Contact support.") 20 5 <> []
  /\ chunk_text (py "   ") 20 5 = [].
Proof.
  split.
  - apply (proj1 (chunk_text_at_least_one
                    (py "Refunds take 5 days. Contact support.") 20 5)).
    reflexivity.
  - apply (proj2 (chunk_text_at_least_one (py "   ") 20 5)).
    reflexivity.
Defined.

(** C2.  The loop emits the stripped running chunk without checking
    that anything is left of it: a whitespace-only first unit becomes an
    empty chunk, also with the sizes the ingestion uses. *)
Theorem chunk_text_emits_empty_chunk :
  chunk_text (py " . abc") 2 50 = [[]; py ". abc"]
  /\ ~ no_empty_chunk (py " . abc") 2 50
  /\ ~ no_empty_chunk (py " . " ++ repeat 97%N 300)
         Ingest.embed_chunk_size Ingest.embed_overlap.
Proof.
  split; [reflexivity |].
  split; intros H; apply H; vm_compute; now left.
Qed.

(** The overlap policy holds at every split when [overlap] is positive:
    the seed is the trailing [overlap] characters of the running chunk,
    all of it when it is no longer than [overlap]. *)
Lemma overlap_text_positive (overlap : Z) (current_chunk : str) :
  (0 < overlap)%Z ->
  overlap_text overlap current_chunk
  = trailing (Z.to_nat overlap) current_chunk
  /\ ((len current_chunk <= overlap)%Z ->
      overlap_text overlap current_chunk = current_chunk).
Proof.
  intros Hpos. unfold overlap_text, trailing, slice_from, len.
  destruct (Z.gtb_spec (Z.of_nat (length current_chunk)) overlap) as [Hgt | Hle].
  - split; [| lia].
    destruct (Z.ltb_spec (- overlap) 0); [| lia].
    f_equal. lia.
  - split; [| reflexivity].
    replace (length current_chunk - Z.to_nat overlap)%nat with O by lia.
    reflexivity.
Qed.

Lemma seeded_with_positive_overlap (chunk_size overlap : Z)
      (chunks : list str) (current_chunk sentence : str) :
  (0 < overlap)%Z ->
  seeded_with_overlap chunk_size overlap chunks current_chunk sentence.
Proof.
  intros Hpos Hc. unfold step. rewrite Hc. cbn [snd].
  now rewrite (proj1 (overlap_text_positive overlap current_chunk Hpos)).
Qed.

(** C3.  With [overlap = 0] the slice [current_chunk[-0:]] is the whole
    running chunk, so the new chunk is seeded with all of the closed
    chunk instead of none of it. *)
Theorem overlap_zero_seeds_whole_chunk :
  overlap_text 0 (py "aaaa") = py "aaaa"
  /\ step 5 0 ([], py "aaaa") (py "bbbb") = ([py "aaaa"], py "aaaa. bbbb")
  /\ chunk_text (py "aaaa. bbbb") 5 0 = [py "aaaa"; py "aaaa. bbbb"]
  /\ ~ seeded_with_overlap 5 0 [] (py "aaaa") (py "bbbb").
Proof.
  repeat split; try reflexivity.
  intros H. specialize (H eq_refl). discriminate H.
Qed.

Section SingleSentence.

Lemma rstrip_snoc (s : str) (c : char) :
  isspace c = false -> rstrip (s ++ [c]) = s ++ [c].
Proof.
  intros H. unfold rstrip. rewrite rev_app_distr. simpl rev at 2.
  cbn [app]. rewrite lstrip_head by exact H.
  simpl. now rewrite rev_involutive.
Qed.

Lemma strip_repeat (c : char) (n : nat) :
  isspace c = false -> strip (repeat c (S n)) = repeat c (S n).
Proof.
  intros H. unfold strip. cbn [repeat]. rewrite lstrip_head by exact H.
  rewrite repeat_cons. now apply rstrip_snoc.
Qed.

Lemma repeat_without (sub : str) (c d : char) (n : nat) :
  In d sub -> d <> c -> contains sub (repeat c n) = false.
Proof.
  intros Hd Hdc. apply not_true_is_false. rewrite contains_iff.
  intros (a & b & H).
  assert (Hin : In d (repeat c n)).
  { rewrite H. apply in_or_app. right. apply in_or_app. now left. }
  apply repeat_spec in Hin. contradiction.
Qed.

Lemma single_piece (text : str) (chunk_size overlap : Z) :
  contains delimiter text = false ->
  blank text = false ->
  chunk_text text chunk_size overlap = [strip text].
Proof.
  intros Hd Hb. rewrite chunk_text_content by exact Hb.
  unfold sentences, contains in *.
  destruct (find delimiter text) eqn:Hf; [discriminate |].
  rewrite (split_without_separator _ _ Hf).
  unfold run_loop. cbn [fold_left step].
  unfold closes. cbn [truthy]. rewrite andb_false_r.
  apply strip_not_nil_iff, truthy_true_iff in Hb. now rewrite Hb.
Qed.

End SingleSentence.

(** C9.  A single sentence, that is a text with content and without
    the delimiter [". "], yields exactly one chunk, its stripped self,
    whatever the chunk size and overlap: the chunker never splits
    inside a unit.  Hence for every chunk size some input yields a
    chunk longer than it, and no bound on the chunk length holds. *)
Theorem single_sentence_one_chunk :
  (forall (text : str) (chunk_size overlap : Z),
      contains delimiter text = false ->
      blank text = false ->
      chunk_text text chunk_size overlap = [strip text])
  /\ (forall chunk_size overlap : Z,
         exists text c,
           chunk_text text chunk_size overlap = [c]
           /\ (len c > chunk_size)%Z).
Proof.
  split; [exact single_piece |].
  intros chunk_size overlap.
  set (n := Z.to_nat chunk_size).
  exists (repeat 97%N (S n)), (repeat 97%N (S n)). split.
  - rewrite single_piece.
    + now rewrite strip_repeat.
    + apply repeat_without with (d := 46%N); [now left | discriminate].
    + reflexivity.
  - unfold len. rewrite repeat_length. lia.
Qed.

Lemma single_sentence_one_chunk_witness :
  chunk_text (py "  one unbroken sentence without the delimiter ") 10 3
  = [py "one unbroken sentence without the delimiter"].
Proof.
  exact (proj1 single_sentence_one_chunk
           (py "  one unbroken sentence without the delimiter ") 10%Z 3%Z
           eq_refl eq_refl).
Defined.

(** ** Text extractor *)

Section ExtractorFacts.

Import Extractor.

Variable L : libs.

Lemma policy_not_attempted (pg : page) (no : Z) (attempted : Prop) :
  ~ attempted ->
  ocr_policy L pg {| page_no := no; text := get_text pg |} attempted.
Proof. unfold ocr_policy. cbn [text]. tauto. Qed.

Lemma policy_recognised (pg : page) (no : Z) (attempted : Prop)
      (pix : pixmap) (ocr : str) :
  sparse pg = true -> has_content pg = true ->
  get_pixmap pg ocr_dpi = Returns pix ->
  image_to_string L pix ocr_config = Returns ocr ->
  attempted ->
  ocr_policy L pg
    {| page_no := no; text := strip (get_text pg ++ newline ++ ocr) |}
    attempted.
Proof.
  intros Hs Hc Hpix Hocr Ha. unfold ocr_policy, ocr_fails. cbn [text].
  repeat apply conj.
  - auto.
  - intros pix' ocr' _ Hpix' Hocr'. congruence.
  - intros [(m & Hm) | (pix' & m & Hpix' & Hm)]; congruence.
  - intros Hn. contradiction.
Qed.

Lemma policy_failed (pg : page) (no : Z) (attempted : Prop) :
  sparse pg = true -> has_content pg = true ->
  ocr_fails L pg ->
  ocr_policy L pg {| page_no := no; text := get_text pg |} attempted.
Proof.
  intros Hs Hc Hf. unfold ocr_policy. cbn [text].
  repeat apply conj; auto.
  intros pix ocr _ Hpix Hocr.
  destruct Hf as [(m & Hm) | (pix' & m & Hpix' & Hm)]; congruence.
Qed.

(** What one iteration does: it always delivers an entry, logs calls
    about its own page only, and keeps to the OCR policy. *)
Lemma process_page_policy (i : Z) (pg : page) (calls0 : list call) :
  exists t evs,
    process_page L i pg calls0
    = (Ok {| page_no := i + 1; text := t |}, calls0 ++ evs)
    /\ (forall c n, In c evs -> page_of c = Some n -> n = (i + 1)%Z)
    /\ ocr_policy L pg {| page_no := i + 1; text := t |}
         (ocr_attempted (i + 1) evs).
Proof.
  unfold process_page.
  destruct (len (strip (get_text pg)) <? min_text_len)%Z eqn:Hsparse;
    destruct (ocr_imported L) eqn:Hlibs; cbn [andb].
  2-4: exists (get_text pg), []; rewrite app_nil_r; unfold bind, ret;
    (split; [reflexivity |]); (split; [own_page |]);
    apply policy_not_attempted; not_rendered.
  assert (Hsp : sparse pg = true) by exact Hsparse.
  unfold ocr_fallback, try_except, bind, log, modify, of_reply, ret, raise.
  destruct (get_images pg) as [[|x imgs]|m] eqn:Himg; cbn [nonempty].
  - destruct (get_drawings pg) as [[|y drs]|m] eqn:Hdr; cbn [nonempty].
    + page_run. apply policy_not_attempted. not_rendered.
    + assert (Hc : has_content pg = true)
        by (unfold has_content; rewrite Hdr; apply orb_true_r).
      destruct (get_pixmap pg ocr_dpi) as [pix|m] eqn:Hpix.
      * destruct (image_to_string L pix ocr_config) as [ocr|m] eqn:Hocr;
          page_run.
        -- eapply policy_recognised; eauto. rendered.
        -- apply policy_failed; auto. right. eauto.
      * page_run. apply policy_failed; auto. left. eauto.
    + page_run. apply policy_not_attempted. not_rendered.
  - assert (Hc : has_content pg = true)
      by (unfold has_content; rewrite Himg; reflexivity).
    destruct (get_pixmap pg ocr_dpi) as [pix|m'] eqn:Hpix.
    + destruct (image_to_string L pix ocr_config) as [ocr|m'] eqn:Hocr;
        page_run.
      * eapply policy_recognised; eauto. rendered.
      * apply policy_failed; auto. right. eauto.
    + page_run. apply policy_failed; auto. left. eauto.
  - page_run. apply policy_not_attempted. not_rendered.
Qed.

Lemma ocr_policy_iff (pg : page) (p : page_out) (A B : Prop) :
  (A <-> B) -> ocr_policy L pg p A -> ocr_policy L pg p B.
Proof.
  unfold ocr_policy. intros HAB (H1 & H2 & H3 & H4).
  repeat apply conj.
  - intros HB. apply H1, HAB, HB.
  - intros pix ocr HB. apply H2, HAB, HB.
  - exact H3.
  - intros HB. apply H4. tauto.
Qed.

(** The loop: one entry per page, in order, each within the policy. *)
Lemma for_pages_policy (doc : list page) :
  forall (i : Z) (acc : list page_out) (calls0 : list call),
  exists ps evs,
    for_pages L i doc acc calls0 = (Ok (acc ++ ps), calls0 ++ evs)
    /\ length ps = length doc
    /\ (forall c n, In c evs -> page_of c = Some n ->
                    (i < n <= i + Z.of_nat (length doc))%Z)
    /\ forall (k : nat) (pg : page),
        nth_error doc k = Some pg ->
        exists p,
          nth_error ps k = Some p
          /\ page_no p = (i + Z.of_nat k + 1)%Z
          /\ ocr_policy L pg p (ocr_attempted (page_no p) evs).
Proof.
  induction doc as [|pg0 doc IH]; intros i acc calls0.
  - exists [], []. rewrite !app_nil_r. repeat split; try easy.
    intros [|k] pg H; discriminate H.
  - destruct (process_page_policy i pg0 calls0) as (t & evs1 & Hrun & Hown & Hpol).
    destruct (IH (i + 1)%Z (acc ++ [{| page_no := i + 1; text := t |}])
                 (calls0 ++ evs1)) as (ps & evs2 & Hrest & Hlen & Hrange & Hall).
    exists ({| page_no := i + 1; text := t |} :: ps), (evs1 ++ evs2).
    split; [| split; [| split]].
    + cbn [for_pages]. unfold bind at 1. rewrite Hrun, Hrest.
      now rewrite <- !app_assoc.
    + cbn [length]. now rewrite Hlen.
    + intros c n Hin Hp. cbn [length]. apply in_app_or in Hin as [Hin | Hin].
      * rewrite (Hown c n Hin Hp). lia.
      * specialize (Hrange c n Hin Hp). lia.
    + intros [|k] pg Hk; cbn [nth_error] in *.
      * injection Hk as <-. eexists. split; [reflexivity |].
        split; [cbn [page_no]; lia |].
        apply ocr_policy_iff with (A := ocr_attempted (i + 1) evs1); [| exact Hpol].
        unfold ocr_attempted. cbn [page_no]. rewrite in_app_iff.
        split; [tauto | intros [H | H]; [exact H |]].
        specialize (Hrange _ (i + 1)%Z H eq_refl). lia.
      * destruct (Hall k pg Hk) as (p & Hp & Hno & Hpolk).
        exists p. split; [exact Hp |]. split; [lia |].
        apply ocr_policy_iff with (A := ocr_attempted (page_no p) evs2);
          [| exact Hpolk].
        unfold ocr_attempted. rewrite in_app_iff.
        split; [tauto | intros [H | H]; [| exact H]].
        specialize (Hown _ (page_no p) H eq_refl). lia.
Qed.

End ExtractorFacts.

(** C4.  On an opened document the extractor delivers one entry per
    page, numbered from 1 in document order, whatever happens to OCR on
    single pages.  For each page: OCR is attempted only if the extracted
    text is shorter than 20 characters after stripping and the page has
    images or drawings; when rendering and recognition succeed the entry
    holds the extracted text, a newline and the recognised text,
    stripped; when either fails, and when OCR is not attempted, the
    entry holds the extracted text as it was. *)
Theorem ocr_fallback_policy (L : Extractor.libs)
        (open : str -> reply (list Extractor.page)) (path : str)
        (doc : list Extractor.page) :
  Extractor.fitz_open L = Some open ->
  open path = Returns doc ->
  exists pages calls,
    Extractor.extract_text_from_pdf L path [] = (Ok pages, calls)
    /\ length pages = length doc
    /\ forall (i : nat) (pg : Extractor.page),
        nth_error doc i = Some pg ->
        exists p,
          nth_error pages i = Some p
          /\ Extractor.page_no p = (Z.of_nat i + 1)%Z
          /\ ocr_policy L pg p (ocr_attempted (Extractor.page_no p) calls).
Proof.
  intros Hfitz Hopen.
  destruct (for_pages_policy L doc 0 [] []) as (ps & evs & Hrun & Hlen & _ & Hall).
  exists ps, evs. split; [| split; [exact Hlen |]].
  - unfold Extractor.extract_text_from_pdf. rewrite Hfitz.
    unfold bind, of_reply. rewrite Hopen. unfold ret at 1. exact Hrun.
  - intros i pg Hi. destruct (Hall i pg Hi) as (p & Hp & Hno & Hpol).
    exists p. split; [exact Hp |]. split; [lia | exact Hpol].
Qed.

(** ** Source fetcher *)

Section FetcherFacts.

Import Fetcher.

Lemma str_eqb_iff (a b : str) : str_eqb a b = true <-> a = b.
Proof.
  unfold str_eqb. destruct (list_eq_dec N.eq_dec a b); split; congruence.
Qed.

Lemma not_listed (file : str) (l : list str) :
  negb (existsb (str_eqb file) l) = true <-> ~ In file l.
Proof.
  rewrite negb_true_iff. split.
  - intros H Hin. apply not_true_iff_false in H. apply H.
    apply existsb_exists. exists file. split; [exact Hin | now apply str_eqb_iff].
  - intros H. apply not_true_iff_false. intros He.
    apply existsb_exists in He as (x & Hx & Heq).
    apply str_eqb_iff in Heq as <-. contradiction.
Qed.

Lemma endswith_app (a suffix : str) : endswith suffix (a ++ suffix) = true.
Proof. unfold endswith. rewrite rev_app_distr. apply startswith_app. Qed.

Lemma temp_path_suffix (E : env) (suffix name : str) :
  endswith suffix (temp_path E suffix name) = true.
Proof.
  unfold temp_path, path_join.
  destruct (negb (truthy (gettempdir E)) || endswith [slash] (gettempdir E))%bool;
    rewrite ?app_assoc; apply endswith_app.
Qed.




Lemma minio_prefix (path : str) :
  startswith file_scheme (minio_scheme ++ path) = false
  /\ startswith minio_scheme (minio_scheme ++ path) = true
  /\ partition minio_scheme (minio_scheme ++ path) = ([], minio_scheme, path).
Proof.
  split; [reflexivity |]. split; [apply startswith_app |].
  unfold partition. rewrite find_unfold, startswith_app. reflexivity.
Qed.

Lemma download_minio_unfold (E : env) (path : str) :
  download_from_minio E (minio_scheme ++ path)
  = match split_max1 [slash] path with
    | [bucket; key] => fetch_object E bucket key
    | _ => raise invalid_locator
    end.
Proof.
  unfold download_from_minio.
  destruct (minio_prefix path) as (-> & -> & ->). reflexivity.
Qed.

(** What [mktemp] delivers for a suffix without NUL character: a
    candidate path that does not exist; it leaves the world alone. *)
Lemma mktemp_run (E : env) (suffix : str) (w : world) :
  existsb (N.eqb 0) suffix = false ->
  (exists file name,
      mktemp E suffix w = (Ok file, w)
      /\ In name (candidate_names E)
      /\ file = temp_path E suffix name
      /\ ~ In file (files w))
  \/ (mktemp E suffix w = (Raise (Error no_usable_name), w)
      /\ forall name, In name (candidate_names E) ->
                      In (temp_path E suffix name) (files w)).
Proof.
  intros Hnul. unfold mktemp, bind, get, ret, raise. rewrite Hnul.
  destruct (candidate_names E) as [|n0 names] eqn:Hnames.
  { right. split; [reflexivity |]. intros name []. }
  rewrite <- Hnames. clear Hnames.
  destruct (List.find _ _) as [file|] eqn:Hf.
  - left. apply List.find_some in Hf as [Hin Hfree].
    apply in_map_iff in Hin as (name & <- & Hname).
    eexists _, name. repeat split; auto. now apply not_listed.
  - right. split; [reflexivity |]. intros name Hname.
    eapply List.find_none in Hf; [| apply in_map, Hname].
    apply negb_false_iff in Hf. apply existsb_exists in Hf as (x & Hx & Heq).
    now apply str_eqb_iff in Heq as ->.
Qed.

(** A suffix with a NUL character is refused when the first candidate
    is probed. *)
Lemma mktemp_nul (E : env) (suffix : str) (w : world) :
  existsb (N.eqb 0) suffix = true ->
  candidate_names E <> [] ->
  mktemp E suffix w = (Raise (ValueError (py "embedded null byte")), w).
Proof.
  intros Hnul Hnames. unfold mktemp, bind, get, raise. rewrite Hnul.
  now destruct (candidate_names E).
Qed.

(** [mktemp] never changes the world, and never raises the
    invalid-locator error. *)
Lemma mktemp_world (E : env) (suffix : str) (w : world) :
  snd (mktemp E suffix w) = w
  /\ fst (mktemp E suffix w) <> Raise invalid_locator.
Proof.
  unfold mktemp, bind, get, ret, raise.
  destruct (candidate_names E); [now split |].
  destruct (existsb (N.eqb 0) suffix); [now split |].
  destruct (List.find _ _); now split.
Qed.

Lemma fetch_object_unfold (E : env) (bucket key : str) (w : world) :
  fetch_object E bucket key w
  = match mktemp E (path_suffix key) w with
    | (Ok local, _) =>
        let w1 := {| files := files w;
                     calls := calls w ++ [Makedirs (dirname local)] |} in
        match os_makedirs E (dirname local) with
        | Fails msg => (Raise (Error msg), w1)
        | Returns _ =>
            let w2 := {| files := files w;
                         calls := calls w ++ [Makedirs (dirname local);
                                              S3Download bucket key local] |} in
            match s3_download_file E bucket key local with
            | Fails msg => (Raise (Error msg), w2)
            | Returns _ =>
                (Ok local, {| files := local :: files w; calls := calls w2 |})
            end
        end
    | (Raise e, _) => (Raise e, w)
    end.
Proof.
  unfold fetch_object. unfold bind at 1.
  destruct (mktemp_world E (path_suffix key) w) as [Hw _].
  destruct (mktemp E (path_suffix key) w) as [[local|e] w0]; cbn [snd] in Hw;
    subst w0; [| reflexivity].
  unfold bind, log, create, modify, of_reply, ret, raise. cbv zeta.
  destruct (os_makedirs E (dirname local)); cbn; [| reflexivity].
  rewrite <- app_assoc.
  destruct (s3_download_file E bucket key local); reflexivity.
Qed.


Lemma fetch_object_ok (E : env) (bucket key : str) (w : world) (local : str) :
  fst (fetch_object E bucket key w) = Ok local ->
  endswith (path_suffix key) local = true
  /\ ~ In local (files w)
  /\ files (snd (fetch_object E bucket key w)) = local :: files w
  /\ calls (snd (fetch_object E bucket key w))
     = calls w ++ [Makedirs (dirname local); S3Download bucket key local]
  /\ s3_download_file E bucket key local = Returns tt.
Proof.
  rewrite fetch_object_unfold.
  destruct (existsb (N.eqb 0) (path_suffix key)) eqn:Hnul.
  { destruct (candidate_names E) as [|n0 names] eqn:Hnames.
    - unfold mktemp, bind, get, raise. rewrite Hnames. discriminate.
    - rewrite mktemp_nul by (congruence || exact Hnul). discriminate. }
  destruct (mktemp_run E (path_suffix key) w Hnul)
    as [(file & name & -> & Hname & -> & Hfree) | (-> & _)];
    [| discriminate].
  cbv zeta. destruct (os_makedirs E _) as [[]|msg]; cbn; [| discriminate].
  destruct (s3_download_file E bucket key _) as [[]|msg] eqn:Hs3; cbn;
    [| discriminate].
  intros [= <-]. repeat split.
  - apply temp_path_suffix.
  - exact Hfree.
  - exact Hs3.
Qed.


Lemma fetch_object_raise (E : env) (bucket key : str) (w : world) (e : exn) :
  fst (fetch_object E bucket key w) = Raise e ->
  files (snd (fetch_object E bucket key w)) = files w.
Proof.
  rewrite fetch_object_unfold.
  destruct (mktemp E (path_suffix key) w) as [[local|e0] w0]; [| reflexivity].
  cbv zeta. destruct (os_makedirs E (dirname local)); cbn; [| reflexivity].
  destruct (s3_download_file E bucket key local); cbn;
    [discriminate | reflexivity].
Qed.












End FetcherFacts.



(** ** Chunk-and-store *)

Section IngestFacts.

Import Store Service Ingest.

Lemma batches_fuel_concat {A} (size : nat) :
  (0 < size)%nat ->
  forall (fuel : nat) (l : list A),
    (length l <= fuel)%nat -> concat (batches_fuel fuel size l) = l.
Proof.
  intros Hsize. induction fuel as [|fuel IH]; intros l Hl.
  - destruct l; [reflexivity | cbn in Hl; lia].
  - destruct l as [|x l]; [reflexivity |].
    cbn [batches_fuel concat]. rewrite IH.
    + apply firstn_skipn.
    + rewrite length_skipn. cbn [length] in *. lia.
Qed.

(** The batches are the staged chunks, in order. *)
Lemma batches_concat {A} (l : list A) : concat (batches batch_size l) = l.
Proof.
  unfold batches. apply batches_fuel_concat; [unfold batch_size; lia | lia].
Qed.

Lemma store_batches_run (E : env) (answer : reply unit)
      (bs : list (list staged)) :
  psycopg2 E = Some answer ->
  forall w,
    store_batches E bs w =
    (Ok tt,
     {| database := database w;
        pending := pending w ++ map record_of (concat bs);
        calls := calls w
                 ++ map (fun b => Execute (InsertChunks (map record_of b))) bs |}).
Proof.
  intros HE. induction bs as [|b bs IH]; intros w.
  - cbn. rewrite !app_nil_r. now destruct w.
  - cbn [store_batches]. unfold execute_values_imported. rewrite HE.
    unfold bind at 1. unfold sql_insert_chunks, bind, log, modify. rewrite IH.
    cbn. now rewrite map_app, <- !app_assoc.
Qed.

(** Inserting appends rows whose written columns are the records. *)
Lemma insert_chunks_columns (records : list (Z * Z * str)) :
  forall rows,
  exists new,
    insert_chunks rows records = rows ++ new
    /\ map written_columns new = records.
Proof.
  induction records as [|[[d p] c] records IH]; intros rows.
  - exists []. now rewrite app_nil_r.
  - cbn [insert_chunks].
    destruct (IH (rows ++ [{| ch_id := next_id rows; ch_document_id := d;
                              ch_page_no := p; ch_text := c |}]))
      as (new & Hins & Hcols).
    eexists (_ :: new). rewrite Hins, <- app_assoc. split; [reflexivity |].
    cbn. now rewrite Hcols.
Qed.

Lemma records_of_enumerate (document_id page_no : Z) (l : list str) :
  forall i,
    map record_of
        (map (fun ic : Z * str => (document_id, page_no, fst ic, snd ic))
             (enumerate_from i l))
    = map (fun c => (document_id, page_no, c)) l.
Proof.
  induction l as [|c l IH]; intros i; cbn; [reflexivity |].
  now rewrite IH.
Qed.

(** Staging keeps, for every page, the chunks of its text in order; the
    record made of each has no trace of the ordinal. *)
Lemma records_of_stage (document_id : Z) (rows : list page_row) :
  map record_of (stage document_id rows)
  = flat_map (fun row =>
                map (record_for document_id row)
                    (chunk_text (pg_text row) embed_chunk_size embed_overlap))
             rows.
Proof.
  unfold stage. induction rows as [|row rows IH]; [reflexivity |].
  cbn [flat_map]. rewrite map_app, IH. f_equal.
  unfold stage_page. rewrite chunk_text_guard.
  destruct (blank (pg_text row)) eqn:Hb.
  - now rewrite chunk_text_blank.
  - apply records_of_enumerate.
Qed.

End IngestFacts.

(** C7, as stated, fails: the page [repetitive_page] yields the same
    chunk text at ordinals 1 and 2, and the two inserted records are
    equal, so no ordinal can be read off them. *)
Lemma ordinal_is_not_stored : ~ ordinal_in_record 1 [repetitive_page].
Proof.
  intros (ordinal & H).
  assert (H1 : In (1, 1, 1, repeated_chunk)%Z (Ingest.stage 1 [repetitive_page]))
    by (vm_compute; right; left; reflexivity).
  assert (H2 : In (1, 1, 2, repeated_chunk)%Z (Ingest.stage 1 [repetitive_page]))
    by (vm_compute; right; right; left; reflexivity).
  apply H in H1, H2. cbn in H1, H2. congruence.
Qed.

(** C7 (amended).  With the database reachable and no insert pending,
    chunk-and-store succeeds and appends to the chunk table, for every
    page of the document in turn and every chunk of its text in order,
    one row whose written columns are the document identifier, the
    page number and the chunk text; nothing else of the staged chunk is
    stored, and the rows already there are kept. *)
Theorem embed_document_stores_columns (E : Service.env) (w : Service.world)
        (document_id : Z) :
  Service.psycopg2 E = Some (Returns tt) ->
  Service.pending w = [] ->
  exists w' new,
    Ingest.embed_document E document_id w = (Ok true, w')
    /\ Store.chunks (Service.database w')
       = Store.chunks (Service.database w) ++ new
    /\ map written_columns new
       = flat_map
           (fun row =>
              map (record_for document_id row)
                  (chunk_text (Store.pg_text row)
                              Ingest.embed_chunk_size Ingest.embed_overlap))
           (Store.select_pages (Service.database w) document_id).
Proof.
  intros HE Hpending.
  rewrite <- records_of_stage.
  unfold Ingest.embed_document, Service.pg_connect. rewrite HE.
  unfold Service.sql_select_pages, Service.commit, Service.log.
  unfold bind, modify, get, ret, of_reply.
  cbn -[Ingest.stage Ingest.store_batches Store.insert_chunks
        Store.select_pages Ingest.batches].
  destruct (Ingest.stage document_id _) as [|r staged] eqn:Hst.
  - eexists _, []. rewrite app_nil_r. repeat split.
  - rewrite store_batches_run with (answer := Returns tt) by exact HE.
    cbn -[Ingest.stage Ingest.store_batches Store.insert_chunks
          Store.select_pages Ingest.batches].
    rewrite batches_concat, Hpending. cbn [app].
    destruct (insert_chunks_columns (map Ingest.record_of (r :: staged))
                (Store.chunks (Service.database w))) as (new & Hins & Hcols).
    eexists _, new. rewrite Hins. repeat split. exact Hcols.
Qed.

(** ** LIKE patterns *)

Section LikeFacts.

Import Store.

Lemma plain_cons (c : char) (s : str) :
  plain (c :: s) = (negb (meta c) && plain s)%bool.
Proof. reflexivity. Qed.

(** Lower-casing neither makes nor removes a metacharacter. *)
Lemma meta_lower_char (c : char) : meta (lower_char c) = meta c.
Proof.
  unfold lower_char, char_in, meta, percent, underscore, backslash.
  destruct (N.leb_spec 65 c), (N.leb_spec c 90), (N.leb_spec 192 c),
    (N.leb_spec c 214), (N.leb_spec 216 c), (N.leb_spec c 222);
    cbn [andb orb]; try reflexivity;
    repeat match goal with
           | |- context [N.eqb ?a ?b] => destruct (N.eqb_spec a b)
           end; cbn [orb]; try reflexivity; lia.
Qed.

Lemma plain_lower (s : str) : plain (lower s) = plain s.
Proof.
  induction s as [|c s IH]; [reflexivity |].
  cbn [lower map]. rewrite !plain_cons. fold (lower s).
  now rewrite IH, meta_lower_char.
Qed.

(** A plain string parses to its own characters. *)
Lemma parse_like_plain (s rest : str) :
  plain s = true ->
  parse_like (s ++ rest)
  = option_map (app (map Literal s)) (parse_like rest).
Proof.
  induction s as [|c s IH]; intros H.
  - cbn. now destruct (parse_like rest).
  - rewrite plain_cons in H. apply andb_true_iff in H as [Hc Hs].
    unfold meta in Hc. apply negb_true_iff in Hc.
    apply orb_false_iff in Hc as [Hc Hb]. apply orb_false_iff in Hc as [Hp Hu].
    cbn [app parse_like]. rewrite Hp, Hu, Hb, (IH Hs).
    now destruct (parse_like rest).
Qed.

Lemma parse_pattern_of_plain (term : str) :
  plain term = true ->
  parse_like (lower (Answer.pattern_of term))
  = Some (AnyString :: map Literal (lower term) ++ [AnyString]).
Proof.
  intros H. unfold Answer.pattern_of, lower.
  rewrite !map_app. cbn [map app].
  change (lower_char percent) with percent.
  cbn [parse_like]. rewrite N.eqb_refl.
  fold (lower term). rewrite parse_like_plain by now rewrite plain_lower.
  reflexivity.
Qed.

Lemma like_any_unfold (toks : list like_token) (t : str) :
  like_match (AnyString :: toks) t
  = (like_match toks t
     || match t with
        | [] => false
        | _ :: t' => like_match (AnyString :: toks) t'
        end)%bool.
Proof. destruct t; reflexivity. Qed.

Lemma like_only_any (t : str) : like_match [AnyString] t = true.
Proof.
  induction t as [|b t IH]; rewrite like_any_unfold; [reflexivity |].
  rewrite IH. apply orb_true_r.
Qed.

Lemma like_trailing_any (x t : str) :
  like_match (map Literal x ++ [AnyString]) t = startswith x t.
Proof.
  revert t. induction x as [|a x IH]; intros t.
  - cbn [map app]. rewrite like_only_any. now destruct t.
  - destruct t as [|b t]; [reflexivity |].
    cbn [map app like_match startswith]. now rewrite IH, N.eqb_sym.
Qed.

Lemma contains_unfold (x t : str) :
  contains x t
  = (startswith x t
     || match t with
        | [] => false
        | _ :: t' => contains x t'
        end)%bool.
Proof.
  unfold contains. rewrite find_unfold.
  destruct (startswith x t); [reflexivity |].
  destruct t as [|b t]; [reflexivity |]. cbn [orb].
  now destruct (find x t).
Qed.

(** [%x%] for a plain [x] is substring search. *)
Lemma like_infix (x t : str) :
  like_match (AnyString :: map Literal x ++ [AnyString]) t = contains x t.
Proof.
  induction t as [|b t IH]; rewrite like_any_unfold, contains_unfold,
    like_trailing_any; [reflexivity |].
  now rewrite IH.
Qed.

(** For a term without metacharacter, [text ILIKE '%term%'] is
    case-insensitive containment. *)
Lemma ilike_plain (term text : str) :
  plain term = true ->
  ilike text (Answer.pattern_of term) = Some (ci_contains term text).
Proof.
  intros H. unfold ilike, ci_contains.
  now rewrite parse_pattern_of_plain, like_infix.
Qed.

Lemma parse_all_member (patterns : list str) :
  forall pats toks,
    parse_all patterns = Some pats ->
    In toks pats ->
    exists p, In p patterns /\ parse_like (lower p) = Some toks.
Proof.
  induction patterns as [|p patterns IH]; intros pats toks Hp Hin; cbn in Hp.
  - injection Hp as <-. destruct Hin.
  - destruct (parse_like (lower p)) as [tk|] eqn:Hpl; [| discriminate].
    destruct (parse_all patterns) as [more|] eqn:Hmore; [| discriminate].
    injection Hp as <-. destruct Hin as [<- | Hin].
    + exists p. split; [now left | exact Hpl].
    + destruct (IH more toks eq_refl Hin) as (q & Hq & Hpq).
      exists q. split; [now right | exact Hpq].
Qed.

Lemma in_firstn {A} (n : nat) (l : list A) (x : A) :
  In x (firstn n l) -> In x l.
Proof.
  revert l. induction n as [|n IH]; intros [|y l] H; cbn in *; try tauto.
  destruct H as [-> | H]; auto.
Qed.

(** What the search statement returns: at most [limit] stored chunks,
    within the scope, each matching one of the patterns. *)
Lemma select_chunks_returns (d : db) (scope : option Z) (patterns : list str)
      (limit : Z) (rows : list chunk_row) :
  select_chunks d scope patterns limit = Returns rows ->
  (0 <= limit)%Z
  /\ (length rows <= Z.to_nat limit)%nat
  /\ Forall (fun r =>
               In r (chunks d)
               /\ in_scope scope r = true
               /\ exists p, In p patterns /\ ilike (ch_text r) p = Some true)
            rows.
Proof.
  unfold select_chunks.
  destruct (existsb (existsb (N.eqb 0)) patterns); [discriminate |].
  destruct (Z.ltb_spec limit 0); [discriminate |].
  destruct (limit >? max_bigint)%Z; [discriminate |].
  destruct (parse_all patterns) as [pats|] eqn:Hp; [| discriminate].
  intros [= <-]. split; [assumption |]. split.
  - rewrite length_firstn. lia.
  - apply Forall_forall. intros r Hr.
    apply in_firstn, filter_In in Hr as [Hin Hf].
    apply andb_true_iff in Hf as [Hscope Hany].
    split; [exact Hin |]. split; [exact Hscope |].
    apply existsb_exists in Hany as (toks & Htoks & Hm).
    destruct (parse_all_member _ _ _ Hp Htoks) as (p & Hpin & Hpp).
    exists p. split; [exact Hpin |]. unfold ilike. now rewrite Hpp, Hm.
Qed.

End LikeFacts.

(** ** Retrieval and answer *)

Section AnswerFacts.

Import Store Service Answer.

Lemma split_ws_content (s : str) : split_ws s <> [] -> blank s = false.
Proof.
  induction s as [|c s IH]; cbn [split_ws]; [congruence |].
  unfold blank. cbn [forallb].
  destruct (isspace c) eqn:Hc; cbn [andb]; [exact IH | reflexivity].
Qed.

(** A query with a usable search term passes the validation. *)
Lemma usable_terms_valid (q : str) :
  query_words q <> [] ->
  (negb (truthy q) || negb (truthy (strip q)))%bool = false.
Proof.
  intros H. assert (Hb : blank q = false).
  { apply split_ws_content. intros Hs. apply H.
    unfold query_words. now rewrite Hs. }
  apply orb_false_iff. split; apply negb_false_iff, truthy_true_iff.
  - intros ->. discriminate Hb.
  - now apply strip_not_nil_iff.
Qed.

(** Answer generation never raises and does not touch the database. *)
Lemma generate_ai_response_total (E : env) (q context : str) (w : world) :
  exists a w', generate_ai_response E q context w = (Ok a, w')
               /\ database w' = database w.
Proof.
  unfold generate_ai_response, try_except, bind, log, modify, of_reply, ret, raise.
  destruct (gemini_model E) as [g|]; cbn; [| eauto].
  destruct (g _); cbn; eauto.
Qed.

Lemma respond_total (E : env) (q : str) (rows : list chunk_row) (w : world) :
  exists a w',
    respond E q rows w = (Ok {| answer := a; citations := map cite rows |}, w').
Proof.
  unfold respond. destruct rows as [|r rows]; [unfold ret; eauto |].
  unfold bind.
  destruct (generate_ai_response_total E q
              (join [10%N; 10%N] (map context_part (r :: rows))) w)
    as (a & w' & -> & _).
  unfold ret. eauto.
Qed.

(** A response of [qa] comes out of its [try] block. *)
Lemma qa_ok_try (E : env) (inp : QaIn) (w w' : world) (out : response) :
  qa E inp w = (Ok out, w') -> qa_try E inp w = (Ok out, w').
Proof.
  unfold qa, try_except. destruct (qa_try E inp w) as [[o|e] w0]; [easy |].
  destruct e; unfold raise; discriminate.
Qed.

(** The citations of a response are those of the rows the search
    statement returned, if it was executed at all. *)
Lemma qa_try_rows (E : env) (inp : QaIn) (w w' : world) (out : response) :
  qa_try E inp w = (Ok out, w') ->
  citations out = []
  \/ exists rows,
      select_chunks (database w) (scope_of (documentId inp))
        (map pattern_of (query_words (query inp))) (top_k inp)
      = Returns rows
      /\ citations out = map cite rows.
Proof.
  unfold qa_try.
  destruct (negb (truthy (query inp)) || negb (truthy (strip (query inp))))%bool;
    [unfold raise; discriminate |].
  unfold pg_connect. destruct (psycopg2 E) as [[[]|msg]|];
    unfold bind, log, modify, of_reply, ret, raise; cbn [fst snd];
    try discriminate.
  destruct (query_words (query inp)) as [|t ts] eqn:Hwords.
  { intros [= <- _]. now left. }
  unfold sql_count_chunks, bind, log, modify, get, ret. cbn [database].
  destruct (count_chunks (database w) =? 0)%Z.
  { intros [= <- _]. now left. }
  destruct (scope_of (documentId inp)) as [id|].
  - unfold sql_select_document, bind, log, modify, get, ret. cbn [database].
    destruct (select_document (database w) id).
    + unfold sql_select_chunks, bind, log, modify, get, ret, of_reply.
      cbn [database].
      destruct (select_chunks (database w) (Some id) _ (top_k inp))
        as [rows|msg] eqn:Hsel; [| unfold raise; discriminate].
      unfold ret. responded respond_total. intros [= <- _]. right. eauto.
    + intros [= <- _]. now left.
  - unfold sql_select_chunks, bind, log, modify, get, ret, of_reply.
    cbn [database].
    destruct (select_chunks (database w) None _ (top_k inp))
      as [rows|msg] eqn:Hsel; [| unfold raise; discriminate].
    unfold ret. responded respond_total. intros [= <- _]. right. eauto.
Qed.

End AnswerFacts.

Lemma cites_cite (rows : list Store.chunk_row) :
  Forall2 cites (map Answer.cite rows) rows.
Proof.
  induction rows as [|r rows IH]; constructor; [| exact IH].
  repeat split.
Qed.

(** C5.  The search terms are put into the LIKE patterns as they are,
    so [%], [_] and backslash in a term act as wildcards and escape:
    for the query ["a_c"] the only term is ["a_c"], the chunk ["abc"]
    is returned and cited, and ["a_c"] does not occur in it. *)
Theorem wildcard_term_matches_without_occurring :
  fst (Answer.qa plain_env (ask "a_c" None) (world_of abc_db))
  = Ok {| Answer.answer :=
            py "AI service not available. Please check configuration.";
          Answer.citations := [Answer.cite abc_chunk] |}
  /\ Answer.query_words (py "a_c") = [py "a_c"]
  /\ Store.ch_text abc_chunk = py "abc"
  /\ ci_contains (py "a_c") (py "abc") = false
  /\ ~ returns_matching_chunks plain_env (world_of abc_db) (ask "a_c" None).
Proof.
  repeat split; try reflexivity.
  intros H.
  destruct (Answer.qa plain_env (ask "a_c" None) (world_of abc_db))
    as [[out|e] w'] eqn:Hrun; [| vm_compute in Hrun; discriminate Hrun].
  specialize (H ltac:(vm_compute; discriminate) out w' Hrun).
  destruct H as (rows & Hcit & _ & Hrows).
  vm_compute in Hrun. injection Hrun as <- _.
  inversion Hcit as [|c r cs rs Hc Hrest]; subst. clear Hcit Hc.
  apply Forall_inv in Hrows as (Hin & term & Hterm & Hocc).
  destruct Hin as [<- | []].
  vm_compute in Hterm. destruct Hterm as [<- | []].
  vm_compute in Hocc. discriminate Hocc.
Qed.

(** C10, as stated, fails on a query without usable search term: it is
    answered by the request for a more specific question, also when the
    chunk store is empty. *)
Lemma empty_store_after_term_check :
  ~ empty_store_no_documents plain_env (world_of empty_db) (ask "a" None).
Proof.
  intros H. destruct (H eq_refl) as (w' & Hrun).
  vm_compute in Hrun. discriminate Hrun.
Qed.

(** C10 (amended).  With the database reachable, a request with at
    least one usable search term that arrives when the chunk store is
    empty is answered by the successful "no documents have been
    processed yet" response without citations; the only calls made are
    the connection and the chunk count: no document lookup, no search
    and no answer generation. *)
Theorem empty_store_short_circuit (E : Service.env) (w : Service.world)
        (inp : Answer.QaIn) :
  Service.psycopg2 E = Some (Returns tt) ->
  Answer.query_words (Answer.query inp) <> [] ->
  Store.chunks (Service.database w) = [] ->
  Answer.qa E inp w
  = (Ok no_documents_response,
     {| Service.database := Service.database w;
        Service.pending := Service.pending w;
        Service.calls :=
          Service.calls w
          ++ [Service.Connect; Service.Execute Store.CountChunks] |}).
Proof.
  intros HE Hwords Hempty.
  unfold Answer.qa, try_except, Answer.qa_try.
  rewrite (usable_terms_valid _ Hwords).
  unfold Service.pg_connect. rewrite HE.
  destruct (Answer.query_words (Answer.query inp)) as [|t ts]; [contradiction |].
  unfold Service.sql_count_chunks, Store.count_chunks.
  unfold bind, Service.log, modify, get, of_reply, ret. cbn.
  rewrite Hempty. cbn. now rewrite <- app_assoc.
Qed.

Lemma empty_store_short_circuit_witness :
  Answer.qa plain_env (ask "refund policy" (Some 7%Z)) (world_of unchunked_db)
  = (Ok no_documents_response,
     {| Service.database := unchunked_db;
        Service.pending := [];
        Service.calls := [Service.Connect; Service.Execute Store.CountChunks] |}).
Proof.
  apply (empty_store_short_circuit plain_env (world_of unchunked_db)
           (ask "refund policy" (Some 7%Z))).
  - reflexivity.
  - vm_compute. discriminate.
  - reflexivity.
Defined.

(** C6, as stated, fails when the chunk store is empty: the unknown
    scope is then answered by "no documents have been processed yet". *)
Lemma unknown_scope_on_empty_store :
  ~ unknown_scope_not_found plain_env (world_of unchunked_db)
      (ask "refund policy" (Some 7%Z)).
Proof.
  intros H. destruct (H 7%Z eq_refl) as (w' & Hrun).
  - intros d [<- | []]. discriminate.
  - vm_compute in Hrun. discriminate Hrun.
Qed.

Section ScopeFacts.

Import Store Service Answer.

Lemma select_document_unknown (d : db) (id : Z) :
  (forall r, In r (documents d) -> doc_id r <> id) ->
  select_document d id = None.
Proof.
  intros H. unfold select_document.
  destruct (List.find _ (documents d)) as [r|] eqn:Hf; [| reflexivity].
  apply List.find_some in Hf as [Hin Heq].
  apply Z.eqb_eq in Heq. now apply H in Hin.
Qed.

Lemma select_document_known (d : db) (id : Z) (r : document_row) :
  In r (documents d) -> doc_id r = id ->
  exists found, select_document d id = Some found.
Proof.
  intros Hin Hid. unfold select_document.
  destruct (List.find _ (documents d)) as [r'|] eqn:Hf; [cbn; eauto |].
  eapply List.find_none in Hf; [| exact Hin].
  apply Z.eqb_neq in Hf. contradiction.
Qed.

Lemma scope_of_nonzero (id : Z) : id <> 0%Z -> scope_of (Some id) = Some id.
Proof. intros H. unfold scope_of. now apply Z.eqb_neq in H as ->. Qed.

Lemma count_chunks_nonzero (d : db) :
  chunks d <> [] -> (count_chunks d =? 0)%Z = false.
Proof.
  intros H. apply Z.eqb_neq. unfold count_chunks.
  destruct (chunks d); [contradiction | cbn; lia].
Qed.

Lemma not_found_is_not_no_match (id : Z) :
  not_found_response id <> no_match_response.
Proof.
  intros H. apply (f_equal answer) in H.
  apply (f_equal (hd 0%N)) in H. discriminate H.
Qed.

Lemma bind_run {W A B} (m : M W A) (k : A -> M W B) (w : W) :
  bind m k w
  = match m w with
    | (Ok a, w') => k a w'
    | (Raise e, w') => (Raise e, w')
    end.
Proof. reflexivity. Qed.

Lemma pg_connect_run (E : env) (w : world) :
  psycopg2 E = Some (Returns tt) -> pg_connect E w = (Ok tt, logged w Connect).
Proof. intros HE. unfold pg_connect. now rewrite HE. Qed.

Lemma sql_count_chunks_run (w : world) :
  sql_count_chunks w
  = (Ok (count_chunks (database w)), logged w (Execute CountChunks)).
Proof. reflexivity. Qed.

Lemma sql_select_document_run (id : Z) (w : world) :
  sql_select_document id w
  = (Ok (select_document (database w) id),
     logged w (Execute (SelectDocument id))).
Proof. reflexivity. Qed.

Lemma sql_select_chunks_run (scope : option Z) (patterns : list str)
      (limit : Z) (w : world) :
  sql_select_chunks scope patterns limit w
  = (match select_chunks (database w) scope patterns limit with
     | Returns rows => Ok rows
     | Fails msg => Raise (Error msg)
     end,
     logged w (Execute (SelectChunks scope patterns limit))).
Proof.
  unfold sql_select_chunks, bind, log, modify, get, ret, of_reply, logged.
  cbn [database]. now destruct (select_chunks _ _ _ _).
Qed.

(** The [try] block up to the scope check, for a request with a usable
    term and a non-zero scope, on a store with chunks. *)
Lemma qa_try_scoped (E : env) (w : world) (inp : QaIn) (id : Z) :
  psycopg2 E = Some (Returns tt) ->
  query_words (query inp) <> [] ->
  chunks (database w) <> [] ->
  documentId inp = Some id -> id <> 0%Z ->
  qa_try E inp w
  = let w1 := logged (logged (logged w Connect) (Execute CountChunks))
                (Execute (SelectDocument id)) in
    match select_document (database w) id with
    | None => (Ok (not_found_response id), w1)
    | Some _ =>
        bind (sql_select_chunks (Some id)
                (map pattern_of (query_words (query inp))) (top_k inp))
             (respond E (query inp)) w1
    end.
Proof.
  intros HE Hwords Hchunks Hscope Hid. unfold qa_try.
  rewrite (usable_terms_valid _ Hwords), Hscope, (scope_of_nonzero _ Hid).
  rewrite bind_run, (pg_connect_run _ _ HE).
  destruct (query_words (query inp)) as [|t ts]; [contradiction |].
  rewrite bind_run, sql_count_chunks_run. unfold logged at 1. cbn [database].
  rewrite (count_chunks_nonzero _ Hchunks).
  rewrite bind_run, sql_select_document_run. unfold logged at 1 2. cbn [database].
  now destruct (select_document (database w) id).
Qed.

Lemma qa_of_try (E : env) (w w' : world) (inp : QaIn) (out : response) :
  qa_try E inp w = (Ok out, w') -> qa E inp w = (Ok out, w').
Proof. intros H. unfold qa, try_except. now rewrite H. Qed.

(** The response to a known scope without matching chunk. *)
Lemma known_scope_no_match (E : env) (w : world) (inp : QaIn) (id : Z)
      (r : document_row) :
  psycopg2 E = Some (Returns tt) ->
  query_words (query inp) <> [] ->
  chunks (database w) <> [] ->
  documentId inp = Some id -> id <> 0%Z ->
  In r (documents (database w)) -> doc_id r = id ->
  select_chunks (database w) (Some id)
    (map pattern_of (query_words (query inp))) (top_k inp) = Returns [] ->
  fst (qa E inp w) = Ok no_match_response.
Proof.
  intros HE Hwords Hchunks Hscope Hid Hin Hr Hsel.
  destruct (select_document_known _ _ _ Hin Hr) as (found & Hfound).
  erewrite qa_of_try; [reflexivity |].
  rewrite (qa_try_scoped _ _ _ _ HE Hwords Hchunks Hscope Hid).
  cbv zeta. rewrite Hfound, bind_run, sql_select_chunks_run.
  unfold logged at 1 2 3 4. cbn [database]. rewrite Hsel. reflexivity.
Qed.

End ScopeFacts.

(** C6 (amended).  With the database reachable and the chunk store not
    empty, a request with at least one usable search term whose
    document-scope identifier is not zero and is the identifier of no
    stored document is answered by the successful "document not found"
    response without citations, after the connection, the chunk count
    and the document lookup only; this response differs from the one
    given when the document exists and no chunk matches. *)
Theorem unknown_scope_response (E : Service.env) (w : Service.world)
        (inp : Answer.QaIn) (id : Z) :
  Service.psycopg2 E = Some (Returns tt) ->
  Answer.query_words (Answer.query inp) <> [] ->
  Store.chunks (Service.database w) <> [] ->
  Answer.documentId inp = Some id ->
  id <> 0%Z ->
  (forall d, In d (Store.documents (Service.database w)) -> Store.doc_id d <> id) ->
  Answer.qa E inp w
  = (Ok (not_found_response id),
     {| Service.database := Service.database w;
        Service.pending := Service.pending w;
        Service.calls :=
          Service.calls w
          ++ [Service.Connect; Service.Execute Store.CountChunks;
              Service.Execute (Store.SelectDocument id)] |})
  /\ not_found_response id <> no_match_response.
Proof.
  intros HE Hwords Hchunks Hscope Hid Hunknown.
  split; [| apply not_found_is_not_no_match].
  apply qa_of_try.
  rewrite (qa_try_scoped _ _ _ _ HE Hwords Hchunks Hscope Hid).
  rewrite (select_document_unknown _ _ Hunknown).
  unfold logged. cbn [Service.database Service.pending Service.calls].
  now rewrite <- !app_assoc.
Qed.

Lemma unknown_scope_response_witness :
  Answer.qa plain_env (ask "refund policy" (Some 7%Z)) (world_of handbook_db)
  = (Ok (not_found_response 7),
     {| Service.database := handbook_db;
        Service.pending := [];
        Service.calls :=
          [Service.Connect; Service.Execute Store.CountChunks;
           Service.Execute (Store.SelectDocument 7)] |})
  /\ not_found_response 7 <> no_match_response.
Proof.
  apply (unknown_scope_response plain_env (world_of handbook_db)
           (ask "refund policy" (Some 7%Z)) 7%Z).
  - reflexivity.
  - vm_compute. discriminate.
  - discriminate.
  - reflexivity.
  - discriminate.
  - intros d [<- | []]. discriminate.
Defined.

Lemma ocr_fallback_policy_witness :
  exists pages calls,
    Extractor.extract_text_from_pdf ocr_libs (py "scan.pdf") [] = (Ok pages, calls)
    /\ length pages = 2%nat
    /\ forall (i : nat) (pg : Extractor.page),
        nth_error two_page_doc i = Some pg ->
        exists p,
          nth_error pages i = Some p
          /\ Extractor.page_no p = (Z.of_nat i + 1)%Z
          /\ ocr_policy ocr_libs pg p (ocr_attempted (Extractor.page_no p) calls).
Proof.
  exact (ocr_fallback_policy ocr_libs (fun _ => Returns two_page_doc)
           (py "scan.pdf") two_page_doc eq_refl eq_refl).
Defined.

Lemma embed_document_stores_columns_witness :
  exists w' new,
    Ingest.embed_document plain_env 1 (world_of pages_db) = (Ok true, w')
    /\ Store.chunks (Service.database w') = [abc_chunk] ++ new
    /\ map written_columns new
       = flat_map
           (fun row =>
              map (record_for 1 row)
                  (chunk_text (Store.pg_text row) 300 30))
           [repetitive_page; short_page].
Proof.
  exact (embed_document_stores_columns plain_env (world_of pages_db) 1%Z
           eq_refl eq_refl).
Defined.


(* ===================================================================== *)
(** * Further properties of the code *)
(* ===================================================================== *)

(** ** Stripping *)

Section StripFacts.

Lemma lstrip_app (a b : str) :
  lstrip (a ++ b) = if blank a then lstrip b else lstrip a ++ b.
Proof.
  induction a as [|c a IH]; [reflexivity |].
  cbn [app lstrip]. unfold blank. cbn [forallb]. fold (blank a).
  destruct (isspace c); cbn [andb]; [exact IH | reflexivity].
Qed.

Lemma lstrip_first (s : str) (c : char) (t : str) :
  lstrip s = c :: t -> isspace c = false.
Proof.
  induction s as [|x s IH]; cbn [lstrip]; [discriminate |].
  destruct (isspace x) eqn:Hx; [exact IH | now intros [= <- _]].
Qed.

Lemma lstrip_idempotent (s : str) : lstrip (lstrip s) = lstrip s.
Proof.
  destruct (lstrip s) as [|c t] eqn:H; [reflexivity |].
  apply lstrip_head. eapply lstrip_first; eauto.
Qed.

Lemma rstrip_app (a b : str) :
  rstrip (a ++ b) = if blank b then rstrip a else a ++ rstrip b.
Proof.
  unfold rstrip. rewrite rev_app_distr, lstrip_app, blank_rev.
  destruct (blank b); [reflexivity |].
  now rewrite rev_app_distr, rev_involutive.
Qed.

Lemma rstrip_blank (s : str) : blank s = true -> rstrip s = [].
Proof.
  intros H. unfold rstrip. apply rev_nil_iff, lstrip_nil_iff.
  now rewrite blank_rev.
Qed.

Lemma rstrip_cons (c : char) (s : str) :
  rstrip (c :: s)
  = if blank s then (if isspace c then [] else [c]) else c :: rstrip s.
Proof.
  change (c :: s) with ([c] ++ s). rewrite rstrip_app.
  destruct (blank s); [| reflexivity].
  unfold rstrip. cbn. now destruct (isspace c).
Qed.

Lemma rstrip_idempotent (s : str) : rstrip (rstrip s) = rstrip s.
Proof.
  unfold rstrip. now rewrite rev_involutive, lstrip_idempotent.
Qed.

(** Stripping on the right keeps a string that starts with content
    starting with it. *)
Lemma lstrip_rstrip (s : str) : lstrip s = s -> lstrip (rstrip s) = rstrip s.
Proof.
  destruct s as [|c s]; [reflexivity |]. intros H.
  assert (Hc : isspace c = false) by (eapply lstrip_first; eauto).
  rewrite rstrip_cons. destruct (blank s); rewrite ?Hc; now apply lstrip_head.
Qed.

Lemma strip_stripped (s : str) :
  lstrip (strip s) = strip s /\ rstrip (strip s) = strip s.
Proof.
  unfold strip. split.
  - apply lstrip_rstrip, lstrip_idempotent.
  - apply rstrip_idempotent.
Qed.

Lemma strip_idempotent (s : str) : strip (strip s) = strip s.
Proof.
  destruct (strip_stripped s) as [Hl Hr].
  unfold strip at 1. now rewrite Hl, Hr.
Qed.

(** The last character of a stripped string is content. *)
Lemma rstrip_last (s t : str) (c : char) :
  rstrip s = t ++ [c] -> isspace c = false.
Proof.
  unfold rstrip. intros H. apply (f_equal (@rev char)) in H.
  rewrite rev_involutive, rev_app_distr in H. cbn in H.
  eapply lstrip_first; eauto.
Qed.

(** A piece of content inside a string survives stripping: if [core]
    starts and ends with content, it still occurs after [strip]. *)
Lemma strip_keeps_core (a core b : str) :
  core <> [] -> lstrip core = core -> rstrip core = core ->
  occurs core (strip (a ++ core ++ b)).
Proof.
  intros Hne Hl Hr. unfold strip.
  assert (Hcb : forall b', lstrip (core ++ b') = core ++ b').
  { intros b'. rewrite lstrip_app.
    destruct (blank core) eqn:Hb; [| now rewrite Hl].
    apply lstrip_nil_iff in Hb. congruence. }
  assert (Hstep : exists a', lstrip (a ++ core ++ b) = a' ++ core ++ b).
  { rewrite lstrip_app. destruct (blank a).
    - exists []. apply Hcb.
    - now exists (lstrip a). }
  destruct Hstep as (a' & ->).
  rewrite app_assoc, rstrip_app. destruct (blank b).
  - rewrite rstrip_app.
    destruct (blank core) eqn:Hb.
    + apply rstrip_blank in Hb. congruence.
    + rewrite Hr. exists a', []. now rewrite app_nil_r.
  - exists a', (rstrip b). now rewrite <- app_assoc.
Qed.

Lemma strip_content (s : str) :
  blank s = false ->
  strip s <> [] /\ exists l r, s = l ++ strip s ++ r.
Proof.
  intros Hb. split; [now apply strip_not_nil_iff |].
  assert (Hl : forall x, exists l, x = l ++ lstrip x).
  { induction x as [|c x (l & IH)]; [now exists [] |].
    cbn [lstrip]. destruct (isspace c).
    - exists (c :: l). cbn. now rewrite <- IH.
    - now exists []. }
  assert (Hr : forall x, exists r, x = rstrip x ++ r).
  { intros x. destruct (Hl (rev x)) as (l & H). exists (rev l).
    unfold rstrip. rewrite <- rev_app_distr, <- H. now rewrite rev_involutive. }
  destruct (Hl s) as (l & Hs). destruct (Hr (lstrip s)) as (r & Hls).
  exists l, r. unfold strip. now rewrite <- Hls.
Qed.

(** Content that occurs in a string occurs, stripped, in the stripped
    string. *)
Lemma occurs_strip (s cur : str) :
  blank s = false -> occurs s cur -> occurs (strip s) (strip cur).
Proof.
  intros Hb (a & b & ->).
  destruct (strip_content s Hb) as (Hne & l & r & Hs).
  destruct (strip_stripped s) as [Hl Hr].
  rewrite Hs at 2.
  replace (a ++ (l ++ strip s ++ r) ++ b)
    with ((a ++ l) ++ strip s ++ (r ++ b))
    by now rewrite <- !app_assoc.
  now apply strip_keeps_core.
Qed.

End StripFacts.

(** ** Chunker, continued *)

Section ChunkerMore.

Variables chunk_size overlap : Z.

Lemma step_emits_stripped (st : state) (sentence : str) :
  Forall (fun c => strip c = c) (fst st) ->
  Forall (fun c => strip c = c) (fst (step chunk_size overlap st sentence)).
Proof.
  destruct st as [chunks cur]. unfold step. cbn [fst]. intros H.
  destruct (closes chunk_size cur sentence); cbn [fst]; [| exact H].
  apply Forall_app. split; [exact H |].
  constructor; [apply strip_idempotent | constructor].
Qed.

Lemma fold_emits_stripped (l : list str) (st : state) :
  Forall (fun c => strip c = c) (fst st) ->
  Forall (fun c => strip c = c)
         (fst (fold_left (step chunk_size overlap) l st)).
Proof.
  revert st. induction l as [|s l IH]; intros st H; cbn [fold_left]; auto.
  apply IH, step_emits_stripped, H.
Qed.

Lemma step_emits_at_most_one (st : state) (sentence : str) :
  (length (fst (step chunk_size overlap st sentence)) <= S (length (fst st)))%nat.
Proof.
  destruct st as [chunks cur]. unfold step. cbn [fst].
  destruct (closes chunk_size cur sentence); cbn [fst];
    rewrite ?length_app; cbn; lia.
Qed.

Lemma fold_emits_at_most (l : list str) (st : state) :
  (length (fst (fold_left (step chunk_size overlap) l st))
   <= length (fst st) + length l)%nat.
Proof.
  revert st. induction l as [|s l IH]; intros st; cbn [fold_left length]; [lia |].
  specialize (IH (step chunk_size overlap st s)).
  pose proof (step_emits_at_most_one st s). lia.
Qed.

(** The first unit never closes a chunk: there is no running chunk yet. *)
Lemma first_step (s : str) :
  step chunk_size overlap ([], []) s = ([], s).
Proof. unfold step, closes. cbn [truthy]. now rewrite andb_false_r. Qed.

Lemma step_keeps (st : state) (sentence s : str) :
  blank s = false -> kept st s -> kept (step chunk_size overlap st sentence) s.
Proof.
  destruct st as [chunks cur]. unfold kept, step. cbn [fst snd]. intros Hb H.
  destruct (closes chunk_size cur sentence); cbn [fst snd].
  - left. destruct H as [(c & Hc & Ho) | Ho].
    + exists c. split; [apply in_or_app; now left | exact Ho].
    + exists (strip cur). split; [apply in_or_app; right; now left |].
      now apply occurs_strip.
  - destruct H as [H | (a & b & Ho)]; [now left | right].
    destruct cur as [|x cur].
    { symmetry in Ho. apply app_eq_nil in Ho as [_ Ho].
      apply app_eq_nil in Ho as [-> _]. discriminate Hb. }
    cbn [truthy]. exists a, (b ++ delimiter ++ sentence).
    rewrite Ho. now rewrite <- !app_assoc.
Qed.

Lemma step_takes (st : state) (sentence : str) :
  kept (step chunk_size overlap st sentence) sentence.
Proof.
  destruct st as [chunks cur]. unfold kept, step. cbn [fst snd]. right.
  destruct (closes chunk_size cur sentence); cbn [snd].
  - exists (overlap_text overlap cur ++ delimiter), [].
    now rewrite app_nil_r, <- app_assoc.
  - destruct (truthy cur).
    + exists (cur ++ delimiter), []. now rewrite app_nil_r, <- app_assoc.
    + exists [], []. now rewrite app_nil_r.
Qed.

Lemma fold_keeps (l : list str) (st : state) (s : str) :
  blank s = false ->
  kept st s \/ In s l ->
  kept (fold_left (step chunk_size overlap) l st) s.
Proof.
  intros Hb. revert st. induction l as [|x l IH]; intros st H; cbn [fold_left].
  - destruct H as [H | []]. exact H.
  - apply IH. destruct H as [H | [-> | H]].
    + left. now apply step_keeps.
    + left. apply step_takes.
    + now right.
Qed.

End ChunkerMore.

(** X1.  Every chunk [chunk_text] returns is stripped: it neither
    starts nor ends with whitespace, for every text, chunk size and
    overlap. *)
Theorem chunks_are_stripped (text : str) (chunk_size overlap : Z) :
  Forall (fun c => lstrip c = c /\ rstrip c = c)
         (chunk_text text chunk_size overlap).
Proof.
  assert (H : Forall (fun c => strip c = c) (chunk_text text chunk_size overlap)).
  { destruct (blank text) eqn:Hb.
    - rewrite chunk_text_blank by exact Hb. constructor.
    - rewrite chunk_text_content by exact Hb. unfold run_loop.
      pose proof (fold_emits_stripped chunk_size overlap (sentences text)
                    ([], []) (Forall_nil _)) as Hf.
      destruct (fold_left _ _ _) as [chunks cur]. cbn [fst] in Hf.
      destruct (truthy (strip cur)); [| exact Hf].
      apply Forall_app. split; [exact Hf |].
      constructor; [apply strip_idempotent | constructor]. }
  eapply Forall_impl; [| exact H]. cbn beta. intros c Hc.
  rewrite <- Hc. apply strip_stripped.
Qed.

(** X2.  [chunk_text] never returns more chunks than the text has
    sentence-like units: the first unit opens the running chunk, every
    later unit closes at most one chunk, and the last chunk is the
    running one. *)
Theorem chunks_at_most_units (text : str) (chunk_size overlap : Z) :
  (length (chunk_text text chunk_size overlap) <= length (sentences text))%nat.
Proof.
  destruct (blank text) eqn:Hb.
  - rewrite chunk_text_blank by exact Hb. cbn. lia.
  - rewrite chunk_text_content by exact Hb. unfold run_loop.
    destruct (sentences text) as [|s l]; [cbn; lia |].
    cbn [fold_left]. rewrite first_step.
    pose proof (fold_emits_at_most chunk_size overlap l ([], s)) as Hf.
    destruct (fold_left _ _ _) as [chunks cur]. cbn [fst length] in *.
    destruct (truthy (strip cur)); rewrite ?length_app; cbn [length]; lia.
Qed.

Lemma occurs_content (s cur : str) :
  blank s = false -> occurs s cur -> blank cur = false.
Proof.
  intros Hb (a & b & ->). rewrite !blank_app, Hb.
  now rewrite andb_false_r.
Qed.

(** X3.  No content is dropped: every sentence-like unit of the text
    that is not blank occurs, stripped, in one of the chunks. *)
Theorem chunks_keep_every_unit (text : str) (chunk_size overlap : Z) (s : str) :
  In s (sentences text) ->
  blank s = false ->
  exists c, In c (chunk_text text chunk_size overlap) /\ occurs (strip s) c.
Proof.
  intros Hin Hb.
  assert (Ht : blank text = false).
  { apply content_unit_content_text, existsb_exists.
    exists s. split; [exact Hin | now rewrite Hb]. }
  rewrite chunk_text_content by exact Ht. unfold run_loop.
  pose proof (fold_keeps chunk_size overlap (sentences text) ([], []) s Hb
                (or_intror Hin)) as Hk.
  destruct (fold_left _ _ _) as [chunks cur]. unfold kept in Hk.
  cbn [fst snd] in Hk. destruct Hk as [(c & Hc & Ho) | Ho].
  - exists c. split; [| exact Ho].
    destruct (truthy (strip cur)); [apply in_or_app; now left | exact Hc].
  - pose proof (occurs_content _ _ Hb Ho) as Hcur.
    apply strip_not_nil_iff, truthy_true_iff in Hcur. rewrite Hcur.
    exists (strip cur). split; [apply in_or_app; right; now left |].
    now apply occurs_strip.
Qed.

Lemma chunks_keep_every_unit_witness :
  exists c,
    In c (chunk_text (py "Refunds take 5 days.  Contact support. Thanks") 20 5)
    /\ occurs (py "Contact support") c.
Proof.
  exact (chunks_keep_every_unit
           (py "Refunds take 5 days.  Contact support. Thanks") 20 5
           (py " Contact support") (or_intror (or_introl eq_refl)) eq_refl).
Defined.

Section RoundTrip.

Lemma split_scan_some (sep : str) (skip : nat) (s : str) :
  split_scan sep skip s <> [].
Proof.
  revert skip. induction s as [|c s IH]; intros skip; cbn [split_scan].
  - discriminate.
  - destruct skip; [| apply IH].
    destruct (startswith sep (c :: s)); [discriminate |].
    destruct (split_scan sep 0 s); discriminate.
Qed.

Lemma join_cons (sep p : str) (rest : list str) :
  rest <> [] -> join sep (p :: rest) = p ++ sep ++ join sep rest.
Proof. destruct rest; [congruence | reflexivity]. Qed.

Lemma join_push (sep : str) (c : char) (p : str) (rest : list str) :
  join sep ((c :: p) :: rest) = c :: join sep (p :: rest).
Proof. destruct rest; reflexivity. Qed.

(** Splitting and joining with the same separator gives the string
    back. *)
Lemma join_split_scan (sep : str) (s : str) :
  sep <> [] ->
  forall skip, join sep (split_scan sep skip s) = skipn skip s.
Proof.
  intros Hsep. induction s as [|c s IH]; intros skip; cbn [split_scan].
  - now destruct skip.
  - destruct skip as [|k]; [| apply IH].
    destruct (startswith sep (c :: s)) eqn:Hp.
    + rewrite join_cons by apply split_scan_some. rewrite IH.
      apply startswith_iff in Hp as (r & Hr).
      destruct sep as [|x sep]; [congruence |].
      cbn [app] in Hr. injection Hr as <- ->.
      replace (length (c :: sep) - 1)%nat with (length sep) by (cbn; lia).
      now rewrite skipn_app, skipn_all, Nat.sub_diag.
    + pose proof (split_scan_some sep 0 s) as Hne.
      specialize (IH O). destruct (split_scan sep 0 s) as [|p rest];
        [congruence |].
      rewrite join_push, IH. reflexivity.
Qed.

Lemma join_split (sep s : str) : sep <> [] -> join sep (split sep s) = s.
Proof. intros H. unfold split. now rewrite join_split_scan. Qed.

Lemma join_flat (sep p : str) (rest : list str) :
  join sep (p :: rest) = p ++ flat_map (fun s => sep ++ s) rest.
Proof.
  revert p. induction rest as [|q rest IH]; intros p.
  - cbn. now rewrite app_nil_r.
  - rewrite join_cons by discriminate. rewrite IH. cbn [flat_map].
    now rewrite <- !app_assoc.
Qed.

(** The loop on units that all fit: nothing is closed, the units are
    joined again. *)
Lemma fold_fitting (chunk_size overlap : Z) (l : list str) :
  forall chunks cur,
    cur <> [] ->
    (len (cur ++ flat_map (fun s => delimiter ++ s) l) <= chunk_size)%Z ->
    fold_left (step chunk_size overlap) l (chunks, cur)
    = (chunks, cur ++ flat_map (fun s => delimiter ++ s) l).
Proof.
  induction l as [|s l IH]; intros chunks cur Hne Hlen; cbn [fold_left flat_map].
  - now rewrite app_nil_r.
  - cbn [flat_map] in Hlen. unfold step, closes.
    assert (Hno : (len cur + len s >? chunk_size)%Z = false).
    { rewrite Z.gtb_ltb. apply Z.ltb_ge. unfold len in *.
      rewrite !length_app in Hlen. lia. }
    rewrite Hno. cbn [andb].
    apply truthy_true_iff in Hne as Ht. rewrite Ht.
    rewrite IH.
    + now rewrite <- !app_assoc.
    + destruct cur; [congruence | discriminate].
    + now rewrite <- !app_assoc.
Qed.

End RoundTrip.

(** X4.  A text that fits into one chunk comes back whole: if the text
    is not blank, does not begin with the delimiter and is no longer
    than [chunk_size], [chunk_text] returns exactly one chunk, the
    stripped text; splitting into units and joining them again loses
    nothing. *)
Theorem fitting_text_is_one_chunk (text : str) (chunk_size overlap : Z) :
  blank text = false ->
  startswith delimiter text = false ->
  (len text <= chunk_size)%Z ->
  chunk_text text chunk_size overlap = [strip text].
Proof.
  intros Hb Hstart Hlen.
  rewrite chunk_text_content by exact Hb. unfold run_loop.
  pose proof (join_split delimiter text ltac:(discriminate)) as Hjoin.
  unfold sentences in *. unfold split in *.
  destruct text as [|c text]; [discriminate Hb |].
  cbn [split_scan] in *. rewrite Hstart in *.
  pose proof (split_scan_some delimiter 0 text) as Hne.
  destruct (split_scan delimiter 0 text) as [|p rest]; [congruence |].
  cbn [fold_left]. rewrite first_step.
  rewrite join_flat in Hjoin.
  rewrite fold_fitting; [| discriminate | now rewrite Hjoin].
  rewrite Hjoin.
  apply strip_not_nil_iff, truthy_true_iff in Hb. now rewrite Hb.
Qed.

Lemma fitting_text_is_one_chunk_witness :
  chunk_text (py " Refunds take 5 days. Contact support.  ") 500 50
  = [py "Refunds take 5 days. Contact support."].
Proof.
  exact (fitting_text_is_one_chunk
           (py " Refunds take 5 days. Contact support.  ") 500 50
           eq_refl eq_refl ltac:(vm_compute; discriminate)).
Defined.

(** ** Text extractor, continued *)

Section ExtractorMore.

Import Extractor.

Variable L : libs.

Lemma process_page_plain (i : Z) (pg : page) (calls0 : list call) :
  ocr_not_due L pg = true ->
  process_page L i pg calls0
  = (Ok {| page_no := i + 1; text := get_text pg |}, calls0).
Proof.
  unfold ocr_not_due, sparse, process_page. fold min_text_len.
  intros H. apply negb_true_iff in H. now rewrite H.
Qed.

Lemma for_pages_plain (doc : list page) :
  forall (i : Z) (acc : list page_out) (calls0 : list call),
    forallb (ocr_not_due L) doc = true ->
    for_pages L i doc acc calls0 = (Ok (acc ++ text_entries i doc), calls0).
Proof.
  induction doc as [|pg doc IH]; intros i acc calls0 H; cbn [for_pages text_entries].
  - unfold ret. now rewrite app_nil_r.
  - cbn [forallb] in H. apply andb_true_iff in H as [Hpg Hdoc].
    unfold bind at 1. rewrite process_page_plain by exact Hpg.
    rewrite IH by exact Hdoc. now rewrite <- app_assoc.
Qed.

End ExtractorMore.

(** X5.  On a document where no page is due for OCR (the OCR libraries
    are not imported, or every page has at least 20 characters of
    stripped text) the extractor calls no library at all and returns
    the text layer of every page unchanged, numbered from 1. *)
Theorem extraction_without_ocr (L : Extractor.libs)
        (open : str -> reply (list Extractor.page)) (path : str)
        (doc : list Extractor.page) :
  Extractor.fitz_open L = Some open ->
  open path = Returns doc ->
  forallb (ocr_not_due L) doc = true ->
  Extractor.extract_text_from_pdf L path [] = (Ok (text_entries 0 doc), []).
Proof.
  intros Hfitz Hopen Hdue. unfold Extractor.extract_text_from_pdf.
  rewrite Hfitz. unfold bind, of_reply. rewrite Hopen. unfold ret at 1.
  now rewrite for_pages_plain.
Qed.

Lemma extraction_without_ocr_witness :
  Extractor.extract_text_from_pdf
    {| Extractor.fitz_open := Some (fun _ => Returns [text_page; scanned_page]);
       Extractor.ocr_imported := false;
       Extractor.image_to_string := fun _ _ => Fails (py "not installed") |}
    (py "scan.pdf") []
  = (Ok [ {| Extractor.page_no := 1;
             Extractor.text := py "Refund requests are handled within 5 days." |};
          {| Extractor.page_no := 2; Extractor.text := [] |} ],
     []).
Proof.
  exact (extraction_without_ocr
           {| Extractor.fitz_open := Some (fun _ => Returns [text_page; scanned_page]);
              Extractor.ocr_imported := false;
              Extractor.image_to_string := fun _ _ => Fails (py "not installed") |}
           (fun _ => Returns [text_page; scanned_page]) (py "scan.pdf")
           [text_page; scanned_page] eq_refl eq_refl eq_refl).
Defined.

(** ** Source fetcher, continued *)

Section FetcherMore.

Import Fetcher.

Lemma slice_from_app (p s : str) :
  slice_from (Z.of_nat (length p)) (p ++ s) = s.
Proof.
  unfold slice_from, len. rewrite length_app.
  destruct (Z.ltb_spec (Z.of_nat (length p)) 0); [lia |].
  rewrite Z.min_l by lia. rewrite Nat2Z.id.
  now rewrite skipn_app, skipn_all, Nat.sub_diag.
Qed.

Lemma listed_iff (file : str) (l : list str) :
  existsb (str_eqb file) l = true <-> In file l.
Proof.
  split.
  - intros H. apply existsb_exists in H as (x & Hx & Heq).
    now apply str_eqb_iff in Heq as ->.
  - intros H. apply existsb_exists. exists file.
    split; [exact H | now apply str_eqb_iff].
Qed.

(** The [file://] branch, run. *)
Lemma download_file_run (E : env) (w : world) (path : str) :
  download_from_minio E (file_scheme ++ path) w
  = (if existsb (str_eqb path) (files w)
     then Ok path
     else Raise (ValueError (py "File not found: " ++ path)),
     w).
Proof.
  unfold download_from_minio.
  rewrite startswith_app.
  change 7%Z with (Z.of_nat (length file_scheme)).
  rewrite slice_from_app.
  unfold exists_, bind, get, ret, raise.
  now destruct (existsb _ _).
Qed.

End FetcherMore.

(** X6.  A [file://] locator is resolved without any download: the
    fetch returns the path after the scheme when that path exists and
    fails with "File not found: <path>" when it does not; the file
    system and the call log stay as they were. *)
Theorem file_locator_policy (E : Fetcher.env) (w : Fetcher.world) (path : str) :
  Fetcher.download_from_minio E (Fetcher.file_scheme ++ path) w
  = (if existsb (Fetcher.str_eqb path) (Fetcher.files w)
     then Ok path
     else Raise (ValueError (py "File not found: " ++ path)),
     w)
  /\ (existsb (Fetcher.str_eqb path) (Fetcher.files w) = true
      <-> In path (Fetcher.files w)).
Proof.
  split; [apply download_file_run | apply listed_iff].
Qed.

Section FetcherBranches.

Import Fetcher.

(** The HTTP branch, spelled out. *)
Lemma download_http_unfold (E : env) (url : str) :
  startswith file_scheme url = false ->
  startswith minio_scheme url = false ->
  download_from_minio E url
  = (log (HttpGet url) ;;
     resp <- of_reply (requests_get E url) ;;
     if negb (fst resp =? 200)%Z
     then raise (ValueError (py "failed to download"))
     else
       local <- mktemp E (py ".bin") ;;
       log (WriteFile local) ;;
       create local ;;
       ret local)%eff.
Proof. intros Hf Hm. unfold download_from_minio. now rewrite Hf, Hm. Qed.

Lemma http_run (E : env) (url : str) (w : world) :
  startswith file_scheme url = false ->
  startswith minio_scheme url = false ->
  download_from_minio E url w
  = let w1 := {| files := files w; calls := calls w ++ [HttpGet url] |} in
    match requests_get E url with
    | Fails msg => (Raise (Error msg), w1)
    | Returns (status, _) =>
        if (status =? 200)%Z then
          match mktemp E (py ".bin") w1 with
          | (Ok local, _) =>
              (Ok local,
               {| files := local :: files w;
                  calls := calls w ++ [HttpGet url; WriteFile local] |})
          | (Raise e, _) => (Raise e, w1)
          end
        else (Raise (ValueError (py "failed to download")), w1)
    end.
Proof.
  intros Hf Hm. rewrite download_http_unfold by assumption.
  unfold bind, log, modify, of_reply, ret, raise, create. cbv zeta.
  destruct (requests_get E url) as [[status body]|msg]; [| reflexivity].
  cbn [fst]. destruct (status =? 200)%Z; cbn [negb]; [| reflexivity].
  destruct (mktemp_run E (py ".bin")
              {| files := files w; calls := calls w ++ [HttpGet url] |} eq_refl)
    as [(file & name & -> & _) | (-> & _)]; [| reflexivity].
  cbn. now rewrite <- app_assoc.
Qed.

End FetcherBranches.

(** X7.  A locator that is neither [file://] nor [minio://] is fetched by
    one HTTP GET.  A status other than 200 fails with "failed to
    download" and creates no file; with status 200 a successful fetch
    returns a path that did not exist before, ends in [.bin] and is
    written once, and the fetch succeeds whenever a candidate temporary
    name is free. *)
Theorem http_locator_policy (E : Fetcher.env) (w : Fetcher.world) (url : str) :
  startswith Fetcher.file_scheme url = false ->
  startswith Fetcher.minio_scheme url = false ->
  let run := Fetcher.download_from_minio E url w in
  (forall status body,
      Fetcher.requests_get E url = Returns (status, body) ->
      status <> 200%Z ->
      run = (Raise (ValueError (py "failed to download")),
             {| Fetcher.files := Fetcher.files w;
                Fetcher.calls := Fetcher.calls w ++ [Fetcher.HttpGet url] |}))
  /\ (forall body local,
         Fetcher.requests_get E url = Returns (200%Z, body) ->
         fst run = Ok local ->
         Fetcher.endswith (py ".bin") local = true
         /\ ~ In local (Fetcher.files w)
         /\ snd run
            = {| Fetcher.files := local :: Fetcher.files w;
                 Fetcher.calls :=
                   Fetcher.calls w
                   ++ [Fetcher.HttpGet url; Fetcher.WriteFile local] |})
  /\ (forall body name,
         Fetcher.requests_get E url = Returns (200%Z, body) ->
         In name (Fetcher.candidate_names E) ->
         ~ In (Fetcher.temp_path E (py ".bin") name) (Fetcher.files w) ->
         exists local, fst run = Ok local).
Proof.
  intros Hf Hm. cbv zeta. rewrite http_run by assumption. cbv zeta.
  split; [| split].
  - intros status body -> Hs. apply Z.eqb_neq in Hs. now rewrite Hs.
  - intros body local -> . cbn [Z.eqb Pos.eqb].
    destruct (mktemp_run E (py ".bin")
                {| Fetcher.files := Fetcher.files w;
                   Fetcher.calls := Fetcher.calls w ++ [Fetcher.HttpGet url] |} eq_refl)
      as [(file & name & -> & Hname & Hfile & Hfree) | (-> & _)];
      cbn [fst snd]; [| discriminate].
    intros [= <-]. subst file. repeat split.
    + apply temp_path_suffix.
    + exact Hfree.
  - intros body name -> Hname Hfree. cbn [Z.eqb Pos.eqb].
    destruct (mktemp_run E (py ".bin")
                {| Fetcher.files := Fetcher.files w;
                   Fetcher.calls := Fetcher.calls w ++ [Fetcher.HttpGet url] |} eq_refl)
      as [(file & name' & -> & _) | (_ & Hall)]; cbn [fst]; [eauto |].
    exfalso. apply Hfree, (Hall name Hname).
Qed.

Lemma http_locator_policy_witness :
  Fetcher.endswith (py ".bin") (py "/tmp/tmpa1b2c3d4.bin") = true
  /\ ~ In (py "/tmp/tmpa1b2c3d4.bin") (Fetcher.files fetch_world)
  /\ snd (Fetcher.download_from_minio web_env
            (py "https://example.org/handbook.pdf") fetch_world)
     = {| Fetcher.files := py "/tmp/tmpa1b2c3d4.bin" :: Fetcher.files fetch_world;
          Fetcher.calls :=
            Fetcher.calls fetch_world
            ++ [Fetcher.HttpGet (py "https://example.org/handbook.pdf");
                Fetcher.WriteFile (py "/tmp/tmpa1b2c3d4.bin")] |}.
Proof.
  exact (proj1 (proj2 (http_locator_policy web_env fetch_world
                         (py "https://example.org/handbook.pdf")
                         eq_refl eq_refl))
           [37%N; 80%N; 68%N; 70%N] (py "/tmp/tmpa1b2c3d4.bin")
           eq_refl eq_refl).
Defined.

(** X8.  The fetch never removes or replaces a file.  When it succeeds
    the returned path exists afterwards, and the file system is either
    unchanged (the path was there: a [file://] locator) or larger by
    exactly this path, which did not exist before.  When it fails the
    file system is unchanged. *)
Theorem fetch_creates_at_most_one_file (E : Fetcher.env) (w : Fetcher.world)
        (url : str) :
  let run := Fetcher.download_from_minio E url w in
  match fst run with
  | Ok local =>
      (Fetcher.files (snd run) = Fetcher.files w /\ In local (Fetcher.files w))
      \/ (Fetcher.files (snd run) = local :: Fetcher.files w
          /\ ~ In local (Fetcher.files w))
  | Raise _ => Fetcher.files (snd run) = Fetcher.files w
  end.
Proof.
  cbv zeta.
  destruct (startswith Fetcher.file_scheme url) eqn:Hf.
  - apply startswith_iff in Hf as (path & ->).
    rewrite download_file_run. cbn [fst snd].
    destruct (existsb _ _) eqn:Hex; [| reflexivity].
    left. split; [reflexivity | now apply listed_iff].
  - destruct (startswith Fetcher.minio_scheme url) eqn:Hm.
    + apply startswith_iff in Hm as (path & ->).
      rewrite download_minio_unfold. unfold split_max1.
      destruct (find [Fetcher.slash] path) as [i|]; [| reflexivity].
      destruct (fst (fetch_object E _ _ w)) as [local|e] eqn:Hrun.
      * right. apply fetch_object_ok in Hrun as (_ & Hfree & Hfiles & _).
        now split.
      * eapply fetch_object_raise; eauto.
    + rewrite http_run by assumption. cbv zeta.
      destruct (Fetcher.requests_get E url) as [[status body]|msg];
        [| reflexivity].
      destruct (status =? 200)%Z; [| reflexivity].
      destruct (mktemp_run E (py ".bin")
                  {| Fetcher.files := Fetcher.files w;
                     Fetcher.calls := Fetcher.calls w ++ [Fetcher.HttpGet url] |} eq_refl)
        as [(file & name & -> & _ & _ & Hfree) | (-> & _)];
        cbn [fst snd]; [| reflexivity].
      right. now split.
Qed.

(** ** Retrieval and answer, continued *)

Section Frames.

Import Store Service Answer.

Lemma only_logs_ret {A} (a : A) : only_logs (ret a).
Proof. intros w. exists []. cbn. rewrite app_nil_r. now destruct w. Qed.

Lemma only_logs_raise {A} (e : exn) : only_logs (@raise world A e).
Proof. intros w. exists []. cbn. rewrite app_nil_r. now destruct w. Qed.

Lemma only_logs_get : only_logs (@get world).
Proof. intros w. exists []. cbn. rewrite app_nil_r. now destruct w. Qed.

Lemma only_logs_log (c : call) : only_logs (log c).
Proof. intros w. now exists [c]. Qed.

Lemma only_logs_of_reply {A} (r : reply A) : only_logs (@of_reply world A r).
Proof. destruct r; [apply only_logs_ret | apply only_logs_raise]. Qed.

Lemma only_logs_bind {A B} (m : M world A) (k : A -> M world B) :
  only_logs m -> (forall a, only_logs (k a)) -> only_logs (bind m k).
Proof.
  intros Hm Hk w. unfold bind. destruct (Hm w) as (evs & Hw).
  destruct (m w) as [[a|e] w1]; cbn [snd] in *.
  - destruct (Hk a w1) as (evs' & Hw'). exists (evs ++ evs').
    rewrite Hw'. subst w1. cbn. now rewrite app_assoc.
  - now exists evs.
Qed.

Lemma only_logs_try {A} (m : M world A) (h : exn -> M world A) :
  only_logs m -> (forall e, only_logs (h e)) -> only_logs (try_except m h).
Proof.
  intros Hm Hh w. unfold try_except. destruct (Hm w) as (evs & Hw).
  destruct (m w) as [[a|e] w1]; cbn [snd] in *.
  - now exists evs.
  - destruct (Hh e w1) as (evs' & Hw'). exists (evs ++ evs').
    rewrite Hw'. subst w1. cbn. now rewrite app_assoc.
Qed.

Lemma raises_only_ret {W A} (P : exn -> Prop) (a : A) :
  raises_only P (@ret W A a).
Proof. intros w e H. discriminate H. Qed.

Lemma raises_only_raise {W A} (P : exn -> Prop) (e : exn) :
  P e -> raises_only P (@raise W A e).
Proof. intros H w e' [= <-]. exact H. Qed.

Lemma raises_only_modify {W} (P : exn -> Prop) (f : W -> W) :
  raises_only P (modify f).
Proof. intros w e H. discriminate H. Qed.

Lemma raises_only_get {W} (P : exn -> Prop) : raises_only P (@get W).
Proof. intros w e H. discriminate H. Qed.

Lemma raises_only_of_reply {W A} (P : exn -> Prop) (r : reply A) :
  (forall msg, P (Error msg)) -> raises_only P (@of_reply W A r).
Proof.
  intros H. destruct r; [apply raises_only_ret | apply raises_only_raise, H].
Qed.

Lemma raises_only_bind {W A B} (P : exn -> Prop) (m : M W A) (k : A -> M W B) :
  raises_only P m -> (forall a, raises_only P (k a)) ->
  raises_only P (bind m k).
Proof.
  intros Hm Hk w e. unfold bind. specialize (Hm w).
  destruct (m w) as [[a|e0] w1]; cbn [fst] in *.
  - apply Hk.
  - intros [= <-]. now apply Hm.
Qed.

Lemma raises_only_try {W A} (P : exn -> Prop) (m : M W A) (h : exn -> M W A) :
  (forall e, raises_only P (h e)) -> raises_only P (try_except m h).
Proof.
  intros Hh w e. unfold try_except.
  destruct (m w) as [[a|e0] w1]; cbn [fst]; [discriminate | apply Hh].
Qed.

End Frames.

Ltac frame :=
  repeat first
    [ apply only_logs_ret | apply only_logs_raise | apply only_logs_log
    | apply only_logs_get | apply only_logs_of_reply
    | apply only_logs_bind; [| intros ?]
    | apply only_logs_try; [| intros ?]
    | match goal with
      | |- only_logs (if ?b then _ else _) => destruct b
      | |- only_logs (match ?x with _ => _ end) => destruct x
      end ].

Ltac raising :=
  repeat first
    [ apply raises_only_ret | apply raises_only_modify | apply raises_only_get
    | apply raises_only_of_reply; intros ?; unfold qa_try_exn; eauto
    | apply raises_only_raise; unfold qa_try_exn; now eauto
    | apply raises_only_try; intros ?
    | apply raises_only_bind; [| intros ?]
    | match goal with
      | |- raises_only _ (if ?b then _ else _) => destruct b
      | |- raises_only _ (match ?x with _ => _ end) => destruct x
      end ].

Section AnswerMore.

Import Store Service Answer.

Lemma qa_try_only_logs (E : env) (inp : QaIn) : only_logs (qa_try E inp).
Proof.
  unfold qa_try, pg_connect, sql_count_chunks, sql_select_document,
    sql_select_chunks, respond, generate_ai_response.
  frame.
Qed.

Lemma qa_only_logs (E : env) (inp : QaIn) : only_logs (qa E inp).
Proof.
  unfold qa. apply only_logs_try; [apply qa_try_only_logs |].
  intros e. destruct e; apply only_logs_raise.
Qed.

Lemma qa_try_raises (E : env) (inp : QaIn) :
  raises_only qa_try_exn (qa_try E inp).
Proof.
  unfold qa_try, pg_connect, sql_count_chunks, sql_select_document,
    sql_select_chunks, respond, generate_ai_response, log.
  raising.
Qed.

End AnswerMore.

(** X9.  [qa] never changes the store: whatever the request, the
    environment and the outcome, the database and the open transaction
    are as before, and the calls made so far are only extended. *)
Theorem qa_is_read_only (E : Service.env) (inp : Answer.QaIn) (w : Service.world) :
  Service.database (snd (Answer.qa E inp w)) = Service.database w
  /\ Service.pending (snd (Answer.qa E inp w)) = Service.pending w
  /\ exists evs,
      Service.calls (snd (Answer.qa E inp w)) = Service.calls w ++ evs.
Proof.
  destruct (qa_only_logs E inp w) as (evs & ->). cbn. eauto.
Qed.

(** X10.  Every failure of [qa] is an HTTP error of one of two kinds:
    status 422 with "Query cannot be empty", or status 500; no other
    exception leaves the endpoint. *)
Theorem qa_fails_with_422_or_500 (E : Service.env) (inp : Answer.QaIn)
        (w : Service.world) (e : exn) :
  fst (Answer.qa E inp w) = Raise e ->
  e = HTTPException 422 Answer.msg_empty_query
  \/ exists detail, e = HTTPException 500 detail.
Proof.
  unfold Answer.qa, try_except.
  pose proof (qa_try_raises E inp w) as Hraise.
  destruct (Answer.qa_try E inp w) as [[out|e0] w0]; cbn [fst] in *;
    [discriminate |].
  destruct (Hraise e0 eq_refl) as [-> | [-> | (msg & ->)]];
    unfold raise; cbn [fst]; intros [= <-]; eauto.
Qed.

Lemma qa_fails_with_422_or_500_witness :
  HTTPException 500 (py "Q&A processing failed: connection refused")
  = HTTPException 422 Answer.msg_empty_query
  \/ exists detail,
      HTTPException 500 (py "Q&A processing failed: connection refused")
      = HTTPException 500 detail.
Proof.
  exact (qa_fails_with_422_or_500
           {| Service.psycopg2 := Some (Fails (py "connection refused"));
              Service.gemini_model := None |}
           (ask "refund policy" None) (world_of handbook_db)
           (HTTPException 500 (py "Q&A processing failed: connection refused"))
           eq_refl).
Defined.

Section Validation.

Import Store Service Answer.

Lemma length_lstrip (s : str) : (length (lstrip s) <= length s)%nat.
Proof.
  induction s as [|c s IH]; cbn [lstrip]; [lia |].
  destruct (isspace c); cbn [length]; lia.
Qed.

Lemma length_strip (s : str) : (length (strip s) <= length s)%nat.
Proof.
  unfold strip, rstrip. rewrite length_rev.
  pose proof (length_lstrip (rev (lstrip s))) as H1.
  rewrite length_rev in H1. pose proof (length_lstrip s). lia.
Qed.

Lemma blank_query_invalid (q : str) :
  blank q = true ->
  (negb (truthy q) || negb (truthy (strip q)))%bool = true.
Proof.
  intros H. apply strip_nil_iff in H. rewrite H. apply orb_true_r.
Qed.

Lemma short_tokens_no_terms (q : str) :
  Forall (fun word => (length word <= 1)%nat) (split_ws q) ->
  query_words q = [].
Proof.
  intros H. unfold query_words.
  induction H as [|word l Hw _ IH]; [reflexivity |].
  cbn [filter]. replace (len (strip word) >? 1)%Z with false; [exact IH |].
  symmetry. rewrite Z.gtb_ltb. apply Z.ltb_ge. unfold len.
  pose proof (length_strip word). lia.
Qed.

End Validation.

(** X11.  An empty or whitespace-only query is rejected with status 422
    and "Query cannot be empty" before anything else happens: no
    database connection is opened and no call is made, whatever the
    environment. *)
Theorem blank_query_is_rejected (E : Service.env) (inp : Answer.QaIn)
        (w : Service.world) :
  blank (Answer.query inp) = true ->
  Answer.qa E inp w = (Raise (HTTPException 422 Answer.msg_empty_query), w).
Proof.
  intros H. unfold Answer.qa, try_except, Answer.qa_try.
  now rewrite blank_query_invalid.
Qed.

Lemma blank_query_is_rejected_witness :
  Answer.qa {| Service.psycopg2 := None; Service.gemini_model := None |}
    (ask "   " (Some 1%Z)) (world_of handbook_db)
  = (Raise (HTTPException 422 Answer.msg_empty_query), world_of handbook_db).
Proof.
  exact (blank_query_is_rejected
           {| Service.psycopg2 := None; Service.gemini_model := None |}
           (ask "   " (Some 1%Z)) (world_of handbook_db) eq_refl).
Defined.

(** X12.  A query that is not blank but whose whitespace-separated
    tokens all have at most one character gets, with the database
    reachable, the successful "more specific question" response without
    citations; the connection is the only call made, so neither the
    store nor the language model is consulted. *)
Theorem single_character_query (E : Service.env) (inp : Answer.QaIn)
        (w : Service.world) :
  Service.psycopg2 E = Some (Returns tt) ->
  blank (Answer.query inp) = false ->
  Forall (fun word => (length word <= 1)%nat) (split_ws (Answer.query inp)) ->
  Answer.qa E inp w = (Ok more_specific_response, logged w Service.Connect).
Proof.
  intros HE Hb Hshort. unfold Answer.qa, try_except, Answer.qa_try.
  replace (negb (truthy (Answer.query inp))
           || negb (truthy (strip (Answer.query inp))))%bool with false.
  - rewrite bind_run, pg_connect_run by exact HE.
    now rewrite short_tokens_no_terms.
  - symmetry. apply orb_false_iff. split; apply negb_false_iff, truthy_true_iff.
    + intros Hq. rewrite Hq in Hb. discriminate Hb.
    + now apply strip_not_nil_iff.
Qed.

Lemma single_character_query_witness :
  Answer.qa plain_env (ask "a b ?" None) (world_of handbook_db)
  = (Ok more_specific_response, logged (world_of handbook_db) Service.Connect).
Proof.
  apply (single_character_query plain_env (ask "a b ?" None)
           (world_of handbook_db)).
  - reflexivity.
  - reflexivity.
  - vm_compute. repeat constructor.
Defined.

Section SearchFacts.

Import Store Service Answer.

(** The [try] block up to the search, for an unscoped request with a
    usable term on a store with chunks. *)
Lemma qa_try_unscoped (E : env) (w : world) (inp : QaIn) :
  psycopg2 E = Some (Returns tt) ->
  query_words (query inp) <> [] ->
  chunks (database w) <> [] ->
  scope_of (documentId inp) = None ->
  qa_try E inp w
  = bind (sql_select_chunks None
            (map pattern_of (query_words (query inp))) (top_k inp))
         (respond E (query inp))
         (logged (logged w Connect) (Execute CountChunks)).
Proof.
  intros HE Hwords Hchunks Hscope. unfold qa_try.
  rewrite (usable_terms_valid _ Hwords), Hscope.
  rewrite bind_run, (pg_connect_run _ _ HE).
  destruct (query_words (query inp)) as [|t ts]; [contradiction |].
  rewrite bind_run, sql_count_chunks_run. unfold logged at 1. cbn [database].
  now rewrite (count_chunks_nonzero _ Hchunks).
Qed.

Lemma split_ws_chars (s : str) (word : str) (c : char) :
  In word (split_ws s) -> In c word -> In c s.
Proof.
  revert word. induction s as [|x s IH]; intros word Hw Hc; cbn [split_ws] in Hw.
  - destruct Hw.
  - destruct (isspace x); [right; eapply IH; eauto |].
    destruct s as [|d s'].
    + destruct Hw as [<- | []]. exact Hc.
    + destruct (isspace d).
      * destruct Hw as [<- | Hw]; [| right; eapply IH; eauto].
        destruct Hc as [<- | []]. now left.
      * destruct (split_ws (d :: s')) as [|w0 ws] eqn:Hs.
        -- destruct Hw as [<- | []]. destruct Hc as [<- | []]. now left.
        -- destruct Hw as [<- | Hw].
           ++ destruct Hc as [<- | Hc]; [now left | right].
              apply (IH w0); [now left | exact Hc].
           ++ right. apply (IH word); [now right | exact Hc].
Qed.

Lemma lstrip_chars (s : str) (c : char) : In c (lstrip s) -> In c s.
Proof.
  induction s as [|x s IH]; cbn [lstrip]; [tauto |].
  destruct (isspace x); [intros H; right; now apply IH | tauto].
Qed.

Lemma strip_chars (s : str) (c : char) : In c (strip s) -> In c s.
Proof.
  unfold strip, rstrip. intros H.
  apply in_rev, lstrip_chars, in_rev in H. now apply lstrip_chars.
Qed.

Lemma lower_nul (s : str) : In 0%N (lower s) -> In 0%N s.
Proof.
  unfold lower. intros H. apply in_map_iff in H as (c & Hc & Hin).
  replace c with 0%N in Hin; [exact Hin |].
  unfold lower_char in Hc. destruct (_ || _)%bool; lia.
Qed.

(** A query without NUL character gives parameters without. *)
Lemma patterns_without_nul (q : str) :
  ~ In 0%N q ->
  existsb (existsb (N.eqb 0)) (map pattern_of (query_words q)) = false.
Proof.
  intros Hq. apply not_true_iff_false. intros H.
  apply existsb_exists in H as (p & Hp & Hnul).
  apply existsb_exists in Hnul as (c & Hc & Heq).
  apply N.eqb_eq in Heq as <-.
  apply in_map_iff in Hp as (term & <- & Hterm).
  unfold query_words in Hterm.
  apply in_map_iff in Hterm as (word & <- & Hword).
  apply filter_In in Hword as [Hword _].
  unfold pattern_of in Hc. cbn [app] in Hc.
  destruct Hc as [Hc | Hc]; [discriminate Hc |].
  apply in_app_or in Hc as [Hc | [Hc | []]]; [| discriminate Hc].
  apply Hq. eapply split_ws_chars; [exact Hword |].
  now apply lower_nul, strip_chars.
Qed.

(** A pattern that ends in [%] is never rejected: an escaped [%] at
    its end is a literal. *)
Lemma parse_like_trailing_percent (n : nat) :
  forall s, (length s <= n)%nat -> parse_like (s ++ [percent]) <> None.
Proof.
  induction n as [|n IH]; intros s Hlen.
  - destruct s; [discriminate | cbn in Hlen; lia].
  - destruct s as [|c s]; [discriminate |].
    cbn [app parse_like]. cbn [length] in Hlen.
    assert (Hs : parse_like (s ++ [percent]) <> None) by (apply IH; lia).
    destruct (N.eqb c percent);
      [destruct (parse_like (s ++ [percent])); [discriminate | congruence] |].
    destruct (N.eqb c underscore);
      [destruct (parse_like (s ++ [percent])); [discriminate | congruence] |].
    destruct (N.eqb c backslash);
      [| destruct (parse_like (s ++ [percent])); [discriminate | congruence]].
    destruct s as [|d s]; [discriminate |]. cbn [app].
    assert (Hs' : parse_like (s ++ [percent]) <> None)
      by (apply IH; cbn [length] in Hlen; lia).
    destruct (parse_like (s ++ [percent])); [discriminate | congruence].
Qed.

Lemma patterns_parse (terms : list str) :
  parse_all (map pattern_of terms) <> None.
Proof.
  induction terms as [|t terms IH]; [discriminate |].
  cbn [map parse_all].
  assert (Ht : parse_like (lower (pattern_of t)) <> None).
  { unfold pattern_of, lower. rewrite app_assoc, map_app. cbn [map].
    change (lower_char percent) with percent.
    eapply parse_like_trailing_percent. reflexivity. }
  destruct (parse_like (lower (pattern_of t))); [| congruence].
  destruct (parse_all (map pattern_of terms)); [discriminate | congruence].
Qed.

End SearchFacts.

(** X13.  The document scope.  With a scope identifier other than zero
    every citation of a response carries that identifier: chunks of
    other documents are never cited.  The identifier zero counts as no
    scope at all: the request is answered exactly like the unscoped
    one. *)
Theorem scope_restricts_citations (E : Service.env) (w : Service.world)
        (inp : Answer.QaIn) :
  (forall id out w',
      Answer.documentId inp = Some id -> id <> 0%Z ->
      Answer.qa E inp w = (Ok out, w') ->
      Forall (fun c => Answer.cit_documentId c = id) (Answer.citations out))
  /\ (Answer.documentId inp = Some 0%Z ->
      Answer.qa E inp w
      = Answer.qa E {| Answer.query := Answer.query inp;
                       Answer.documentId := None;
                       Answer.top_k := Answer.top_k inp |} w).
Proof.
  split.
  - intros id out w' Hid Hnz Hrun.
    apply qa_ok_try, qa_try_rows in Hrun as [-> | (rows & Hsel & ->)];
      [constructor |].
    rewrite Hid, scope_of_nonzero in Hsel by exact Hnz.
    apply select_chunks_returns in Hsel as (_ & _ & Hall).
    apply Forall_map. eapply Forall_impl; [| exact Hall]. cbn beta.
    intros r (_ & Hscope & _). cbn in *. now apply Z.eqb_eq in Hscope.
  - intros Hzero. unfold Answer.qa, Answer.qa_try. cbn [Answer.query
      Answer.documentId Answer.top_k]. now rewrite Hzero.
Qed.

Lemma scope_restricts_citations_witness :
  Forall (fun c => Answer.cit_documentId c = 1%Z) [Answer.cite refund_chunk].
Proof.
  exact (proj1 (scope_restricts_citations plain_env (world_of handbook_db)
                  (ask "refund policy" (Some 1%Z)))
           1%Z
           {| Answer.answer :=
                py "AI service not available. Please check configuration.";
              Answer.citations := [Answer.cite refund_chunk] |}
           (snd (Answer.qa plain_env (ask "refund policy" (Some 1%Z))
                   (world_of handbook_db)))
           eq_refl ltac:(discriminate) ltac:(vm_compute; reflexivity)).
Defined.

(** X14.  The result cap at its edges, for an unscoped request with a
    usable term and no NUL character, on a reachable store with chunks:
    a negative [top_k] fails the request with status 500 ("Q&A
    processing failed: ..."), and [top_k = 0] gives the "nothing
    relevant found" response without citations, whatever the store
    holds; the language model is not consulted in either case. *)
Theorem result_cap_edges (E : Service.env) (w : Service.world)
        (inp : Answer.QaIn) :
  Service.psycopg2 E = Some (Returns tt) ->
  Answer.query_words (Answer.query inp) <> [] ->
  Store.chunks (Service.database w) <> [] ->
  Answer.scope_of (Answer.documentId inp) = None ->
  ~ In 0%N (Answer.query inp) ->
  let searched :=
    logged (logged (logged w Service.Connect) (Service.Execute Store.CountChunks))
      (Service.Execute
         (Store.SelectChunks None
            (map Answer.pattern_of (Answer.query_words (Answer.query inp)))
            (Answer.top_k inp))) in
  ((Answer.top_k inp < 0)%Z ->
   exists detail,
     Answer.qa E inp w
     = (Raise (HTTPException 500 (py "Q&A processing failed: " ++ detail)),
        searched))
  /\ (Answer.top_k inp = 0%Z ->
      Answer.qa E inp w = (Ok no_match_response, searched)).
Proof.
  intros HE Hwords Hchunks Hscope Hnul. cbv zeta.
  unfold Answer.qa, try_except.
  rewrite (qa_try_unscoped _ _ _ HE Hwords Hchunks Hscope).
  rewrite bind_run, sql_select_chunks_run.
  unfold logged at 1 2 4 5. cbn [Service.database].
  unfold Store.select_chunks. rewrite (patterns_without_nul _ Hnul).
  split.
  - intros Hneg. apply Z.ltb_lt in Hneg. rewrite Hneg.
    eexists. reflexivity.
  - intros Hzero. rewrite Hzero. cbn [Z.ltb Z.gtb Z.compare].
    pose proof (patterns_parse (Answer.query_words (Answer.query inp))) as Hp.
    destruct (Store.parse_all _); [| congruence]. reflexivity.
Qed.

Lemma result_cap_edges_witness :
  Answer.qa plain_env
    {| Answer.query := py "refund policy"; Answer.documentId := None;
       Answer.top_k := 0 |}
    (world_of handbook_db)
  = (Ok no_match_response,
     logged (logged (logged (world_of handbook_db) Service.Connect)
               (Service.Execute Store.CountChunks))
       (Service.Execute
          (Store.SelectChunks None [py "%refund%"; py "%policy%"] 0))).
Proof.
  refine (proj2 (result_cap_edges plain_env (world_of handbook_db)
                   {| Answer.query := py "refund policy";
                      Answer.documentId := None; Answer.top_k := 0 |}
                   eq_refl _ _ eq_refl _) eq_refl).
  - vm_compute. discriminate.
  - discriminate.
  - vm_compute. intuition discriminate.
Defined.

Section RetrievalFacts.

Import Store Service Answer.

(** The [try] block up to the search, for a request with a usable term
    and a scope that is absent or known, on a store with chunks. *)
Lemma qa_try_search (E : env) (w : world) (inp : QaIn) :
  psycopg2 E = Some (Returns tt) ->
  query_words (query inp) <> [] ->
  chunks (database w) <> [] ->
  scope_known (database w) (scope_of (documentId inp)) ->
  qa_try E inp w
  = bind (sql_select_chunks (scope_of (documentId inp))
            (map pattern_of (query_words (query inp))) (top_k inp))
         (respond E (query inp))
         (before_search w (scope_of (documentId inp))).
Proof.
  intros HE Hwords Hchunks Hknown. unfold qa_try.
  rewrite (usable_terms_valid _ Hwords).
  rewrite bind_run, (pg_connect_run _ _ HE).
  destruct (query_words (query inp)) as [|t ts]; [contradiction |].
  rewrite bind_run, sql_count_chunks_run. unfold logged at 1. cbn [database].
  rewrite (count_chunks_nonzero _ Hchunks).
  destruct (scope_of (documentId inp)) as [id|]; [| reflexivity].
  rewrite bind_run, sql_select_document_run. unfold logged at 1 2.
  cbn [database]. cbn in Hknown.
  now destruct (select_document (database w) id).
Qed.

Lemma before_search_database (w : world) (scope : option Z) :
  database (before_search w scope) = database w.
Proof. now destruct scope. Qed.

(** Plain terms parse to infix patterns. *)
Lemma parse_all_plain (terms : list str) :
  forallb plain terms = true ->
  parse_all (map pattern_of terms)
  = Some (map (fun term => AnyString :: map Literal (lower term) ++ [AnyString])
              terms).
Proof.
  induction terms as [|t terms IH]; [reflexivity |].
  cbn [forallb map parse_all]. intros H.
  apply andb_true_iff in H as [Ht Hrest].
  now rewrite (parse_pattern_of_plain _ Ht), (IH Hrest).
Qed.

Lemma any_like_plain (terms : list str) (text : str) :
  any_like
    (map (fun term => AnyString :: map Literal (lower term) ++ [AnyString]) terms)
    text
  = existsb (fun term => ci_contains term text) terms.
Proof.
  unfold any_like. induction terms as [|t terms IH]; [reflexivity |].
  cbn [map existsb]. now rewrite like_infix, IH.
Qed.

(** The search statement for plain terms: a scan of the chunk table in
    storage order, cut after [limit] rows. *)
Lemma select_chunks_plain (d : db) (scope : option Z) (terms : list str)
      (limit : Z) :
  existsb (existsb (N.eqb 0)) (map pattern_of terms) = false ->
  forallb plain terms = true ->
  (0 <= limit <= max_bigint)%Z ->
  select_chunks d scope (map pattern_of terms) limit
  = Returns (firstn (Z.to_nat limit) (filter (matching scope terms) (chunks d))).
Proof.
  intros Hnul Hplain [Hlo Hhi]. unfold select_chunks. rewrite Hnul.
  apply Z.ltb_ge in Hlo. rewrite Hlo.
  replace (limit >? max_bigint)%Z with false
    by (symmetry; rewrite Z.gtb_ltb; now apply Z.ltb_ge).
  rewrite (parse_all_plain _ Hplain). do 2 f_equal.
  apply filter_ext. intros r. unfold matching. now rewrite any_like_plain.
Qed.

(** The answer step on rows that were found. *)
Lemma respond_run (E : env) (q : str) (rows : list chunk_row) (w : world) :
  rows <> [] ->
  respond E q rows w
  = (Ok {| answer := fst (answer_of E q rows); citations := map cite rows |},
     {| database := database w; pending := pending w;
        calls := calls w ++ snd (answer_of E q rows) |}).
Proof.
  intros Hrows. destruct rows as [|r rows]; [contradiction |].
  unfold respond, answer_of, generate_ai_response, prompt_of, context_of.
  unfold try_except, bind, log, modify, of_reply, ret, raise.
  destruct (gemini_model E) as [g|]; cbn [fst snd database pending calls];
    [| reflexivity].
  destruct (g _); cbn [fst snd database pending calls str_of_exn];
    now rewrite <- app_assoc.
Qed.

End RetrievalFacts.

(** X15.  What a search with plain terms cites.  For a request without
    NUL character whose terms have no LIKE metacharacter, with
    [0 <= top_k] within the range of the LIMIT clause and a scope that
    is absent or known, on a reachable store with chunks, the query and
    the stored texts being in Basic Latin and Latin-1: the request
    succeeds, and its citations are those of the first [top_k] chunks,
    in storage order, that lie within the scope and contain at least
    one of the terms case-insensitively.  A chunk with several terms is
    cited once, and chunks are not ranked by the number of terms. *)
Theorem plain_terms_citations (E : Service.env) (w : Service.world)
        (inp : Answer.QaIn) :
  let scope := Answer.scope_of (Answer.documentId inp) in
  let terms := Answer.query_words (Answer.query inp) in
  Service.psycopg2 E = Some (Returns tt) ->
  terms <> [] ->
  Store.chunks (Service.database w) <> [] ->
  scope_known (Service.database w) scope ->
  ~ In 0%N (Answer.query inp) ->
  latin1 (Answer.query inp) = true ->
  forallb (fun r => latin1 (Store.ch_text r))
          (Store.chunks (Service.database w)) = true ->
  forallb plain terms = true ->
  (0 <= Answer.top_k inp <= Store.max_bigint)%Z ->
  exists out w',
    Answer.qa E inp w = (Ok out, w')
    /\ Answer.citations out
       = map Answer.cite
           (firstn (Z.to_nat (Answer.top_k inp))
              (filter (matching scope terms)
                 (Store.chunks (Service.database w)))).
Proof.
  cbv zeta. intros HE Hterms Hchunks Hknown Hnul _ _ Hplain Hk.
  unfold Answer.qa, try_except.
  rewrite (qa_try_search _ _ _ HE Hterms Hchunks Hknown).
  rewrite bind_run, sql_select_chunks_run, before_search_database.
  rewrite (select_chunks_plain _ _ _ _ (patterns_without_nul _ Hnul) Hplain Hk).
  destruct (respond_total E (Answer.query inp)
              (firstn (Z.to_nat (Answer.top_k inp))
                 (filter (matching (Answer.scope_of (Answer.documentId inp))
                            (Answer.query_words (Answer.query inp)))
                    (Store.chunks (Service.database w))))
              (logged (before_search w (Answer.scope_of (Answer.documentId inp)))
                 (Service.Execute
                    (Store.SelectChunks (Answer.scope_of (Answer.documentId inp))
                       (map Answer.pattern_of
                          (Answer.query_words (Answer.query inp)))
                       (Answer.top_k inp)))))
    as (a & w' & ->).
  eexists _, w'. split; reflexivity.
Qed.

Lemma plain_terms_citations_witness :
  exists out w',
    Answer.qa plain_env (ask "Refund ABC" None) (world_of handbook_db)
    = (Ok out, w')
    /\ Answer.citations out
       = map Answer.cite
           (firstn (Z.to_nat Answer.default_top_k)
              (filter (matching None [py "refund"; py "abc"])
                 [abc_chunk; refund_chunk])).
Proof.
  refine (plain_terms_citations plain_env (world_of handbook_db)
            (ask "Refund ABC" None) eq_refl _ _ I _ eq_refl eq_refl eq_refl _).
  - discriminate.
  - discriminate.
  - vm_compute. intuition discriminate.
  - vm_compute. split; discriminate.
Defined.

(** X16.  The language model cannot fail a request.  When the search of
    a request returns rows, the request succeeds with the citations of
    these rows whatever the model does: without a configured model the
    answer is the "AI service not available" text, with a model that
    answers it is the model's text, and with a model that raises it is
    an apology that quotes the error.  The model is asked once, with
    the original query and the rows joined by blank lines. *)
Theorem model_failure_keeps_citations (E : Service.env) (w : Service.world)
        (inp : Answer.QaIn) (rows : list Store.chunk_row) :
  let scope := Answer.scope_of (Answer.documentId inp) in
  let params := map Answer.pattern_of (Answer.query_words (Answer.query inp)) in
  Service.psycopg2 E = Some (Returns tt) ->
  Answer.query_words (Answer.query inp) <> [] ->
  Store.chunks (Service.database w) <> [] ->
  scope_known (Service.database w) scope ->
  Store.select_chunks (Service.database w) scope params (Answer.top_k inp)
  = Returns rows ->
  rows <> [] ->
  Answer.qa E inp w
  = (Ok {| Answer.answer := fst (answer_of E (Answer.query inp) rows);
           Answer.citations := map Answer.cite rows |},
     {| Service.database := Service.database w;
        Service.pending := Service.pending w;
        Service.calls :=
          Service.calls (before_search w scope)
          ++ Service.Execute
               (Store.SelectChunks scope params (Answer.top_k inp))
             :: snd (answer_of E (Answer.query inp) rows) |}).
Proof.
  cbv zeta. intros HE Hterms Hchunks Hknown Hsel Hrows.
  unfold Answer.qa, try_except.
  rewrite (qa_try_search _ _ _ HE Hterms Hchunks Hknown).
  rewrite bind_run, sql_select_chunks_run, before_search_database, Hsel.
  rewrite (respond_run _ _ _ _ Hrows). unfold logged at 1 2 3.
  cbn [Service.database Service.pending Service.calls].
  rewrite before_search_database.
  replace (Service.pending (before_search w _)) with (Service.pending w)
    by now destruct (Answer.scope_of (Answer.documentId inp)).
  now rewrite <- app_assoc.
Qed.

Lemma model_failure_keeps_citations_witness :
  fst (Answer.qa failing_model_env (ask "refund policy" (Some 1%Z))
         (world_of handbook_db))
  = Ok {| Answer.answer :=
            py "I apologize, but I encountered an error while processing your question: quota exceeded. Please try again.";
          Answer.citations := [Answer.cite refund_chunk] |}.
Proof.
  refine (f_equal fst
            (model_failure_keeps_citations failing_model_env
               (world_of handbook_db) (ask "refund policy" (Some 1%Z))
               [refund_chunk] eq_refl _ _ _ eq_refl _)).
  - vm_compute. discriminate.
  - discriminate.
  - vm_compute. discriminate.
  - discriminate.
Defined.

(** ** Chunk-and-store, continued *)

Section IngestMore.

Import Store Service Ingest.

(** Every slice has between one and [size] elements. *)
Lemma batches_fuel_sizes {A} (size : nat) :
  (0 < size)%nat ->
  forall (fuel : nat) (l : list A),
    Forall (fun b => (1 <= length b <= size)%nat) (batches_fuel fuel size l).
Proof.
  intros Hsize. induction fuel as [|fuel IH]; intros l; [constructor |].
  destruct l as [|x l]; [constructor |].
  cbn [batches_fuel]. constructor; [| apply IH].
  rewrite length_firstn. cbn [length]. lia.
Qed.

(** Every slice but the last is full. *)
Lemma batches_fuel_full {A} (size : nat) :
  forall (fuel : nat) (l : list A) (i : nat) (b : list A),
    nth_error (batches_fuel fuel size l) i = Some b ->
    (S i < length (batches_fuel fuel size l))%nat ->
    length b = size.
Proof.
  induction fuel as [|fuel IH]; intros l i b Hnth Hlen;
    [cbn in Hlen; lia |].
  destruct l as [|x l]; [cbn in Hlen; lia |].
  cbn [batches_fuel] in Hnth, Hlen. destruct i as [|i].
  - cbn in Hnth. injection Hnth as <-. cbn [length] in Hlen.
    rewrite length_firstn.
    destruct (Nat.le_gt_cases size (length (x :: l))) as [Hle | Hgt]; [lia |].
    rewrite skipn_all2 in Hlen by lia.
    destruct fuel; cbn in Hlen; lia.
  - cbn [nth_error] in Hnth. cbn [length] in Hlen.
    eapply IH; [exact Hnth | lia].
Qed.

Lemma select_pages_documents (d : db) (new : list chunk_row) (id : Z) :
  select_pages {| documents := documents d;
                  document_pages := document_pages d;
                  chunks := new |} id
  = select_pages d id.
Proof. reflexivity. Qed.

(** [embed_document] with the database reachable, run. *)
Lemma embed_document_run (E : env) (w : world) (document_id : Z) :
  psycopg2 E = Some (Returns tt) ->
  embed_document E document_id w
  = (Ok true,
     match stage document_id (select_pages (database w) document_id) with
     | [] => logged (logged w Connect) (Execute (SelectPages document_id))
     | (_ :: _) as all_chunks =>
         {| database :=
              {| documents := documents (database w);
                 document_pages := document_pages (database w);
                 chunks := insert_chunks (chunks (database w))
                             (pending w ++ map record_of all_chunks) |};
            pending := [];
            calls :=
              calls w
              ++ [Connect; Execute (SelectPages document_id); Connect]
              ++ map (fun b => Execute (InsertChunks (map record_of b)))
                     (batches batch_size all_chunks)
              ++ [Commit] |}
     end).
Proof.
  intros HE. unfold embed_document, pg_connect. rewrite HE.
  unfold sql_select_pages, commit, log.
  unfold bind, modify, get, ret, of_reply.
  cbn -[stage store_batches insert_chunks select_pages batches].
  destruct (stage document_id _) as [|r staged] eqn:Hst.
  - unfold logged. cbn. now rewrite <- app_assoc.
  - rewrite store_batches_run with (answer := Returns tt) by exact HE.
    cbn -[stage store_batches insert_chunks select_pages batches].
    rewrite batches_concat. do 2 f_equal.
    now rewrite <- !app_assoc.
Qed.

(** Whatever the database does, [embed_document] fails only before its
    first statement. *)
Lemma embed_document_raise (E : env) (w : world) (document_id : Z) (e : exn) :
  fst (embed_document E document_id w) = Raise e ->
  psycopg2 E <> Some (Returns tt)
  /\ database (snd (embed_document E document_id w)) = database w
  /\ pending (snd (embed_document E document_id w)) = pending w.
Proof.
  destruct (psycopg2 E) as [[[]|msg]|] eqn:HE.
  - rewrite (embed_document_run _ _ _ HE). discriminate.
  - intros _. split; [discriminate |].
    unfold embed_document, pg_connect. rewrite HE. now cbn.
  - intros _. split; [discriminate |].
    unfold embed_document, pg_connect. rewrite HE. now cbn.
Qed.

Lemma insert_chunks_extends (records : list (Z * Z * str)) :
  forall rows, exists new, insert_chunks rows records = rows ++ new.
Proof.
  intros rows. destruct (insert_chunks_columns records rows) as (new & H & _).
  eauto.
Qed.

End IngestMore.

(** X17.  How chunk-and-store talks to the database when it is
    reachable.  It reads the pages of the document once.  If no page
    yields a chunk it stops there: no second connection, no insert, no
    commit.  Otherwise it opens a second connection, issues the staged
    records in order in INSERT statements of at least one and at most
    100 records, all but the last of exactly 100, and commits once, at
    the end. *)
Theorem embed_document_batches (E : Service.env) (w : Service.world)
        (document_id : Z) :
  Service.psycopg2 E = Some (Returns tt) ->
  let staged :=
    Ingest.stage document_id
      (Store.select_pages (Service.database w) document_id) in
  let after := snd (Ingest.embed_document E document_id w) in
  (staged = [] ->
   after = logged (logged w Service.Connect)
             (Service.Execute (Store.SelectPages document_id)))
  /\ (staged <> [] ->
      exists bs,
        Service.calls after
        = Service.calls w
          ++ [Service.Connect;
              Service.Execute (Store.SelectPages document_id);
              Service.Connect]
          ++ map (fun b => Service.Execute (Store.InsertChunks b)) bs
          ++ [Service.Commit]
        /\ concat bs = map Ingest.record_of staged
        /\ Forall (fun b => (1 <= length b <= 100)%nat) bs
        /\ forall i b, nth_error bs i = Some b ->
                       (S i < length bs)%nat -> length b = 100%nat).
Proof.
  intros HE. cbv zeta. rewrite (embed_document_run _ _ _ HE). cbn [snd].
  destruct (Ingest.stage document_id _) as [|r staged]; split; try easy.
  intros _.
  exists (map (map Ingest.record_of)
              (Ingest.batches Ingest.batch_size (r :: staged))).
  cbn [Service.calls]. rewrite map_map. split; [reflexivity |].
  split; [now rewrite <- concat_map, batches_concat |].
  split.
  - apply Forall_map.
    eapply Forall_impl;
      [| apply (batches_fuel_sizes Ingest.batch_size); unfold Ingest.batch_size; lia].
    cbn beta. intros b Hb. now rewrite length_map.
  - intros i b Hnth Hlen. rewrite length_map in Hlen.
    rewrite nth_error_map in Hnth.
    destruct (nth_error _ i) as [b0|] eqn:Hb0; [| discriminate].
    injection Hnth as <-. rewrite length_map.
    exact (batches_fuel_full Ingest.batch_size _ _ _ _ Hb0 Hlen).
Qed.

Lemma embed_document_batches_witness :
  exists bs,
    Service.calls (snd (Ingest.embed_document plain_env 1 (world_of pages_db)))
    = Service.calls (world_of pages_db)
      ++ [Service.Connect; Service.Execute (Store.SelectPages 1);
          Service.Connect]
      ++ map (fun b => Service.Execute (Store.InsertChunks b)) bs
      ++ [Service.Commit]
    /\ concat bs
       = map Ingest.record_of
           (Ingest.stage 1 (Store.select_pages pages_db 1))
    /\ Forall (fun b => (1 <= length b <= 100)%nat) bs
    /\ forall i b, nth_error bs i = Some b ->
                   (S i < length bs)%nat -> length b = 100%nat.
Proof.
  refine (proj2 (embed_document_batches plain_env (world_of pages_db) 1 eq_refl)
            _).
  vm_compute. discriminate.
Defined.

(** X18.  Chunk-and-store only ever appends chunks.  Whatever the
    environment and the outcome, the documents and the pages are as
    before and the chunks that were stored are still there, in their
    places, with what was appended after them; and when the operation
    fails, nothing at all was written. *)
Theorem embed_document_only_appends (E : Service.env) (w : Service.world)
        (document_id : Z) :
  let run := Ingest.embed_document E document_id w in
  Store.documents (Service.database (snd run))
  = Store.documents (Service.database w)
  /\ Store.document_pages (Service.database (snd run))
     = Store.document_pages (Service.database w)
  /\ (exists new,
         Store.chunks (Service.database (snd run))
         = Store.chunks (Service.database w) ++ new)
  /\ (forall e, fst run = Raise e ->
                Service.database (snd run) = Service.database w).
Proof.
  cbv zeta.
  assert (Hraise : forall e,
             fst (Ingest.embed_document E document_id w) = Raise e ->
             Service.database (snd (Ingest.embed_document E document_id w))
             = Service.database w)
    by (intros e He; now apply embed_document_raise in He).
  destruct (fst (Ingest.embed_document E document_id w)) as [b|e] eqn:Hrun.
  - destruct (Service.psycopg2 E) as [[[]|msg]|] eqn:HE;
      try (unfold Ingest.embed_document, Service.pg_connect in Hrun;
           rewrite HE in Hrun; discriminate Hrun).
    rewrite (embed_document_run _ _ _ HE). cbn [snd].
    destruct (Ingest.stage document_id _) as [|r staged].
    + repeat split; try easy. exists []. now rewrite app_nil_r.
    + repeat split; try easy. cbn [Service.database Store.chunks].
      apply insert_chunks_extends.
  - rewrite (Hraise e eq_refl). repeat split; try easy.
    exists []. now rewrite app_nil_r.
Qed.

(** X19.  Chunk-and-store does not notice what it stored before: a
    second run for the same document appends the records of the first
    run once more, so every chunk of the document is then stored
    twice. *)
Theorem embed_document_twice_duplicates (E : Service.env) (w : Service.world)
        (document_id : Z) :
  Service.psycopg2 E = Some (Returns tt) ->
  Service.pending w = [] ->
  let once := snd (Ingest.embed_document E document_id w) in
  let twice := snd (Ingest.embed_document E document_id once) in
  exists new again,
    Store.chunks (Service.database once)
    = Store.chunks (Service.database w) ++ new
    /\ Store.chunks (Service.database twice)
       = Store.chunks (Service.database w) ++ new ++ again
    /\ map written_columns again = map written_columns new
    /\ map written_columns new
       = map Ingest.record_of
           (Ingest.stage document_id
              (Store.select_pages (Service.database w) document_id)).
Proof.
  intros HE Hpending. cbv zeta.
  rewrite (embed_document_run E w _ HE).
  destruct (Ingest.stage document_id
              (Store.select_pages (Service.database w) document_id))
    as [|r staged] eqn:Hst; cbn [snd].
  - rewrite (embed_document_run _ _ _ HE).
    unfold logged at 3 4. cbn [Service.database]. rewrite Hst. cbn [snd].
    exists [], []. unfold logged. cbn. now rewrite app_nil_r.
  - rewrite (embed_document_run _ _ _ HE).
    cbn [Service.database Service.pending Service.calls].
    rewrite select_pages_documents, Hst, Hpending. cbn [snd app].
    cbn [Service.database Store.chunks].
    destruct (insert_chunks_columns (map Ingest.record_of (r :: staged))
                (Store.chunks (Service.database w))) as (new & -> & Hnew).
    destruct (insert_chunks_columns (map Ingest.record_of (r :: staged))
                (Store.chunks (Service.database w) ++ new))
      as (again & -> & Hagain).
    exists new, again. rewrite <- app_assoc. repeat split; congruence.
Qed.

Lemma embed_document_twice_duplicates_witness :
  exists new again,
    Store.chunks
      (Service.database
         (snd (Ingest.embed_document plain_env 1 (world_of pages_db))))
    = Store.chunks pages_db ++ new
    /\ Store.chunks
         (Service.database
            (snd (Ingest.embed_document plain_env 1
                    (snd (Ingest.embed_document plain_env 1
                            (world_of pages_db))))))
       = Store.chunks pages_db ++ new ++ again
    /\ map written_columns again = map written_columns new
    /\ map written_columns new
       = map Ingest.record_of
           (Ingest.stage 1 (Store.select_pages pages_db 1)).
Proof.
  exact (embed_document_twice_duplicates plain_env (world_of pages_db) 1
           eq_refl eq_refl).
Defined.

(** ** The extract endpoint *)

Section PipelineFacts.

Import Pipeline.

(** A failed fetch leaves no file behind. *)
Lemma download_raise_files (F : Fetcher.env) (url : str) (w : Fetcher.world)
      (e : exn) :
  fst (Fetcher.download_from_minio F url w) = Raise e ->
  Fetcher.files (snd (Fetcher.download_from_minio F url w)) = Fetcher.files w.
Proof.
  destruct (startswith Fetcher.file_scheme url) eqn:Hf.
  - apply startswith_iff in Hf as (path & ->).
    now rewrite download_file_run.
  - destruct (startswith Fetcher.minio_scheme url) eqn:Hm.
    + apply startswith_iff in Hm as (path & ->).
      rewrite download_minio_unfold. unfold split_max1.
      destruct (find [Fetcher.slash] path) as [i|]; [| reflexivity].
      apply fetch_object_raise.
    + rewrite http_run by assumption. cbv zeta.
      destruct (Fetcher.requests_get F url) as [[status body]|msg];
        [| reflexivity].
      destruct (status =? 200)%Z; [| reflexivity].
      destruct (mktemp_run F (py ".bin")
                  {| Fetcher.files := Fetcher.files w;
                     Fetcher.calls := Fetcher.calls w ++ [Fetcher.HttpGet url] |} eq_refl)
        as [(file & name & -> & _) | (-> & _)]; cbn [fst snd];
        [discriminate | reflexivity].
Qed.

Lemma on_disk_run {A} (m : M Fetcher.world A) (w : world) :
  on_disk m w = (fst (m (disk w)), with_disk w (snd (m (disk w)))).
Proof. unfold on_disk. now destruct (m (disk w)). Qed.

(** The endpoint after a failed fetch. *)
Lemma extract_download_failed (E : env) (inp : ExtractIn) (w : world)
      (e : exn) :
  fst (Fetcher.download_from_minio (fetcher E) (fileUrl inp) (disk w))
  = Raise e ->
  extract E inp w
  = (Raise (HTTPException 400 (py "download failed: " ++ str_of_exn e)),
     with_disk w
       (snd (Fetcher.download_from_minio (fetcher E) (fileUrl inp) (disk w)))).
Proof.
  intros H. unfold extract. rewrite bind_run. unfold try_except at 1.
  rewrite on_disk_run, H. reflexivity.
Qed.

End PipelineFacts.

(** X20.  A failed fetch is a client error.  Whatever makes
    [download_from_minio] raise, the extract endpoint answers with
    status 400 and the detail "download failed: " followed by the
    error; nothing else is attempted: no PDF is opened, no OCR is run,
    no database connection is made, and no file is left behind. *)
Theorem download_failure_is_400 (E : Pipeline.env) (inp : Pipeline.ExtractIn)
        (w : Pipeline.world) (e : exn) :
  let fetch :=
    Fetcher.download_from_minio (Pipeline.fetcher E) (Pipeline.fileUrl inp)
      (Pipeline.disk w) in
  fst fetch = Raise e ->
  Pipeline.extract E inp w
  = (Raise (HTTPException 400 (py "download failed: " ++ str_of_exn e)),
     with_disk w (snd fetch))
  /\ Fetcher.files (snd fetch) = Fetcher.files (Pipeline.disk w).
Proof.
  cbv zeta. intros H. split.
  - now apply extract_download_failed.
  - now apply download_raise_files in H.
Qed.

Lemma download_failure_is_400_witness :
  Pipeline.extract pipeline_env missing_upload (pipeline_world empty_db)
  = (Raise (HTTPException 400
              (py "download failed: File not found: /data/missing.pdf")),
     pipeline_world empty_db).
Proof.
  exact (proj1 (download_failure_is_400 pipeline_env missing_upload
                  (pipeline_world empty_db)
                  (ValueError (py "File not found: /data/missing.pdf"))
                  eq_refl)).
Defined.

Section PipelineStore.

Import Store Pipeline.

Lemma digits_no_nul (d : Decimal.uint) :
  has_nul (py (NilEmpty.string_of_uint d)) = false.
Proof. induction d; cbn; auto. Qed.

Lemma string_of_uint_no_nul (d : Decimal.uint) :
  has_nul (py (NilZero.string_of_uint d)) = false.
Proof. destruct d; try apply digits_no_nul. reflexivity. Qed.

(** The decimal representation of an integer has no NUL character. *)
Lemma str_of_int_no_nul (z : Z) : has_nul (str_of_int z) = false.
Proof.
  unfold str_of_int, NilZero.string_of_int.
  destruct (Z.to_int z) as [d|d]; [apply string_of_uint_no_nul |].
  change (has_nul (45%N :: py (NilZero.string_of_uint d)) = false).
  unfold has_nul. cbn [existsb]. apply string_of_uint_no_nul.
Qed.

Lemma has_nul_app (a b : str) : has_nul (a ++ b) = (has_nul a || has_nul b)%bool.
Proof. apply existsb_app. Qed.

(** The document row of a storable request is accepted. *)
Lemma upsert_document_run (inp : ExtractIn) (d : db) :
  integer (documentId inp) = true ->
  has_nul (fileUrl inp) = false ->
  upsert_document d (document_row_of inp)
  = Returns {| documents := upsert (document_row_of inp) (documents d);
               document_pages := document_pages d;
               chunks := chunks d |}.
Proof.
  intros Hid Hurl. unfold upsert_document.
  cbn [doc_title doc_file_url doc_status doc_id document_row_of].
  rewrite has_nul_app, str_of_int_no_nul, Hurl, Hid. reflexivity.
Qed.

(** After the upsert the document row is there. *)
Lemma upsert_has_id (row : document_row) (rows : list document_row) :
  existsb (has_id (doc_id row)) (upsert row rows) = true.
Proof.
  unfold upsert. destruct (existsb (has_id (doc_id row)) rows) eqn:Hex.
  - apply existsb_exists in Hex as (r & Hr & Hid).
    apply existsb_exists. exists row. split.
    + apply in_map_iff. exists r. now rewrite Hid.
    + unfold has_id. apply Z.eqb_refl.
  - rewrite existsb_app. cbn. unfold has_id at 2. rewrite Z.eqb_refl.
    now rewrite orb_true_r.
Qed.

(** The upsert touches the row of this identifier only. *)
Lemma upsert_rows (row r : document_row) (rows : list document_row) :
  In r (upsert row rows)
  <-> (In r rows /\ doc_id r <> doc_id row) \/ r = row.
Proof.
  unfold upsert. destruct (existsb (has_id (doc_id row)) rows) eqn:Hex.
  - rewrite in_map_iff. split.
    + intros (r0 & Hr0 & Hin). unfold has_id in Hr0.
      destruct (Z.eqb_spec (doc_id r0) (doc_id row)) as [Heq | Hne].
      * right. now symmetry.
      * left. subst r0. now split.
    + intros [[Hin Hne] | ->].
      * exists r. split; [| exact Hin]. unfold has_id.
        now apply Z.eqb_neq in Hne as ->.
      * apply existsb_exists in Hex as (r0 & Hr0 & Hid).
        exists r0. now rewrite Hid.
  - rewrite in_app_iff. cbn [In]. split.
    + intros [Hin | [<- | []]]; [left | now right].
      split; [exact Hin |]. intros Heq.
      assert (existsb (has_id (doc_id row)) rows = true); [| congruence].
      apply existsb_exists. exists r. split; [exact Hin |].
      unfold has_id. now apply Z.eqb_eq.
    + intros [[Hin _] | ->]; [now left | right; now left].
Qed.

(** Inserting pages appends rows whose columns are the records. *)
Lemma append_pages_columns (records : list (Z * Z * str)) :
  forall rows,
  exists new,
    append_pages rows records = rows ++ new
    /\ map page_columns new = records.
Proof.
  induction records as [|[[d p] c] records IH]; intros rows.
  - exists []. now rewrite app_nil_r.
  - cbn [append_pages].
    destruct (IH (rows ++ [{| pg_id := next_page_id rows; pg_document_id := d;
                              pg_page_no := p; pg_text := c |}]))
      as (new & Hins & Hcols).
    eexists (_ :: new). rewrite Hins, <- app_assoc. split; [reflexivity |].
    cbn. now rewrite Hcols.
Qed.

Lemma existsb_mapped {A B} (f : B -> bool) (g : A -> B) (l : list A) :
  existsb f (map g l) = existsb (fun x => f (g x)) l.
Proof. induction l as [|x l IH]; cbn; [reflexivity | now rewrite IH]. Qed.

Lemma forallb_mapped {A B} (f : B -> bool) (g : A -> B) (l : list A) :
  forallb f (map g l) = forallb (fun x => f (g x)) l.
Proof. induction l as [|x l IH]; cbn; [reflexivity | now rewrite IH]. Qed.

(** The page records of a storable request are accepted once the
    document row is there. *)
Lemma insert_pages_run (inp : ExtractIn) (ps : list Extractor.page_out)
      (d : db) :
  storable inp ps = true ->
  existsb (has_id (documentId inp)) (documents d) = true ->
  insert_pages d (page_records (documentId inp) ps)
  = Returns {| documents := documents d;
               document_pages :=
                 append_pages (document_pages d)
                   (page_records (documentId inp) ps);
               chunks := chunks d |}.
Proof.
  unfold storable. intros Hst Hdoc.
  apply andb_true_iff in Hst as [Hst Hps].
  apply andb_true_iff in Hst as [Hid _].
  unfold insert_pages, page_records.
  rewrite existsb_mapped, !forallb_mapped. cbn [fst snd].
  replace (existsb _ ps) with false; [cbn [negb] |].
  - replace (forallb _ ps) with true; [cbn [negb] |].
    + replace (forallb _ ps) with true; [reflexivity |].
      symmetry. apply forallb_forall. intros p _. exact Hdoc.
    + symmetry. apply forallb_forall. intros p Hp. rewrite Hid.
      rewrite forallb_forall in Hps. specialize (Hps p Hp).
      now apply andb_true_iff in Hps as [_ ->].
  - symmetry. apply not_true_iff_false. intros Hex.
    apply existsb_exists in Hex as (p & Hp & Hnul).
    rewrite forallb_forall in Hps. specialize (Hps p Hp).
    apply andb_true_iff in Hps as [Hps _]. now rewrite Hnul in Hps.
Qed.

Lemma on_pdf_run {A} (m : M (list Extractor.call) A) (w : world) :
  on_pdf m w
  = (fst (m (pdf_calls w)), with_pdf_calls w (snd (m (pdf_calls w)))).
Proof. unfold on_pdf. now destruct (m (pdf_calls w)). Qed.

Lemma on_store_run {A} (m : M Service.world A) (w : world) :
  on_store m w = (fst (m (store w)), with_store w (snd (m (store w)))).
Proof. unfold on_store. now destruct (m (store w)). Qed.

(** The database part on a storable request. *)
Lemma extract_try_run (E : env) (inp : ExtractIn)
      (ps : list Extractor.page_out) (w : world) :
  Service.psycopg2 (service E) = Some (Returns tt) ->
  storable inp ps = true ->
  extract_try E inp ps
    (with_store w (logged (store w) Service.Connect))
  = (Ok (extracted_pages inp ps), stored E inp ps w).
Proof.
  intros HE Hst. pose proof Hst as Hst'. unfold storable in Hst'.
  apply andb_true_iff in Hst' as [Hst' _].
  apply andb_true_iff in Hst' as [Hid Hurl]. apply negb_true_iff in Hurl.
  unfold extract_try. rewrite bind_run. unfold get at 1.
  rewrite bind_run. unfold log at 1, modify at 1.
  cbn [store with_store logged Service.database].
  rewrite bind_run, (upsert_document_run _ _ Hid Hurl). unfold of_reply at 1, ret at 1.
  unfold Ingest.execute_values_imported. rewrite HE.
  rewrite bind_run. unfold ret at 1.
  assert (Hpages :
            forall w0 : world,
              (match ps with
               | [] =>
                   ret {| documents :=
                            upsert (document_row_of inp)
                              (documents (Service.database (store w)));
                          document_pages :=
                            document_pages (Service.database (store w));
                          chunks := chunks (Service.database (store w)) |}
               | _ :: _ =>
                   bind (log (InsertPages (page_records (documentId inp) ps)))
                     (fun _ =>
                        of_reply
                          (insert_pages
                             {| documents :=
                                  upsert (document_row_of inp)
                                    (documents (Service.database (store w)));
                                document_pages :=
                                  document_pages (Service.database (store w));
                                chunks := chunks (Service.database (store w)) |}
                             (page_records (documentId inp) ps)))
               end) w0
              = (Ok (pages_stored inp ps (Service.database (store w))),
                 {| disk := disk w0; pdf_calls := pdf_calls w0;
                    store := store w0;
                    calls := calls w0 ++ match ps with
                                         | [] => []
                                         | _ :: _ =>
                                             [InsertPages
                                                (page_records (documentId inp) ps)]
                                         end |})).
  { intros w0. destruct ps as [|p ps'].
    - unfold ret, pages_stored. cbn [page_records map append_pages].
      rewrite app_nil_r. now destruct w0.
    - rewrite bind_run. unfold log, modify. rewrite insert_pages_run.
      + reflexivity.
      + exact Hst.
      + cbn [documents]. exact (upsert_has_id (document_row_of inp) _). }
  rewrite bind_run, Hpages. clear Hpages.
  rewrite bind_run. unfold commit. rewrite bind_run.
  unfold log at 1, modify at 1. unfold modify at 1.
  cbn [disk pdf_calls store calls with_store].
  rewrite bind_run, on_store_run.
  cbn [disk pdf_calls store calls with_store Service.pending Service.calls
       Service.database logged].
  destruct (Ingest.embed_document (service E) (documentId inp) _)
    as [r s] eqn:Hembed.
  assert (Hok : r = Ok true).
  { pose proof (embed_document_run (service E)
                  {| Service.database :=
                       pages_stored inp ps (Service.database (store w));
                     Service.pending := Service.pending (store w);
                     Service.calls :=
                       Service.calls (store w) ++ [Service.Connect] |}
                  (documentId inp) HE) as Hrun.
    rewrite Hembed in Hrun. exact (f_equal fst Hrun). }
  subst r. cbn [fst snd]. unfold ret, stored, extracted_pages, with_store.
  cbn [disk pdf_calls store calls]. rewrite Hembed. cbn [snd].
  unfold storing_calls. now rewrite <- !app_assoc.
Qed.

(** The endpoint once the file is fetched and its pages are read, on a
    storable request. *)
Lemma extract_run (E : env) (inp : ExtractIn) (w w1 : world) (local : str)
      (ps : list Extractor.page_out) :
  fst (Fetcher.download_from_minio (fetcher E) (fileUrl inp) (disk w))
  = Ok local ->
  read_pages E local
    (with_disk w
       (snd (Fetcher.download_from_minio (fetcher E) (fileUrl inp) (disk w))))
  = (Ok ps, w1) ->
  Service.psycopg2 (service E) = Some (Returns tt) ->
  storable inp ps = true ->
  extract E inp w = (Ok (extracted_pages inp ps), stored E inp ps w1).
Proof.
  intros Hfetch Hread HE Hst. unfold extract.
  rewrite bind_run. unfold try_except at 1. rewrite on_disk_run, Hfetch.
  rewrite bind_run. fold (read_pages E local). rewrite Hread.
  rewrite bind_run, on_store_run, (pg_connect_run _ _ HE). cbn [fst snd].
  unfold try_except. now rewrite (extract_try_run _ _ _ _ HE Hst).
Qed.

End PipelineStore.

Section PipelineRuns.

Import Store Pipeline.

Lemma oblivious_ret {A} (a : A) : oblivious (ret a).
Proof. easy. Qed.

Lemma oblivious_raise {A} (e : exn) : oblivious (@raise _ A e).
Proof. easy. Qed.

Lemma oblivious_log (c : Extractor.call) : oblivious (Extractor.log c).
Proof. easy. Qed.

Lemma oblivious_of_reply {A} (r : reply A) : oblivious (of_reply r).
Proof. now destruct r. Qed.

Lemma oblivious_bind {A B} (m : M (list Extractor.call) A)
      (k : A -> M (list Extractor.call) B) :
  oblivious m -> (forall a, oblivious (k a)) -> oblivious (bind m k).
Proof.
  intros Hm Hk l1 l2. unfold bind. specialize (Hm l1 l2).
  destruct (m l1) as [[a1|e1] l1'], (m l2) as [[a2|e2] l2'];
    cbn [fst] in Hm; try discriminate Hm.
  - injection Hm as ->. apply Hk.
  - now injection Hm as ->.
Qed.

Lemma oblivious_try {A} (m : M (list Extractor.call) A)
      (h : exn -> M (list Extractor.call) A) :
  oblivious m -> (forall e, oblivious (h e)) -> oblivious (try_except m h).
Proof.
  intros Hm Hh l1 l2. unfold try_except. specialize (Hm l1 l2).
  destruct (m l1) as [[a1|e1] l1'], (m l2) as [[a2|e2] l2'];
    cbn [fst] in Hm; try discriminate Hm.
  - exact Hm.
  - injection Hm as ->. apply Hh.
Qed.

(** What the extractor returns does not depend on its log. *)
Lemma extract_text_oblivious (L : Extractor.libs) (path : str) :
  oblivious (Extractor.extract_text_from_pdf L path).
Proof.
  assert (Hpage : forall i pg, oblivious (Extractor.process_page L i pg)).
  { intros i pg. unfold Extractor.process_page, Extractor.ocr_fallback.
    repeat first
      [ apply oblivious_ret | apply oblivious_raise | apply oblivious_log
      | apply oblivious_of_reply
      | apply oblivious_bind; [| intros ?]
      | apply oblivious_try; [| intros ?]
      | match goal with
        | |- oblivious (if ?b then _ else _) => destruct b
        end ]. }
  assert (Hloop : forall doc i acc, oblivious (Extractor.for_pages L i doc acc)).
  { induction doc as [|pg doc IH]; intros i acc; cbn [Extractor.for_pages].
    - apply oblivious_ret.
    - apply oblivious_bind; [apply Hpage | intros p; apply IH]. }
  unfold Extractor.extract_text_from_pdf.
  destruct (Extractor.fitz_open L) as [open|]; [| apply oblivious_raise].
  apply oblivious_bind; [apply oblivious_of_reply | intros doc; apply Hloop].
Qed.

(** Reading the pages of a file that is a PDF. *)
Lemma read_pages_pdf (E : env) (local : str) (w : world)
      (ps : list Extractor.page_out) :
  fst (Extractor.extract_text_from_pdf (libs E) local (pdf_calls w)) = Ok ps ->
  read_pages E local w
  = (Ok ps,
     with_pdf_calls w
       (snd (Extractor.extract_text_from_pdf (libs E) local (pdf_calls w)))).
Proof.
  intros H. unfold read_pages, try_except. now rewrite on_pdf_run, H.
Qed.

(** Reading the pages of a file that is no PDF. *)
Lemma read_pages_image (E : env) (local : str) (w : world) (e : exn) :
  fst (Extractor.extract_text_from_pdf (libs E) local (pdf_calls w)) = Raise e ->
  read_pages E local w
  = image_fallback E local e
      (with_pdf_calls w
         (snd (Extractor.extract_text_from_pdf (libs E) local (pdf_calls w)))).
Proof.
  intros H. unfold read_pages, try_except at 1. now rewrite on_pdf_run, H.
Qed.

(** The chunk records of page rows depend on their columns only. *)
Lemma chunk_records_unfold (id : Z) (rows : list page_row) :
  chunk_records id rows
  = flat_map
      (fun row =>
         map (record_for id row)
             (chunk_text (pg_text row) Ingest.embed_chunk_size
                         Ingest.embed_overlap))
      rows.
Proof. apply records_of_stage. Qed.

Lemma chunk_records_app (id : Z) (rows more : list page_row) :
  chunk_records id (rows ++ more)
  = chunk_records id rows ++ chunk_records id more.
Proof. rewrite !chunk_records_unfold. apply flat_map_app. Qed.

Lemma chunk_records_upload (id : Z) (ps : list Extractor.page_out) :
  forall new,
    map page_columns new = page_records id ps ->
    chunk_records id new = upload_records id ps.
Proof.
  induction ps as [|p ps IH]; intros [|row new] H; try discriminate H.
  - reflexivity.
  - cbn [map page_records] in H. injection H as Hdoc Hno Htext Hrest.
    rewrite chunk_records_unfold. cbn [flat_map upload_records].
    rewrite <- chunk_records_unfold, (IH new Hrest).
    unfold record_for. now rewrite Hno, Htext.
Qed.

(** The pages of the document after the insert: those before and the
    new ones. *)
Lemma select_pages_new (id : Z) (ps : list Extractor.page_out)
      (rows new : list page_row) :
  map page_columns new = page_records id ps ->
  filter (fun r => (pg_document_id r =? id)%Z) (rows ++ new)
  = filter (fun r => (pg_document_id r =? id)%Z) rows ++ new.
Proof.
  intros H. rewrite filter_app. f_equal.
  revert new H. induction ps as [|p ps IH]; intros [|row new] H;
    try discriminate H; [reflexivity |].
  cbn [map page_records] in H. injection H as Hdoc _ _ Hrest.
  cbn [filter]. rewrite Hdoc, Z.eqb_refl. f_equal. now apply IH.
Qed.

(** The tables after the database part succeeded. *)
Lemma stored_database (E : env) (inp : ExtractIn)
      (ps : list Extractor.page_out) (w : world) :
  Service.psycopg2 (service E) = Some (Returns tt) ->
  Service.pending (store w) = [] ->
  let d := Service.database (store w) in
  exists new newc,
    Service.database (store (stored E inp ps w))
    = {| documents := upsert (document_row_of inp) (documents d);
         document_pages := document_pages d ++ new;
         chunks := chunks d ++ newc |}
    /\ map page_columns new = page_records (documentId inp) ps
    /\ map written_columns newc
       = chunk_records (documentId inp) (select_pages d (documentId inp))
         ++ upload_records (documentId inp) ps
    /\ Service.pending (store (stored E inp ps w)) = [].
Proof.
  intros HE Hpending. cbv zeta.
  destruct (append_pages_columns (page_records (documentId inp) ps)
              (document_pages (Service.database (store w))))
    as (new & Happ & Hnew).
  unfold stored. cbn [store]. rewrite (embed_document_run _ _ _ HE).
  cbn [snd Service.database Service.pending].
  assert (Hsel :
            select_pages (pages_stored inp ps (Service.database (store w)))
              (documentId inp)
            = select_pages (Service.database (store w)) (documentId inp) ++ new).
  { unfold select_pages, pages_stored. cbn [document_pages].
    rewrite Happ. now apply select_pages_new with (ps := ps). }
  assert (Hrec :
            map Ingest.record_of
              (Ingest.stage (documentId inp)
                 (select_pages (pages_stored inp ps (Service.database (store w)))
                    (documentId inp)))
            = chunk_records (documentId inp)
                (select_pages (Service.database (store w)) (documentId inp))
              ++ upload_records (documentId inp) ps).
  { fold (chunk_records (documentId inp)
            (select_pages (pages_stored inp ps (Service.database (store w)))
               (documentId inp))).
    rewrite Hsel, chunk_records_app. f_equal.
    now apply chunk_records_upload. }
  destruct (Ingest.stage (documentId inp) _) as [|r staged] eqn:Hst.
  - exists new, []. unfold logged. cbn [Service.database Service.pending].
    unfold pages_stored at 1. rewrite Happ, app_nil_r.
    repeat split; [exact Hnew | | exact Hpending].
    now rewrite <- Hrec.
  - cbn [Service.database Service.pending]. rewrite Hpending. cbn [app].
    destruct (insert_chunks_columns (map Ingest.record_of (r :: staged))
                (chunks (pages_stored inp ps (Service.database (store w)))))
      as (newc & Hins & Hcols).
    exists new, newc. rewrite Hins. unfold pages_stored.
    cbn [documents document_pages chunks]. rewrite Happ.
    repeat split; [exact Hnew |]. now rewrite Hcols.
Qed.

(** The database part on a request that is not storable: the driver
    or the server refuses a statement, and nothing is committed. *)
Lemma extract_try_refused (E : env) (inp : ExtractIn)
      (ps : list Extractor.page_out) (w : world) :
  Service.psycopg2 (service E) = Some (Returns tt) ->
  storable inp ps = false ->
  exists msg evs,
    extract_try E inp ps w
    = (Raise (Error msg),
       {| disk := disk w; pdf_calls := pdf_calls w; store := store w;
          calls := calls w ++ evs |}).
Proof.
  intros HE Hst. unfold extract_try.
  rewrite bind_run. unfold get at 1.
  rewrite bind_run. unfold log at 1, modify at 1.
  rewrite bind_run. cbn [store].
  destruct (integer (documentId inp)) eqn:Hid.
  2:{ unfold upsert_document. cbn [doc_title doc_file_url doc_status doc_id
                                   document_row_of].
      rewrite Hid. destruct (_ || _)%bool; cbn; eauto. }
  destruct (has_nul (fileUrl inp)) eqn:Hurl.
  { unfold upsert_document. cbn [doc_title doc_file_url doc_status doc_id
                                 document_row_of].
    rewrite Hurl, orb_true_r. cbn. eauto. }
  rewrite (upsert_document_run _ _ Hid Hurl). unfold of_reply at 1, ret at 1.
  unfold Ingest.execute_values_imported. rewrite HE.
  rewrite bind_run. unfold ret at 1.
  unfold storable in Hst. rewrite Hid, Hurl in Hst. cbn [negb andb] in Hst.
  destruct ps as [|p ps']; [discriminate Hst |].
  rewrite bind_run, bind_run. unfold log at 1, modify at 1.
  unfold insert_pages, page_records.
  rewrite existsb_mapped, forallb_mapped. cbn [fst snd].
  destruct (existsb (fun x => has_nul (Extractor.text x)) (p :: ps')) eqn:Hnul.
  { cbn. rewrite <- app_assoc. eauto. }
  replace (forallb _ (p :: ps')) with false.
  { cbn. rewrite <- app_assoc. eauto. }
  symmetry. apply not_true_iff_false. intros Hall.
  rewrite forallb_forall in Hall.
  assert (forallb (fun q => (negb (has_nul (Extractor.text q))
                             && integer (Extractor.page_no q))%bool)
                  (p :: ps') = true); [| congruence].
  apply forallb_forall. intros q Hq. specialize (Hall q Hq).
  apply andb_true_iff in Hall as [_ ->]. rewrite andb_true_r.
  apply negb_true_iff, not_true_iff_false. intros Hqn.
  assert (existsb (fun x => has_nul (Extractor.text x)) (p :: ps') = true);
    [| congruence].
  apply existsb_exists. eauto.
Qed.

End PipelineRuns.

(** X21.  A successful extraction, end to end.  When the file is
    fetched, the PDF extractor returns the pages [ps], the database is
    reachable and the request is storable (identifier and page numbers
    within INTEGER, no NUL character in the locator and the texts), the
    endpoint answers [ok] with the number of pages, and afterwards: the
    document row is (id, "Document <id>", locator, "processed") and the
    rows of other documents are untouched; one page row per extracted
    page is appended, in page order, with the text as extracted; and
    the chunk table is extended by the chunks of all pages the
    document then has, those stored before this request included. *)
Theorem extract_stores_document (E : Pipeline.env) (inp : Pipeline.ExtractIn)
        (w : Pipeline.world) (local : str) (ps : list Extractor.page_out) :
  let d := Service.database (Pipeline.store w) in
  let id := Pipeline.documentId inp in
  fst (Fetcher.download_from_minio (Pipeline.fetcher E) (Pipeline.fileUrl inp)
         (Pipeline.disk w)) = Ok local ->
  fst (Extractor.extract_text_from_pdf (Pipeline.libs E) local
         (Pipeline.pdf_calls w)) = Ok ps ->
  Service.psycopg2 (Pipeline.service E) = Some (Returns tt) ->
  storable inp ps = true ->
  Service.pending (Pipeline.store w) = [] ->
  exists w' new newc,
    Pipeline.extract E inp w = (Ok (extracted_pages inp ps), w')
    /\ (forall r,
           In r (Store.documents (Service.database (Pipeline.store w')))
           <-> (In r (Store.documents d) /\ Store.doc_id r <> id)
               \/ r = Pipeline.document_row_of inp)
    /\ Store.document_pages (Service.database (Pipeline.store w'))
       = Store.document_pages d ++ new
    /\ map page_columns new = Pipeline.page_records id ps
    /\ Store.chunks (Service.database (Pipeline.store w'))
       = Store.chunks d ++ newc
    /\ map written_columns newc
       = chunk_records id (Store.select_pages d id) ++ upload_records id ps.
Proof.
  cbv zeta. intros Hfetch Hpdf HE Hst Hpending.
  pose proof (read_pages_pdf E local
                (with_disk w
                   (snd (Fetcher.download_from_minio (Pipeline.fetcher E)
                           (Pipeline.fileUrl inp) (Pipeline.disk w))))
                ps Hpdf) as Hread.
  rewrite (extract_run _ _ _ _ _ _ Hfetch Hread HE Hst).
  match goal with
  | |- context [stored E inp ps ?w1] =>
      destruct (stored_database E inp ps w1 HE Hpending)
        as (new & newc & Hdb & Hnew & Hnewc & _)
  end.
  eexists _, new, newc. split; [reflexivity |]. rewrite Hdb.
  cbn [Store.documents Store.document_pages Store.chunks].
  repeat split; try assumption.
  - intros Hin. now apply (upsert_rows (Pipeline.document_row_of inp)) in Hin.
  - intros Hin. now apply (upsert_rows (Pipeline.document_row_of inp)).
Qed.

Lemma extract_stores_document_witness :
  exists w' new newc,
    Pipeline.extract pipeline_env upload (pipeline_world unchunked_db)
    = (Ok {| Pipeline.ok := true; Pipeline.pages := 2;
             Pipeline.out_documentId := 1 |}, w')
    /\ (forall r,
           In r (Store.documents (Service.database (Pipeline.store w')))
           <-> (In r [document_1] /\ Store.doc_id r <> 1%Z)
               \/ r = Pipeline.document_row_of upload)
    /\ Store.document_pages (Service.database (Pipeline.store w')) = [] ++ new
    /\ map page_columns new = Pipeline.page_records 1 handbook_pages
    /\ Store.chunks (Service.database (Pipeline.store w')) = [] ++ newc
    /\ map written_columns newc
       = chunk_records 1 (Store.select_pages unchunked_db 1)
         ++ upload_records 1 handbook_pages.
Proof.
  refine (extract_stores_document pipeline_env upload
            (pipeline_world unchunked_db) (py "/data/handbook.pdf")
            handbook_pages eq_refl _ eq_refl eq_refl eq_refl).
  vm_compute. reflexivity.
Defined.

(** X22.  A file that is no PDF.  When the PDF extractor raises and the
    OCR libraries are missing, the endpoint fails with status 500
    "extraction failed: ..." before any database connection.  When
    they are present and the file opens as an image that OCR reads,
    the document gets exactly one page, numbered 1, whose text is the
    recognised text as it is (not stripped, and stored even when it is
    empty). *)
Theorem image_fallback_policy (E : Pipeline.env) (inp : Pipeline.ExtractIn)
        (w : Pipeline.world) (local : str) (e : exn) :
  let d := Service.database (Pipeline.store w) in
  let id := Pipeline.documentId inp in
  fst (Fetcher.download_from_minio (Pipeline.fetcher E) (Pipeline.fileUrl inp)
         (Pipeline.disk w)) = Ok local ->
  fst (Extractor.extract_text_from_pdf (Pipeline.libs E) local
         (Pipeline.pdf_calls w)) = Raise e ->
  (Extractor.ocr_imported (Pipeline.libs E) = false ->
   exists detail w',
     Pipeline.extract E inp w
     = (Raise (HTTPException 500 (py "extraction failed: " ++ detail)), w')
     /\ Pipeline.store w' = Pipeline.store w
     /\ Pipeline.calls w' = Pipeline.calls w)
  /\ (forall img text,
         Extractor.ocr_imported (Pipeline.libs E) = true ->
         Pipeline.image_open E local = Returns img ->
         Extractor.image_to_string (Pipeline.libs E) img [] = Returns text ->
         Service.psycopg2 (Pipeline.service E) = Some (Returns tt) ->
         storable inp [{| Extractor.page_no := 1; Extractor.text := text |}]
         = true ->
         Service.pending (Pipeline.store w) = [] ->
         exists w' row,
           Pipeline.extract E inp w
           = (Ok {| Pipeline.ok := true; Pipeline.pages := 1;
                    Pipeline.out_documentId := id |}, w')
           /\ Store.document_pages (Service.database (Pipeline.store w'))
              = Store.document_pages d ++ [row]
           /\ page_columns row = (id, 1%Z, text)).
Proof.
  cbv zeta. intros Hfetch Hpdf.
  pose proof (read_pages_image E local
                (with_disk w
                   (snd (Fetcher.download_from_minio (Pipeline.fetcher E)
                           (Pipeline.fileUrl inp) (Pipeline.disk w))))
                e Hpdf) as Hread.
  split.
  - intros Hocr. unfold Pipeline.extract.
    rewrite bind_run. unfold try_except at 1. rewrite on_disk_run, Hfetch.
    rewrite bind_run. fold (read_pages E local). rewrite Hread.
    unfold Pipeline.image_fallback, try_except. rewrite Hocr.
    unfold raise. eexists _, _. split; [reflexivity |]. now split.
  - intros img text Hocr Himg Htext HE Hst Hpending.
    assert (Hpages :
              read_pages E local
                (with_disk w
                   (snd (Fetcher.download_from_minio (Pipeline.fetcher E)
                           (Pipeline.fileUrl inp) (Pipeline.disk w))))
              = (Ok [{| Extractor.page_no := 1; Extractor.text := text |}],
                 {| Pipeline.disk :=
                      snd (Fetcher.download_from_minio (Pipeline.fetcher E)
                             (Pipeline.fileUrl inp) (Pipeline.disk w));
                    Pipeline.pdf_calls :=
                      snd (Extractor.extract_text_from_pdf (Pipeline.libs E)
                             local (Pipeline.pdf_calls w));
                    Pipeline.store := Pipeline.store w;
                    Pipeline.calls :=
                      Pipeline.calls w
                      ++ [Pipeline.ImageOpen local; Pipeline.ImageToString] |})).
    { rewrite Hread. unfold Pipeline.image_fallback, try_except.
      rewrite Hocr. rewrite bind_run. unfold Pipeline.log at 1, modify at 1.
      rewrite bind_run, Himg. unfold of_reply at 1, ret at 1.
      rewrite bind_run. unfold Pipeline.log at 1, modify at 1.
      rewrite bind_run, Htext. unfold of_reply, ret.
      cbn [Pipeline.disk Pipeline.pdf_calls Pipeline.store Pipeline.calls
           with_pdf_calls with_disk].
      now rewrite <- app_assoc. }
    rewrite (extract_run _ _ _ _ _ _ Hfetch Hpages HE Hst).
    match goal with
    | |- context [stored E inp ?one ?w1] =>
        destruct (stored_database E inp one w1 HE Hpending)
          as (new & newc & Hdb & Hnew & _)
    end.
    destruct new as [|row [|row' new]]; try discriminate Hnew.
    eexists _, row. split; [reflexivity |]. rewrite Hdb.
    cbn [Store.document_pages]. split; [reflexivity |].
    injection Hnew as Hdoc Hno Htxt. unfold page_columns. congruence.
Qed.

Lemma image_fallback_policy_witness :
  exists w' row,
    Pipeline.extract image_env upload (pipeline_world unchunked_db)
    = (Ok {| Pipeline.ok := true; Pipeline.pages := 1;
             Pipeline.out_documentId := 1 |}, w')
    /\ Store.document_pages (Service.database (Pipeline.store w'))
       = [] ++ [row]
    /\ page_columns row = (1%Z, 1%Z, py "INVOICE 42 ").
Proof.
  exact (proj2 (image_fallback_policy image_env upload
                  (pipeline_world unchunked_db) (py "/data/handbook.pdf")
                  (HTTPException 500 (py "PDF processing not available"))
                  eq_refl eq_refl)
           [1%N; 2%N; 3%N] (py "INVOICE 42 ")
           eq_refl eq_refl eq_refl eq_refl eq_refl eq_refl).
Defined.

(** X23.  A request the database refuses changes nothing.  When the
    file is fetched and its pages are extracted but the request is not
    storable (the identifier or a page number is outside of INTEGER, or
    the locator or a page text has a NUL character), the endpoint fails
    with status 500 "Database operation failed: ...", rolls back, and
    the database is as before: neither the document row nor any page
    is stored, and chunk-and-store is not run. *)
Theorem refused_request_rolls_back (E : Pipeline.env) (inp : Pipeline.ExtractIn)
        (w : Pipeline.world) (local : str) (ps : list Extractor.page_out) :
  fst (Fetcher.download_from_minio (Pipeline.fetcher E) (Pipeline.fileUrl inp)
         (Pipeline.disk w)) = Ok local ->
  fst (Extractor.extract_text_from_pdf (Pipeline.libs E) local
         (Pipeline.pdf_calls w)) = Ok ps ->
  Service.psycopg2 (Pipeline.service E) = Some (Returns tt) ->
  storable inp ps = false ->
  exists detail w' evs,
    Pipeline.extract E inp w
    = (Raise (HTTPException 500 (py "Database operation failed: " ++ detail)),
       w')
    /\ Pipeline.store w' = logged (Pipeline.store w) Service.Connect
    /\ Pipeline.calls w' = Pipeline.calls w ++ evs ++ [Pipeline.Rollback].
Proof.
  intros Hfetch Hpdf HE Hst.
  pose proof (read_pages_pdf E local
                (with_disk w
                   (snd (Fetcher.download_from_minio (Pipeline.fetcher E)
                           (Pipeline.fileUrl inp) (Pipeline.disk w))))
                ps Hpdf) as Hread.
  unfold Pipeline.extract.
  rewrite bind_run. unfold try_except at 1. rewrite on_disk_run, Hfetch.
  rewrite bind_run. fold (read_pages E local). rewrite Hread.
  rewrite bind_run, on_store_run, (pg_connect_run _ _ HE). cbn [fst snd].
  unfold try_except.
  match goal with
  | |- context [Pipeline.extract_try E inp ps ?w1] =>
      destruct (extract_try_refused E inp ps w1 HE Hst) as (msg & evs & ->)
  end.
  rewrite bind_run. unfold Pipeline.log, modify, raise.
  cbn [Pipeline.disk Pipeline.pdf_calls Pipeline.store Pipeline.calls
       with_store with_pdf_calls with_disk].
  eexists _, _, evs. split; [reflexivity |]. split; [reflexivity |].
  now rewrite <- app_assoc.
Qed.

Lemma refused_request_rolls_back_witness :
  exists detail w' evs,
    Pipeline.extract pipeline_env oversized_upload (pipeline_world unchunked_db)
    = (Raise (HTTPException 500 (py "Database operation failed: " ++ detail)),
       w')
    /\ Pipeline.store w' = logged (world_of unchunked_db) Service.Connect
    /\ Pipeline.calls w' = [] ++ evs ++ [Pipeline.Rollback].
Proof.
  refine (refused_request_rolls_back pipeline_env oversized_upload
            (pipeline_world unchunked_db) (py "/data/handbook.pdf")
            handbook_pages eq_refl _ eq_refl eq_refl).
  vm_compute. reflexivity.
Defined.

Section Reprocessing.

Import Store Pipeline.

(** A [file://] locator of an existing file, fetched. *)
Lemma fetch_existing_file (F : Fetcher.env) (d : Fetcher.world) (path : str) :
  In path (Fetcher.files d) ->
  Fetcher.download_from_minio F (Fetcher.file_scheme ++ path) d = (Ok path, d).
Proof.
  intros Hin. rewrite download_file_run.
  now apply listed_iff in Hin as ->.
Qed.

(** The endpoint on an existing local PDF and a storable request. *)
Lemma extract_local_run (E : env) (inp : ExtractIn) (w : world) (path : str)
      (ps : list Extractor.page_out) :
  fileUrl inp = Fetcher.file_scheme ++ path ->
  In path (Fetcher.files (disk w)) ->
  fst (Extractor.extract_text_from_pdf (libs E) path (pdf_calls w)) = Ok ps ->
  Service.psycopg2 (service E) = Some (Returns tt) ->
  storable inp ps = true ->
  extract E inp w
  = (Ok (extracted_pages inp ps),
     stored E inp ps
       (with_pdf_calls w
          (snd (Extractor.extract_text_from_pdf (libs E) path (pdf_calls w))))).
Proof.
  intros Hurl Hin Hpdf HE Hst.
  pose proof (fetch_existing_file (fetcher E) (disk w) path Hin) as Hfetch.
  rewrite <- Hurl in Hfetch.
  assert (Hdisk : with_disk w (disk w) = w) by now destruct w.
  erewrite extract_run with (local := path) (ps := ps);
    [reflexivity | now rewrite Hfetch | | exact HE | exact Hst].
  rewrite Hfetch. cbn [snd]. rewrite Hdisk. now apply read_pages_pdf.
Qed.

End Reprocessing.

(** X24.  Processing a document again stores its chunks again, twice.
    For a local PDF that extracts to the pages [ps], with the database
    reachable and the request storable, both requests succeed; the
    first appends the chunk records of the pages the document had
    before and of [ps]; the second appends these once more and the
    records of [ps] a further time, because its page rows were
    inserted a second time and chunk-and-store runs over all page rows
    of the document.  After two requests for a new document every
    chunk is stored three times. *)
Theorem reprocessing_stores_chunks_again (E : Pipeline.env)
        (inp : Pipeline.ExtractIn) (w : Pipeline.world) (path : str)
        (ps : list Extractor.page_out) :
  let d := Service.database (Pipeline.store w) in
  let id := Pipeline.documentId inp in
  let once := snd (Pipeline.extract E inp w) in
  let twice := snd (Pipeline.extract E inp once) in
  let before := chunk_records id (Store.select_pages d id) in
  Pipeline.fileUrl inp = Fetcher.file_scheme ++ path ->
  In path (Fetcher.files (Pipeline.disk w)) ->
  fst (Extractor.extract_text_from_pdf (Pipeline.libs E) path
         (Pipeline.pdf_calls w)) = Ok ps ->
  Service.psycopg2 (Pipeline.service E) = Some (Returns tt) ->
  storable inp ps = true ->
  Service.pending (Pipeline.store w) = [] ->
  fst (Pipeline.extract E inp w) = Ok (extracted_pages inp ps)
  /\ fst (Pipeline.extract E inp once) = Ok (extracted_pages inp ps)
  /\ exists first second,
      Store.chunks (Service.database (Pipeline.store once))
      = Store.chunks d ++ first
      /\ Store.chunks (Service.database (Pipeline.store twice))
         = Store.chunks d ++ first ++ second
      /\ map written_columns first = before ++ upload_records id ps
      /\ map written_columns second
         = before ++ upload_records id ps ++ upload_records id ps.
Proof.
  cbv zeta. intros Hurl Hin Hpdf HE Hst Hpending.
  rewrite (extract_local_run _ _ _ _ _ Hurl Hin Hpdf HE Hst). cbn [fst snd].
  set (w1 := with_pdf_calls w
               (snd (Extractor.extract_text_from_pdf (Pipeline.libs E) path
                       (Pipeline.pdf_calls w)))).
  destruct (stored_database E inp ps w1 HE Hpending)
    as (new1 & first & Hdb1 & Hnew1 & Hfirst & Hpending1).
  cbn [Pipeline.store w1 with_pdf_calls] in Hdb1, Hfirst.
  assert (Hin1 : In path (Fetcher.files (Pipeline.disk (stored E inp ps w1))))
    by exact Hin.
  assert (Hpdf1 :
            fst (Extractor.extract_text_from_pdf (Pipeline.libs E) path
                   (Pipeline.pdf_calls (stored E inp ps w1))) = Ok ps)
    by (rewrite <- Hpdf; apply extract_text_oblivious).
  rewrite (extract_local_run _ _ _ _ _ Hurl Hin1 Hpdf1 HE Hst). cbn [fst snd].
  set (w2 := with_pdf_calls (stored E inp ps w1)
               (snd (Extractor.extract_text_from_pdf (Pipeline.libs E) path
                       (Pipeline.pdf_calls (stored E inp ps w1))))).
  destruct (stored_database E inp ps w2 HE Hpending1)
    as (new2 & second & Hdb2 & Hnew2 & Hsecond & _).
  cbn [Pipeline.store w2 with_pdf_calls] in Hdb2, Hsecond.
  rewrite Hdb1 in Hdb2, Hsecond.
  cbn [Store.documents Store.document_pages Store.chunks] in Hdb2.
  unfold Store.select_pages in Hsecond. cbn [Store.document_pages] in Hsecond.
  rewrite (select_pages_new _ ps _ _ Hnew1) in Hsecond.
  fold (Store.select_pages (Service.database (Pipeline.store w))
          (Pipeline.documentId inp)) in Hsecond.
  rewrite chunk_records_app, (chunk_records_upload _ _ _ Hnew1) in Hsecond.
  split; [reflexivity |]. split; [reflexivity |].
  exists first, second. rewrite Hdb1, Hdb2. cbn [Store.chunks].
  repeat split.
  - now rewrite <- app_assoc.
  - exact Hfirst.
  - now rewrite Hsecond, <- app_assoc.
Qed.

Lemma reprocessing_stores_chunks_again_witness :
  let once := snd (Pipeline.extract pipeline_env upload
                     (pipeline_world unchunked_db)) in
  let twice := snd (Pipeline.extract pipeline_env upload once) in
  fst (Pipeline.extract pipeline_env upload (pipeline_world unchunked_db))
  = Ok (extracted_pages upload handbook_pages)
  /\ fst (Pipeline.extract pipeline_env upload once)
     = Ok (extracted_pages upload handbook_pages)
  /\ exists first second,
      Store.chunks (Service.database (Pipeline.store once)) = [] ++ first
      /\ Store.chunks (Service.database (Pipeline.store twice))
         = [] ++ first ++ second
      /\ map written_columns first
         = chunk_records 1 (Store.select_pages unchunked_db 1)
           ++ upload_records 1 handbook_pages
      /\ map written_columns second
         = chunk_records 1 (Store.select_pages unchunked_db 1)
           ++ upload_records 1 handbook_pages
           ++ upload_records 1 handbook_pages.
Proof.
  refine (reprocessing_stores_chunks_again pipeline_env upload
            (pipeline_world unchunked_db) (py "/data/handbook.pdf")
            handbook_pages eq_refl _ _ eq_refl eq_refl eq_refl).
  - now left.
  - vm_compute. reflexivity.
Defined.

(** ** The simplified service *)

Section SimpleFacts.

Import Store Service Answer.

(** Answer generation of the simplified service never raises and only
    logs. *)
Lemma simple_generate_total (E : env) (q context : str) (w : world) :
  exists a evs,
    Simple.generate_ai_response E q context w
    = (Ok a, {| database := database w; pending := pending w;
                calls := calls w ++ evs |}).
Proof.
  unfold Simple.generate_ai_response, try_except, bind, log, modify, of_reply,
    ret, raise.
  destruct (gemini_model E) as [g|]; cbn; [| eauto].
  destruct (g _); cbn; rewrite <- app_assoc; eauto.
Qed.

(** The simplified [qa] on a request with a usable term. *)
Lemma simple_qa_run (E : env) (inp : QaIn) (w : world) :
  psycopg2 E = Some (Returns tt) ->
  query_words (query inp) <> [] ->
  Simple.qa E inp w
  = bind (sql_select_chunks (scope_of (documentId inp))
            (map pattern_of (query_words (query inp))) (top_k inp))
         (fun rows =>
            match rows with
            | _ :: _ =>
                bind (Simple.generate_ai_response E (query inp)
                        (join [10%N; 10%N] (map context_part rows)))
                     (fun answer =>
                        ret {| answer := answer; citations := map cite rows |})
            | [] => ret {| answer := msg_no_match; citations := [] |}
            end)
         (logged w Connect).
Proof.
  intros HE Hterms. unfold Simple.qa.
  rewrite bind_run, (pg_connect_run _ _ HE).
  now destruct (query_words (query inp)).
Qed.

Lemma blank_no_words (q : str) : blank q = true -> split_ws q = [].
Proof.
  intros Hb. destruct (split_ws q) as [|word l] eqn:Hs; [reflexivity |].
  assert (H : blank q = false) by (apply split_ws_content; congruence).
  congruence.
Qed.

(** A search over chunks none of which is in the scope finds nothing. *)
Lemma select_chunks_out_of_scope (d : db) (scope : option Z)
      (terms : list str) (limit : Z) :
  existsb (existsb (N.eqb 0)) (map pattern_of terms) = false ->
  (0 <= limit <= max_bigint)%Z ->
  (forall r, In r (chunks d) -> in_scope scope r = false) ->
  select_chunks d scope (map pattern_of terms) limit = Returns [].
Proof.
  intros Hnul [Hlo Hhi] Hscope. unfold select_chunks. rewrite Hnul.
  apply Z.ltb_ge in Hlo. rewrite Hlo.
  replace (limit >? max_bigint)%Z with false
    by (symmetry; rewrite Z.gtb_ltb; now apply Z.ltb_ge).
  pose proof (patterns_parse terms) as Hp.
  destruct (parse_all (map pattern_of terms)) as [pats|]; [| congruence].
  f_equal.
  replace (filter _ (chunks d)) with (@nil chunk_row); [now destruct (Z.to_nat limit) |].
  symmetry. induction (chunks d) as [|r rows IH]; [reflexivity |].
  cbn [filter]. rewrite (Hscope r) by now left. cbn [andb].
  apply IH. intros r' Hr'. apply Hscope. now right.
Qed.

End SimpleFacts.

(** X25.  The simplified service searches like the main one.  For a
    request on which the main [qa] reaches its search (a usable term,
    a store with chunks, a scope that is absent or known, the database
    reachable): when the search returns rows, both services succeed
    and cite exactly these rows, and they give the same response when
    no row matches or no language model is configured; when the search
    fails, the main service reports status 500 "Q&A processing failed:
    ..." while the simplified one lets the database error escape
    unhandled. *)
Theorem simple_qa_cites_like_qa (E : Service.env) (w : Service.world)
        (inp : Answer.QaIn) :
  let scope := Answer.scope_of (Answer.documentId inp) in
  let params := map Answer.pattern_of (Answer.query_words (Answer.query inp)) in
  Service.psycopg2 E = Some (Returns tt) ->
  Answer.query_words (Answer.query inp) <> [] ->
  Store.chunks (Service.database w) <> [] ->
  scope_known (Service.database w) scope ->
  match Store.select_chunks (Service.database w) scope params (Answer.top_k inp)
  with
  | Returns rows =>
      (exists out out',
          fst (Answer.qa E inp w) = Ok out
          /\ fst (Simple.qa E inp w) = Ok out'
          /\ Answer.citations out = map Answer.cite rows
          /\ Answer.citations out' = map Answer.cite rows)
      /\ (rows = [] \/ Service.gemini_model E = None ->
          fst (Simple.qa E inp w) = fst (Answer.qa E inp w))
  | Fails msg =>
      fst (Answer.qa E inp w)
      = Raise (HTTPException 500 (py "Q&A processing failed: " ++ msg))
      /\ fst (Simple.qa E inp w) = Raise (Error msg)
  end.
Proof.
  cbv zeta. intros HE Hterms Hchunks Hknown.
  rewrite (simple_qa_run _ _ _ HE Hterms).
  unfold Answer.qa, try_except.
  rewrite (qa_try_search _ _ _ HE Hterms Hchunks Hknown).
  rewrite !bind_run, !sql_select_chunks_run, before_search_database.
  unfold logged at 2. cbn [Service.database].
  destruct (Store.select_chunks _ _ _ _) as [rows|msg]; [| now split].
  destruct rows as [|r rows].
  - split; [| reflexivity]. eexists _, _. repeat split.
  - rewrite (respond_run E (Answer.query inp) (r :: rows)) by discriminate.
    rewrite bind_run.
    destruct (simple_generate_total E (Answer.query inp)
                (join [10%N; 10%N] (map Answer.context_part (r :: rows)))
                (logged (logged w Service.Connect)
                   (Service.Execute
                      (Store.SelectChunks
                         (Answer.scope_of (Answer.documentId inp))
                         (map Answer.pattern_of
                            (Answer.query_words (Answer.query inp)))
                         (Answer.top_k inp)))))
      as (a & evs & Hgen).
    split.
    + rewrite Hgen. eexists _, _. repeat split.
    + intros [Hnil | Hmodel]; [discriminate Hnil |].
      clear Hgen. unfold Simple.generate_ai_response, answer_of.
      rewrite Hmodel. reflexivity.
Qed.

Lemma simple_qa_cites_like_qa_witness :
  (exists out out',
      fst (Answer.qa failing_model_env (ask "refund policy" (Some 1%Z))
             (world_of handbook_db)) = Ok out
      /\ fst (Simple.qa failing_model_env (ask "refund policy" (Some 1%Z))
                (world_of handbook_db)) = Ok out'
      /\ Answer.citations out = map Answer.cite [refund_chunk]
      /\ Answer.citations out' = map Answer.cite [refund_chunk])
  /\ ([refund_chunk] = [] \/ Service.gemini_model failing_model_env = None ->
      fst (Simple.qa failing_model_env (ask "refund policy" (Some 1%Z))
             (world_of handbook_db))
      = fst (Answer.qa failing_model_env (ask "refund policy" (Some 1%Z))
               (world_of handbook_db))).
Proof.
  refine (simple_qa_cites_like_qa failing_model_env (world_of handbook_db)
            (ask "refund policy" (Some 1%Z)) eq_refl _ _ _).
  - vm_compute. discriminate.
  - discriminate.
  - vm_compute. discriminate.
Defined.

(** X26.  What the simplified service leaves out.  With the database
    reachable, a blank query is not rejected: it gets the "more
    specific question" response, after a connection was opened.  And
    when no stored chunk lies within the scope (the store is empty, or
    the scope names a document without chunks or no document at all),
    a query with a usable term gets the "nothing relevant found"
    response: the simplified service has neither the "no documents"
    nor the "document not found" answer. *)
Theorem simple_qa_without_guards (E : Service.env) (w : Service.world)
        (inp : Answer.QaIn) :
  Service.psycopg2 E = Some (Returns tt) ->
  (blank (Answer.query inp) = true ->
   Simple.qa E inp w = (Ok more_specific_response, logged w Service.Connect))
  /\ (Answer.query_words (Answer.query inp) <> [] ->
      ~ In 0%N (Answer.query inp) ->
      (0 <= Answer.top_k inp <= Store.max_bigint)%Z ->
      (forall r, In r (Store.chunks (Service.database w)) ->
                 Store.in_scope (Answer.scope_of (Answer.documentId inp)) r
                 = false) ->
      fst (Simple.qa E inp w) = Ok no_match_response).
Proof.
  intros HE. split.
  - intros Hb. unfold Simple.qa.
    rewrite bind_run, (pg_connect_run _ _ HE).
    unfold Answer.query_words. now rewrite (blank_no_words _ Hb).
  - intros Hterms Hnul Hk Hscope.
    rewrite (simple_qa_run _ _ _ HE Hterms).
    rewrite bind_run, sql_select_chunks_run.
    change (Service.database (logged w Service.Connect))
      with (Service.database w).
    now rewrite (select_chunks_out_of_scope _ _ _ _
                   (patterns_without_nul _ Hnul) Hk Hscope).
Qed.

Lemma simple_qa_without_guards_witness :
  Simple.qa plain_env (ask "   " None) (world_of handbook_db)
  = (Ok more_specific_response, logged (world_of handbook_db) Service.Connect)
  /\ fst (Simple.qa plain_env (ask "refund policy" (Some 7%Z))
            (world_of handbook_db))
     = Ok no_match_response.
Proof.
  split.
  - exact (proj1 (simple_qa_without_guards plain_env (world_of handbook_db)
                    (ask "   " None) eq_refl) eq_refl).
  - refine (proj2 (simple_qa_without_guards plain_env (world_of handbook_db)
                     (ask "refund policy" (Some 7%Z)) eq_refl) _ _ _ _).
    + vm_compute. discriminate.
    + vm_compute. intuition discriminate.
    + vm_compute. split; discriminate.
    + intros r [<- | [<- | []]]; reflexivity.
Defined.
